(** * Camera / SLAM core: a shallow embedding of the frame-processing pipeline

    The TypeScript sources embedded here are
    - [src/lib/3d-analysis.ts]       (Analysis3D, ImageProcessor),
    - [src/lib/mapping-algorithms.ts] (SLAMProcessor, AIProcessor),
    - [src/hooks/use-ai-detection.ts] (trackObjects),
    - [src/hooks/use-mapping.ts]      (exportMap).

    JavaScript numbers are IEEE 754 binary64 values, so they are modelled by
    Rocq's primitive [float]; typed-array cells ([Uint8ClampedArray]) are
    [byte]s; arrays are lists, read with [!!] and written with [<[i:=x]>];
    [Date.now], [performance.now] and [Math.random] are read from an
    environment, one value per call. *)

From Stdlib Require Import ZArith List String Floats Lia Bool Arith.
From Stdlib Require Uint63.
From Stdlib.Strings Require Import Byte.
From stdpp Require Import base list gmap strings.
Import ListNotations.

Set Warnings "-inexact-float,-abstract-large-number".
Set Default Proof Using "Type".

(** ** JavaScript numbers *)

Module JS.
Local Open Scope float_scope.

(** The Number of an array length or of a loop counter. *)
Definition of_nat (n : nat) : float := of_uint63 (Uint63.of_Z (Z.of_nat n)).

(** The mathematical integer [z] as a Number (round to nearest even). *)
Definition of_Z (z : Z) : float := SF2Prim (binary_normalize prec emax z 0 false).

(** Reading a cell of a [Uint8ClampedArray]. *)
Definition of_byte (b : byte) : float := of_uint63 (Uint63.of_Z (Z.of_N (Byte.to_N b))).

Definition byte_of_Z (z : Z) : byte :=
  match Byte.of_N (Z.to_N z) with Some b => b | None => x00 end.

(** [Math.floor]. *)
Definition Math_floor (x : float) : float :=
  match Prim2SF x with
  | S754_finite s m e =>
      if (0 <=? e)%Z then x else of_Z (Z.shiftl (cond_Zopp s (Zpos m)) e)
  | _ => x
  end.

(** [Math.round]: the nearest integer, ties towards +infinity. *)
Definition Math_round (x : float) : float :=
  match Prim2SF x with
  | S754_finite s m e =>
      if (0 <=? e)%Z then x
      else
        let k := (- e)%Z in
        let r := Z.shiftr (cond_Zopp s (Zpos m) + 2 ^ (k - 1)) k in
        if (r =? 0)%Z then (if s then neg_zero else zero) else of_Z r
  | _ => x
  end.

(** [ToUint8Clamp] (ECMAScript 7.1.11): what a store into a
    [Uint8ClampedArray] keeps of a Number. *)
Definition ToUint8Clamp (x : float) : byte :=
  if is_nan x then x00
  else if x <=? 0 then x00
  else if 255 <=? x then xff
  else
    match Prim2SF x with
    | S754_finite _ m e =>
        if (0 <=? e)%Z then byte_of_Z (Z.shiftl (Zpos m) e)
        else
          let k := (- e)%Z in
          let f := Z.shiftr (Zpos m) k in
          let r := (Zpos m - f * 2 ^ k)%Z in
          match (2 * r ?= 2 ^ k)%Z with
          | Lt => byte_of_Z f
          | Gt => byte_of_Z (f + 1)
          | Eq => if Z.even f then byte_of_Z f else byte_of_Z (f + 1)
          end
    | _ => x00
    end.

(** [Math.min] and [Math.max] of two arguments. *)
Definition Math_min (a b : float) : float :=
  if is_nan a || is_nan b then nan
  else if a <? b then a
  else if b <? a then b
  else if get_sign a then a else b.

Definition Math_max (a b : float) : float :=
  if is_nan a || is_nan b then nan
  else if a <? b then b
  else if b <? a then a
  else if get_sign a then b else a.

(** [Math.min(...xs)] and [Math.max(...xs)]. *)
Definition Math_min_list (xs : list float) : float := fold_left Math_min xs infinity.
Definition Math_max_list (xs : list float) : float := fold_left Math_max xs neg_infinity.

(** [Math.pow]. ECMAScript leaves the result implementation-approximated;
    the engines' fdlibm-derived routine returns [x] for the exponent 1 and
    [x * x] for the exponent 2, and the remaining cases are left to
    [approx]. *)
Definition Math_pow (approx : float -> float -> float) (x y : float) : float :=
  if y =? 1 then x
  else if y =? 2 then x * x
  else approx x y.

(** The array index a Number denotes, when it is a non-negative integer. *)
Definition to_index (i : float) : option Z :=
  match Prim2SF i with
  | S754_zero _ => Some 0%Z
  | S754_finite false m e =>
      if (0 <=? e)%Z then Some (Z.shiftl (Zpos m) e)
      else if (Z.land (Zpos m) (Z.ones (- e)) =? 0)%Z then Some (Z.shiftl (Zpos m) e)
      else None
  | _ => None
  end.

(** [data[i]] on a [Uint8ClampedArray]: [None] stands for [undefined]. *)
Definition read_cell (data : list byte) (i : float) : option float :=
  match to_index i with
  | Some z => if (z <? Z.of_nat (length data))%Z then of_byte <$> data !! Z.to_nat z else None
  | None => None
  end.

(** [v || 0] on a possibly missing Number. *)
Definition or_zero (o : option float) : float :=
  match o with
  | Some v => if is_nan v || is_zero v then 0 else v
  | None => 0
  end.

(** [Array.prototype.sort(cmp)]: a stable sort; [x] goes after [y] when
    [cmp x y > 0], and a NaN comparison counts as 0. *)
Fixpoint sort_insert {A : Type} (cmp : A -> A -> float) (x : A) (sorted : list A) : list A :=
  match sorted with
  | [] => [x]
  | y :: rest => if 0 <? cmp x y then y :: sort_insert cmp x rest else x :: sorted
  end.

Definition sort {A : Type} (cmp : A -> A -> float) (l : list A) : list A :=
  fold_right (sort_insert cmp) [] l.

(** [Array.prototype.reduce(f)] without an initial value, on a non-empty array. *)
Definition reduce1 {A : Type} (f : A -> A -> A) (first : A) (rest : list A) : A :=
  fold_left f rest first.

End JS.

(** ** Notions used to reason on binary64 results *)

Section Binary64.
Local Open Scope Z_scope.

(** Two results that differ at most in their sign. *)
Definition same_magnitude (a b : spec_float) : Prop :=
  match a, b with
  | S754_zero _, S754_zero _ => True
  | S754_infinity _, S754_infinity _ => True
  | S754_nan, S754_nan => True
  | S754_finite _ m e, S754_finite _ m' e' => m = m' /\ e = e'
  | _, _ => False
  end.

(** [m * 2^e] is below [2^K]. *)
Definition fits (K m e : Z) : Prop := 0 <= m /\ e <= K /\ m < 2 ^ (K - e).

(** A zero, or a finite number of magnitude below [2^K]. *)
Definition sf_small (K : Z) (x : spec_float) : Prop :=
  match x with
  | S754_zero _ => True
  | S754_finite _ m e => Zpos (digits2_pos m) + e <= K
  | _ => False
  end.

(** The same, and not negative. *)
Definition sf_small_pos (K : Z) (x : spec_float) : Prop :=
  match x with
  | S754_zero _ => True
  | S754_finite false m e => Zpos (digits2_pos m) + e <= K
  | _ => False
  end.

(** A key that orders the numbers as [<] does: the class of the number
    (negative infinity, negative, zero, positive, positive infinity), then
    its exponent, then its mantissa. *)
Definition sf_key (x : spec_float) : Z * Z * Z :=
  match x with
  | S754_infinity true => (-2, 0, 0)
  | S754_finite true m e => (-1, - e, - Zpos m)
  | S754_zero _ => (0, 0, 0)
  | S754_finite false m e => (1, e, Zpos m)
  | S754_infinity false => (2, 0, 0)
  | S754_nan => (0, 0, 0)
  end.

Definition key_lt (a b : Z * Z * Z) : Prop :=
  let '(c1, e1, m1) := a in
  let '(c2, e2, m2) := b in
  c1 < c2 \/ (c1 = c2 /\ (e1 < e2 \/ (e1 = e2 /\ m1 < m2))).

(** The float [x] is a zero or a finite number of magnitude below [2^K]. *)
Definition small (K : Z) (x : float) : Prop := sf_small K (Prim2SF x).
Definition small_pos (K : Z) (x : float) : Prop := sf_small_pos K (Prim2SF x).

End Binary64.

(** ** The environment: clocks, randomness and library routines *)

Record Env := {
  Date_now : nat -> float;           (* the k-th reading of [Date.now()] *)
  performance_now : nat -> float;    (* the k-th reading of [performance.now()] *)
  toISOString : float -> string;     (* [new Date(t).toISOString()] *)
  Math_random : nat -> float;        (* the k-th draw of [Math.random()] *)
  Math_sin : float -> float;
  Math_cos : float -> float;
  pow_approx : float -> float -> float;
  toFixed2 : float -> string;        (* [n.toFixed(2)] *)
  toString36 : float -> string;      (* [n.toString(36).substr(2, 9)] *)
  show_num : float -> string         (* template-literal interpolation of a Number *)
}.

(** How many clock readings and random draws were consumed so far. *)
Record World := { clock_reads : nat; random_draws : nat }.

Definition read_clock (env : Env) (w : World) : float * World :=
  (Date_now env (clock_reads w),
   {| clock_reads := S (clock_reads w); random_draws := random_draws w |}).

Definition draw_random (env : Env) (w : World) : float * World :=
  (Math_random env (random_draws w),
   {| clock_reads := clock_reads w; random_draws := S (random_draws w) |}).

(** ** [ai-models]: the shared data types *)

Definition Vec3 : Type := float * float * float.

Module Center.
Record t := { x : float; y : float }.
End Center.

Module BBox.
Record t := { x : float; y : float; width : float; height : float }.
End BBox.

Module DetectedObject.
Record t := {
  id : string;
  label : string;
  confidence : float;
  bbox : BBox.t;
  center : Center.t;
  area : float;
  timestamp : float
}.
End DetectedObject.

Module DepthPoint.
Record t := { x : float; y : float; depth : float; confidence : float }.
End DepthPoint.

Module MorphologyAnalysis.
Record dims := { width : float; height : float; depth : float }.
Record t := {
  objectId : string;
  volume : float;
  surfaceArea : float;
  dimensions : dims;
  shape : string;
  complexity : float;
  symmetry : float
}.
End MorphologyAnalysis.

(** The browser's [ImageData]: [data] holds [4 * width * height] cells,
    row-major, four channels (red, green, blue, alpha) per pixel. *)
Module ImageData.
Record t := { data : list byte; width : nat; height : nat }.
Definition wf (img : t) : Prop := length (data img) = (4 * (width img * height img))%nat.
End ImageData.

Module SpatialMap.
Record point := { x : float; y : float; z : float; color : Vec3 }.
Record landmark := { id : string; position : Vec3; type : string; confidence : float }.
Record boundary := { points : list Vec3; btype : string }.
Record t := { points_of : list point; landmarks : list landmark; boundaries : list boundary }.
End SpatialMap.

(** ** [use-ai-detection.ts]: the object tracker *)

Module Tracker.
Local Open Scope float_scope.

(** [{ ...newObj, id: similarObj.id }] *)
Definition with_id (o : DetectedObject.t) (i : string) : DetectedObject.t :=
  {| DetectedObject.id := i;
     DetectedObject.label := DetectedObject.label o;
     DetectedObject.confidence := DetectedObject.confidence o;
     DetectedObject.bbox := DetectedObject.bbox o;
     DetectedObject.center := DetectedObject.center o;
     DetectedObject.area := DetectedObject.area o;
     DetectedObject.timestamp := DetectedObject.timestamp o |}.

Definition distance (env : Env) (newObj oldObj : DetectedObject.t) : float :=
  sqrt (JS.Math_pow (pow_approx env)
          (Center.x (DetectedObject.center newObj) - Center.x (DetectedObject.center oldObj)) 2
        + JS.Math_pow (pow_approx env)
            (Center.y (DetectedObject.center newObj) - Center.y (DetectedObject.center oldObj)) 2).

(** The predicate handed to [previousObjects.find]. *)
Definition similar (env : Env) (newObj oldObj : DetectedObject.t) : bool :=
  String.eqb (DetectedObject.label oldObj) (DetectedObject.label newObj)
  && (distance env newObj oldObj <? 100).

(** The object pushed on [trackedObjects] for one new object. *)
Definition tracked_as (env : Env) (previousObjects : list DetectedObject.t)
    (newObj : DetectedObject.t) : DetectedObject.t :=
  match List.find (similar env newObj) previousObjects with
  | Some similarObj => with_id newObj (DetectedObject.id similarObj)
  | None => newObj
  end.

Definition trackObjects (env : Env) (enableTracking : bool)
    (newObjects previousObjects : list DetectedObject.t) : list DetectedObject.t :=
  if negb enableTracking || (length previousObjects =? 0)%nat then newObjects
  else
    fold_left
      (fun trackedObjects newObj => trackedObjects ++ [tracked_as env previousObjects newObj])
      newObjects [].

(** The reading of the specification: the candidates are the previous objects
    of the same label within the tolerance, and the nearest one is taken. *)
Definition nearest (env : Env) (newObj : DetectedObject.t)
    (candidates : list DetectedObject.t) : option DetectedObject.t :=
  fold_left
    (fun best c =>
       match best with
       | None => Some c
       | Some b => if distance env newObj c <? distance env newObj b then Some c else Some b
       end)
    candidates None.

Definition trackObjects_nearest (env : Env)
    (newObjects previousObjects : list DetectedObject.t) : list DetectedObject.t :=
  List.map
    (fun newObj =>
       match nearest env newObj (List.filter (similar env newObj) previousObjects) with
       | Some s => with_id newObj (DetectedObject.id s)
       | None => newObj
       end)
    newObjects.

End Tracker.

(** ** [3d-analysis.ts], [Analysis3D]: the morphology analyzer

    ([AIProcessor] in [mapping-algorithms.ts] carries the same code.) *)

Module Analysis3D.
Local Open Scope float_scope.

(** [depthPoints[i].depth]. *)
Definition depth_at (depthPoints : list DepthPoint.t) (i : nat) : float :=
  match depthPoints !! i with
  | Some p => DepthPoint.depth p
  | None => nan
  end.

Definition createDefaultMorphologyAnalysis (object : DetectedObject.t) : MorphologyAnalysis.t :=
  {| MorphologyAnalysis.objectId := DetectedObject.id object;
     MorphologyAnalysis.volume := 0;
     MorphologyAnalysis.surfaceArea := 0;
     MorphologyAnalysis.dimensions :=
       {| MorphologyAnalysis.width := 0; MorphologyAnalysis.height := 0;
          MorphologyAnalysis.depth := 0 |};
     MorphologyAnalysis.shape := "indefinido";
     MorphologyAnalysis.complexity := 0;
     MorphologyAnalysis.symmetry := 0 |}.

Definition calculateDepthVariation (depthPoints : list DepthPoint.t) : float :=
  if (length depthPoints <? 2)%nat then 0
  else
    let depths := List.map DepthPoint.depth depthPoints in
    let min := JS.Math_min_list depths in
    let max := JS.Math_max_list depths in
    max - min.

Definition classifyShape (bbox : BBox.t) (depthPoints : list DepthPoint.t) : string :=
  let aspectRatio := BBox.width bbox / BBox.height bbox in
  let depthVariation := calculateDepthVariation depthPoints in
  if 1.5 <? aspectRatio then "retangular"
  else if aspectRatio <? 0.7 then "vertical"
  else if depthVariation <? 0.1 then "plano"
  else if 0.5 <? depthVariation then "irregular"
  else "cúbico".

(** The loop [for (let i = 1; i < depthPoints.length; i++)] runs over the
    indices [1 .. length - 1] and accumulates in [complexity]. *)
Definition calculateComplexity (depthPoints : list DepthPoint.t) : float :=
  if (length depthPoints <? 2)%nat then 0
  else
    let complexity :=
      fold_left
        (fun complexity i =>
           let diff := abs (depth_at depthPoints i - depth_at depthPoints (i - 1)) in
           complexity + diff)
        (seq 1 (length depthPoints - 1)) 0 in
    JS.Math_min 1 (complexity / JS.of_nat (length depthPoints)).

Definition calculateSymmetry (depthPoints : list DepthPoint.t) (bbox : BBox.t) : float :=
  let centerX := BBox.x bbox + BBox.width bbox / 2 in
  let leftPoints := List.filter (fun p => DepthPoint.x p <? centerX) depthPoints in
  let rightPoints := List.filter (fun p => centerX <? DepthPoint.x p) depthPoints in
  if (length leftPoints =? 0)%nat || (length rightPoints =? 0)%nat then 0
  else
    let leftAvgDepth :=
      fold_left (fun a b => a + DepthPoint.depth b) leftPoints 0 / JS.of_nat (length leftPoints) in
    let rightAvgDepth :=
      fold_left (fun a b => a + DepthPoint.depth b) rightPoints 0 / JS.of_nat (length rightPoints) in
    JS.Math_max 0 (1 - abs (leftAvgDepth - rightAvgDepth)).

(** The depth samples that fall inside the bounding box. *)
Definition inside (bbox : BBox.t) (point : DepthPoint.t) : bool :=
  (BBox.x bbox <=? DepthPoint.x point) && (DepthPoint.x point <=? BBox.x bbox + BBox.width bbox)
  && (BBox.y bbox <=? DepthPoint.y point) && (DepthPoint.y point <=? BBox.y bbox + BBox.height bbox).

Definition analyzeMorphology (object : DetectedObject.t) (depthPoints : list DepthPoint.t)
    : MorphologyAnalysis.t :=
  let bbox := DetectedObject.bbox object in
  let objectDepthPoints := List.filter (inside bbox) depthPoints in
  if (length objectDepthPoints =? 0)%nat then createDefaultMorphologyAnalysis object
  else
    let depths := List.map DepthPoint.depth objectDepthPoints in
    let minDepth := JS.Math_min_list depths in
    let maxDepth := JS.Math_max_list depths in
    let pixelToMeterRatio := 0.001 in
    let width3D := BBox.width bbox * pixelToMeterRatio in
    let height3D := BBox.height bbox * pixelToMeterRatio in
    let depth3D := (maxDepth - minDepth) * 2 in
    {| MorphologyAnalysis.objectId := DetectedObject.id object;
       MorphologyAnalysis.volume := width3D * height3D * depth3D;
       MorphologyAnalysis.surfaceArea :=
         2 * (width3D * height3D + width3D * depth3D + height3D * depth3D);
       MorphologyAnalysis.dimensions :=
         {| MorphologyAnalysis.width := width3D; MorphologyAnalysis.height := height3D;
            MorphologyAnalysis.depth := depth3D |};
       MorphologyAnalysis.shape := classifyShape bbox objectDepthPoints;
       MorphologyAnalysis.complexity := calculateComplexity objectDepthPoints;
       MorphologyAnalysis.symmetry := calculateSymmetry objectDepthPoints bbox |}.

(** The complexity score in the words of the specification: the absolute
    differences of consecutive depths, summed and divided by the number of
    pairs, then clamped to [0,1]. *)
Fixpoint consecutive_abs_diffs (depths : list float) : list float :=
  match depths with
  | a :: (b :: _) as rest => abs (b - a) :: consecutive_abs_diffs rest
  | _ => []
  end.

Definition sum (xs : list float) : float := fold_left add xs 0.

Definition clamp01 (v : float) : float := JS.Math_max 0 (JS.Math_min 1 v).

Definition mean_abs_diff_complexity (depths : list float) : float :=
  let diffs := consecutive_abs_diffs depths in
  clamp01 (sum diffs / JS.of_nat (length diffs)).

End Analysis3D.

(** ** [mapping-algorithms.ts]: the spatial mapping engine *)

Module MapPoint3D.
Record t := {
  x : float;
  y : float;
  z : float;
  color : Vec3;
  confidence : float;
  timestamp : float
}.
End MapPoint3D.

Module Landmark.
Record t := {
  id : string;
  position : Vec3;
  type : string;
  confidence : float;
  description : string;
  features : list float
}.
End Landmark.

Module Trajectory.
Record sample := { position : Vec3; timestamp : float; confidence : float }.
Record t := { points : list sample; totalDistance : float; averageSpeed : float }.
End Trajectory.

Module SLAMProcessor.
Local Open Scope float_scope.

(** The private fields of the class. *)
Record t := {
  mapPoints : list MapPoint3D.t;
  landmarks : list Landmark.t;
  trajectory : Trajectory.t;
  lastPosition : Vec3
}.

(** The state after [new SLAMProcessor()], which is also the one
    [resetMap()] installs. *)
Definition initial : t :=
  {| mapPoints := [];
     landmarks := [];
     trajectory := {| Trajectory.points := []; Trajectory.totalDistance := 0;
                      Trajectory.averageSpeed := 0 |};
     lastPosition := (0, 0, 0) |}.

Definition resetMap (this : t) : t := initial.

Definition estimateCameraMovement (env : Env) (motionVector : option Vec3) (w : World)
    : Vec3 * World :=
  match motionVector with
  | Some (mx, my, mz) => ((mx * 0.01, my * 0.01, mz * 0.01), w)
  | None =>
      let '(time, w) := read_clock env w in
      ((Math_sin env (time * 0.001) * 0.02,
        Math_cos env (time * 0.0015) * 0.01,
        Math_sin env (time * 0.0008) * 0.03), w)
  end.

(** [points.shift()] *)
Definition shift {A : Type} (l : list A) : list A := List.tl l.

Definition updateTrajectory (env : Env) (movement : Vec3) (this : t) (w : World) : t * World :=
  let '(m0, m1, m2) := movement in
  let '(l0, l1, l2) := lastPosition this in
  let newPosition := (l0 + m0, l1 + m1, l2 + m2) in
  let distance :=
    sqrt (JS.Math_pow (pow_approx env) m0 2
          + JS.Math_pow (pow_approx env) m1 2
          + JS.Math_pow (pow_approx env) m2 2) in
  let '(now, w) := read_clock env w in
  let '(r, w) := draw_random env w in
  let pushed :=
    Trajectory.points (trajectory this)
    ++ [{| Trajectory.position := newPosition;
           Trajectory.timestamp := now;
           Trajectory.confidence := 0.8 + r * 0.2 |}] in
  let totalDistance := Trajectory.totalDistance (trajectory this) + distance in
  let kept := if (1000 <? length pushed)%nat then shift pushed else pushed in
  ({| mapPoints := mapPoints this;
      landmarks := landmarks this;
      trajectory := {| Trajectory.points := kept;
                       Trajectory.totalDistance := totalDistance;
                       Trajectory.averageSpeed := Trajectory.averageSpeed (trajectory this) |};
      lastPosition := newPosition |}, w).

(** One iteration of the loop of [convertDepthTo3D]. *)
Definition convertDepthPoint (env : Env) (imageData : ImageData.t) (position : Vec3)
    (depthPoint : DepthPoint.t) (w : World) : MapPoint3D.t * World :=
  let width := JS.of_nat (ImageData.width imageData) in
  let height := JS.of_nat (ImageData.height imageData) in
  let data := ImageData.data imageData in
  let focalLength := width * 0.5 in
  let x_cam := (DepthPoint.x depthPoint - width / 2) / focalLength * DepthPoint.depth depthPoint in
  let y_cam := (height / 2 - DepthPoint.y depthPoint) / focalLength * DepthPoint.depth depthPoint in
  let z_cam := DepthPoint.depth depthPoint in
  let '(p0, p1, p2) := position in
  let x_global := p0 + x_cam in
  let y_global := p1 + y_cam in
  let z_global := p2 + z_cam in
  let pixelIndex := (DepthPoint.y depthPoint * width + DepthPoint.x depthPoint) * 4 in
  let color :=
    (JS.or_zero (JS.read_cell data pixelIndex),
     JS.or_zero (JS.read_cell data (pixelIndex + 1)),
     JS.or_zero (JS.read_cell data (pixelIndex + 2))) in
  let '(now, w) := read_clock env w in
  ({| MapPoint3D.x := x_global; MapPoint3D.y := y_global; MapPoint3D.z := z_global;
      MapPoint3D.color := color;
      MapPoint3D.confidence := DepthPoint.confidence depthPoint;
      MapPoint3D.timestamp := now |}, w).

Definition convertDepthTo3D (env : Env) (depthPoints : list DepthPoint.t)
    (imageData : ImageData.t) (this : t) (w : World) : list MapPoint3D.t * World :=
  fold_left
    (fun '(points, w) depthPoint =>
       let '(p, w) := convertDepthPoint env imageData (lastPosition this) depthPoint w in
       (points ++ [p], w))
    depthPoints ([], w).

Definition euclideanDistance3D (env : Env) (a b : MapPoint3D.t) : float :=
  sqrt (JS.Math_pow (pow_approx env) (MapPoint3D.x a - MapPoint3D.x b) 2
        + JS.Math_pow (pow_approx env) (MapPoint3D.y a - MapPoint3D.y b) 2
        + JS.Math_pow (pow_approx env) (MapPoint3D.z a - MapPoint3D.z b) 2).

Definition euclideanDistance (env : Env) (a b : Vec3) : float :=
  let '(a0, a1, a2) := a in
  let '(b0, b1, b2) := b in
  sqrt (JS.Math_pow (pow_approx env) (a0 - b0) 2
        + JS.Math_pow (pow_approx env) (a1 - b1) 2
        + JS.Math_pow (pow_approx env) (a2 - b2) 2).

(** The callback of [nearbyPoints.reduce]. *)
Definition more_confident (a b : nat * MapPoint3D.t) : nat * MapPoint3D.t :=
  if MapPoint3D.confidence (snd b) <? MapPoint3D.confidence (snd a) then a else b.

(** [this.mapPoints.filter(existing => euclideanDistance3D(point, existing) < 0.05)].
    The entries of [mapPoints] are distinct objects, so each one is kept
    together with its index: [indexOf(bestExisting)] is the index the filter
    took it from. *)
Definition nearbyPoints (env : Env) (mapPoints : list MapPoint3D.t) (point : MapPoint3D.t)
    : list (nat * MapPoint3D.t) :=
  List.filter (fun existing => euclideanDistance3D env point (snd existing) <? 0.05)
    (imap pair mapPoints).

(** The body of the loop of [addPointsToMap]. *)
Definition addPoint (env : Env) (mapPoints : list MapPoint3D.t) (point : MapPoint3D.t)
    : list MapPoint3D.t :=
  match nearbyPoints env mapPoints point with
  | [] => mapPoints ++ [point]
  | first :: others =>
      let bestExisting := JS.reduce1 more_confident first others in
      if MapPoint3D.confidence (snd bestExisting) <? MapPoint3D.confidence point
      then <[fst bestExisting := point]> mapPoints
      else mapPoints
  end.

Definition addPointsToMap (env : Env) (newPoints : list MapPoint3D.t)
    (mapPoints : list MapPoint3D.t) : list MapPoint3D.t :=
  fold_left (addPoint env) newPoints mapPoints.

(** *** Landmark detection *)

(** [visited] is a [Set] of point objects; the points of one frame are
    distinct objects, so the set holds their indices in [points]. *)
Definition unvisited_within (env : Env) (points : list MapPoint3D.t) (visited : gset nat)
    (center : MapPoint3D.t) (threshold : float) : list (nat * MapPoint3D.t) :=
  List.filter
    (fun p => negb (bool_decide (fst p ∈ visited))
              && (euclideanDistance3D env center (snd p) <? threshold))
    (imap pair points).

Definition expandCluster (env : Env) (point : nat * MapPoint3D.t) (points : list MapPoint3D.t)
    (threshold : float) (visited : gset nat) : list (nat * MapPoint3D.t) * gset nat :=
  let cluster := [point] in
  let visited := {[fst point]} ∪ visited in
  let neighbors := unvisited_within env points visited (snd point) threshold in
  fold_left
    (fun '(cluster, visited) neighbor =>
       let visited := {[fst neighbor]} ∪ visited in
       let cluster := cluster ++ [neighbor] in
       let subNeighbors := unvisited_within env points visited (snd neighbor) threshold in
       fold_left
         (fun '(cluster, visited) subNeighbor =>
            if bool_decide (fst subNeighbor ∈ visited) then (cluster, visited)
            else (cluster ++ [subNeighbor], {[fst subNeighbor]} ∪ visited))
         (firstn 3 subNeighbors) (cluster, visited))
    neighbors (cluster, visited).

Definition clusterPoints (env : Env) (points : list MapPoint3D.t) : list (list MapPoint3D.t) :=
  let threshold := 0.1 in
  fst (fold_left
         (fun '(clusters, visited) point =>
            if bool_decide (fst point ∈ visited) then (clusters, visited)
            else
              let '(cluster, visited) := expandCluster env point points threshold visited in
              if (5 <? length cluster)%nat then (clusters ++ [List.map snd cluster], visited)
              else (clusters, visited))
         (imap pair points) ([], ∅)).

Definition calculateCentroid (points : list MapPoint3D.t) : Vec3 :=
  let '(s0, s1, s2) :=
    fold_left
      (fun '(a0, a1, a2) point =>
         (a0 + MapPoint3D.x point, a1 + MapPoint3D.y point, a2 + MapPoint3D.z point))
      points (0, 0, 0) in
  let n := JS.of_nat (length points) in
  (s0 / n, s1 / n, s2 / n).

Record bounds := {
  minX : float; maxX : float; minY : float; maxY : float; minZ : float; maxZ : float;
  width : float; height : float; depth : float
}.

Definition calculateBounds (points : list MapPoint3D.t) : bounds :=
  let xs := List.map MapPoint3D.x points in
  let ys := List.map MapPoint3D.y points in
  let zs := List.map MapPoint3D.z points in
  {| minX := JS.Math_min_list xs; maxX := JS.Math_max_list xs;
     minY := JS.Math_min_list ys; maxY := JS.Math_max_list ys;
     minZ := JS.Math_min_list zs; maxZ := JS.Math_max_list zs;
     width := JS.Math_max_list xs - JS.Math_min_list xs;
     height := JS.Math_max_list ys - JS.Math_min_list ys;
     depth := JS.Math_max_list zs - JS.Math_min_list zs |}.

Definition landmark_types : list string :=
  ["parede"; "canto"; "objeto"; "superfície"; "estrutura"]%string.

(** [types[i]], printed as the template literal prints it. *)
Definition type_at (i : float) : string :=
  match JS.to_index i with
  | Some z => match landmark_types !! Z.to_nat z with Some s => s | None => "undefined" end
  | None => "undefined"
  end.

Definition classifyLandmark (env : Env) (cluster : list MapPoint3D.t) (w : World)
    : string * World :=
  let bounds := calculateBounds cluster in
  let volume := width bounds * height bounds * depth bounds in
  if (height bounds <? width bounds) && (depth bounds <? width bounds) then ("parede"%string, w)
  else if volume <? 0.01 then ("superfície"%string, w)
  else
    let '(r, w) := draw_random env w in
    (type_at (JS.Math_floor (r * JS.of_nat (length landmark_types))), w).

Definition generateLandmarkDescription (env : Env) (type : string) (cluster : list MapPoint3D.t)
    : string :=
  let size := length cluster in
  let bounds := calculateBounds cluster in
  (type ++ " detectado com " ++ show_num env (JS.of_nat size)
   ++ " pontos, dimensões aproximadas: " ++ toFixed2 env (width bounds) ++ "m x "
   ++ toFixed2 env (height bounds) ++ "m x " ++ toFixed2 env (depth bounds) ++ "m")%string.

Definition calculateAverageColor (points : list MapPoint3D.t) : Vec3 :=
  let '(s0, s1, s2) :=
    fold_left
      (fun '(a0, a1, a2) point =>
         let '(c0, c1, c2) := MapPoint3D.color point in
         (a0 + c0, a1 + c1, a2 + c2))
      points (0, 0, 0) in
  let n := JS.of_nat (length points) in
  (s0 / n, s1 / n, s2 / n).

Definition extractLandmarkFeatures (cluster : list MapPoint3D.t) : list float :=
  let bounds := calculateBounds cluster in
  let '(c0, c1, c2) := calculateCentroid cluster in
  let '(a0, a1, a2) := calculateAverageColor cluster in
  [width bounds; height bounds; depth bounds; c0; c1; c2;
   JS.of_nat (length cluster); a0 / 255; a1 / 255; a2 / 255].

(** The body of the loop of [detectLandmarks] over the clusters. *)
Definition considerCluster (env : Env) (landmarks : list Landmark.t)
    (cluster : list MapPoint3D.t) (w : World) : list Landmark.t * World :=
  if (length cluster <? 10)%nat then (landmarks, w)
  else
    let centeroid := calculateCentroid cluster in
    let '(landmarkType, w) := classifyLandmark env cluster w in
    match List.find
            (fun landmark => euclideanDistance env (Landmark.position landmark) centeroid <? 0.2)
            landmarks with
    | Some _ => (landmarks, w)
    | None =>
        let '(now, w) := read_clock env w in
        let '(r, w) := draw_random env w in
        let '(c, w) := draw_random env w in
        (landmarks
         ++ [{| Landmark.id := ("landmark_" ++ show_num env now ++ "_" ++ toString36 env r)%string;
                Landmark.position := centeroid;
                Landmark.type := landmarkType;
                Landmark.confidence := 0.7 + c * 0.3;
                Landmark.description := generateLandmarkDescription env landmarkType cluster;
                Landmark.features := extractLandmarkFeatures cluster |}], w)
    end.

Definition by_confidence_desc (a b : Landmark.t) : float :=
  Landmark.confidence b - Landmark.confidence a.

Definition detectLandmarks (env : Env) (points : list MapPoint3D.t) (this : t) (w : World)
    : t * World :=
  let clusters := clusterPoints env points in
  let '(found, w) :=
    fold_left (fun '(landmarks, w) cluster => considerCluster env landmarks cluster w)
      clusters (landmarks this, w) in
  ({| mapPoints := mapPoints this;
      landmarks := firstn 50 (JS.sort by_confidence_desc found);
      trajectory := trajectory this;
      lastPosition := lastPosition this |}, w).

(** *** Map maintenance *)

Definition maxAge : float := 30000.
Definition maxPoints : nat := 10000.

Definition fresh_and_confident (now : float) (point : MapPoint3D.t) : bool :=
  (now - MapPoint3D.timestamp point <? maxAge) && (0.3 <? MapPoint3D.confidence point).

Definition point_by_confidence_desc (a b : MapPoint3D.t) : float :=
  MapPoint3D.confidence b - MapPoint3D.confidence a.

(** What [optimizeMap] leaves of the points when the clock reads [now]. *)
Definition pruned (now : float) (points : list MapPoint3D.t) : list MapPoint3D.t :=
  let kept := List.filter (fresh_and_confident now) points in
  if (maxPoints <? length kept)%nat
  then firstn maxPoints (JS.sort point_by_confidence_desc kept)
  else kept.

Definition optimizeMap (env : Env) (this : t) (w : World) : t * World :=
  let '(now, w) := read_clock env w in
  ({| mapPoints := pruned now (mapPoints this);
      landmarks := landmarks this;
      trajectory := trajectory this;
      lastPosition := lastPosition this |}, w).

(** *** The emitted snapshot *)

Definition generateBoundaries (this : t) : list SpatialMap.boundary :=
  let '(_, l1, _) := lastPosition this in
  let floorPoints :=
    firstn 100 (List.filter (fun p => MapPoint3D.y p <? l1 - 0.5) (mapPoints this)) in
  if (10 <? length floorPoints)%nat
  then [{| SpatialMap.points :=
             List.map (fun p => (MapPoint3D.x p, MapPoint3D.y p, MapPoint3D.z p)) floorPoints;
           SpatialMap.btype := "floor" |}]
  else [].

Definition getCurrentMap (this : t) : SpatialMap.t :=
  {| SpatialMap.points_of :=
       List.map
         (fun point =>
            {| SpatialMap.x := MapPoint3D.x point; SpatialMap.y := MapPoint3D.y point;
               SpatialMap.z := MapPoint3D.z point; SpatialMap.color := MapPoint3D.color point |})
         (mapPoints this);
     SpatialMap.landmarks :=
       List.map
         (fun landmark =>
            {| SpatialMap.id := Landmark.id landmark;
               SpatialMap.position := Landmark.position landmark;
               SpatialMap.type := Landmark.type landmark;
               SpatialMap.confidence := Landmark.confidence landmark |})
         (landmarks this);
     SpatialMap.boundaries := generateBoundaries this |}.

Definition getTrajectory (this : t) : Trajectory.t := trajectory this.

(** *** The per-frame entry point *)

Definition processFrame (env : Env) (imageData : ImageData.t) (depthPoints : list DepthPoint.t)
    (motionVector : option Vec3) (this : t) (w : World) : SpatialMap.t * t * World :=
  let '(cameraMovement, w) := estimateCameraMovement env motionVector w in
  let '(this, w) := updateTrajectory env cameraMovement this w in
  let '(new3DPoints, w) := convertDepthTo3D env depthPoints imageData this w in
  let this :=
    {| mapPoints := addPointsToMap env new3DPoints (mapPoints this);
       landmarks := landmarks this;
       trajectory := trajectory this;
       lastPosition := lastPosition this |} in
  let '(this, w) := detectLandmarks env new3DPoints this w in
  let '(this, w) := optimizeMap env this w in
  (getCurrentMap this, this, w).

(** The sample [updateTrajectory] appends. *)
Definition pushed_sample (env : Env) (movement : Vec3) (this : t) (w : World)
    : Trajectory.sample :=
  let '(m0, m1, m2) := movement in
  let '(l0, l1, l2) := lastPosition this in
  {| Trajectory.position := (l0 + m0, l1 + m1, l2 + m2)%float;
     Trajectory.timestamp := Date_now env (clock_reads w);
     Trajectory.confidence := (0.8 + Math_random env (random_draws w) * 0.2)%float |}.

(** The states the engine can be in: fresh, or after any number of
    [processFrame] and [resetMap] calls (its fields are private). *)
Inductive reachable (env : Env) : t -> Prop :=
| reachable_new : reachable env initial
| reachable_processFrame imageData depthPoints motionVector this w :
    reachable env this ->
    reachable env (snd (fst (processFrame env imageData depthPoints motionVector this w)))
| reachable_resetMap this :
    reachable env this -> reachable env (resetMap this).

End SLAMProcessor.

(** *** Notions used to state the properties of the insertion step *)

Module MapFacts.

(** [existing] lies within the 0.05 tolerance of [point], as [addPointsToMap]
    tests it. *)
Definition near (env : Env) (point existing : MapPoint3D.t) : bool :=
  (SLAMProcessor.euclideanDistance3D env point existing <? 0.05)%float.

(** No two distinct entries of the map lie within 0.05 of each other. *)
Definition separated (env : Env) (mapPoints : list MapPoint3D.t) : Prop :=
  forall i j a b, i <> j -> mapPoints !! i = Some a -> mapPoints !! j = Some b ->
                  near env a b = false.

(** The confidence of the point is a number, not NaN. *)
Definition rated (p : MapPoint3D.t) : Prop := is_nan (MapPoint3D.confidence p) = false.

Definition finite_point (p : MapPoint3D.t) : Prop :=
  is_finite (MapPoint3D.x p) = true /\ is_finite (MapPoint3D.y p) = true
  /\ is_finite (MapPoint3D.z p) = true.

(** The three outcomes of inserting one point. *)
Inductive outcome (env : Env) (mapPoints : list MapPoint3D.t) (point : MapPoint3D.t)
    : list MapPoint3D.t -> Prop :=
| appended :
    (forall q, q ∈ mapPoints -> near env point q = false) ->
    outcome env mapPoints point (mapPoints ++ [point])
| rejected i best :
    mapPoints !! i = Some best -> near env point best = true ->
    (MapPoint3D.confidence best <? MapPoint3D.confidence point)%float = false ->
    outcome env mapPoints point mapPoints
| replaced i best :
    mapPoints !! i = Some best -> near env point best = true ->
    (MapPoint3D.confidence best <? MapPoint3D.confidence point)%float = true ->
    outcome env mapPoints point (<[i := point]> mapPoints).

(** [best], the entry [i] of the map, is the neighbour of [point] that
    [nearbyPoints.reduce] retains: every neighbour further down the map is
    less confident than it and, when the confidences of the neighbours are
    numbers, no neighbour is more confident than it (it is the last of the
    most confident neighbours). *)
Definition retained (env : Env) (mapPoints : list MapPoint3D.t) (point : MapPoint3D.t)
    (i : nat) (best : MapPoint3D.t) : Prop :=
  mapPoints !! i = Some best /\ near env point best = true
  /\ (forall j q, (i < j)%nat -> mapPoints !! j = Some q -> near env point q = true ->
         (MapPoint3D.confidence q <? MapPoint3D.confidence best)%float = true)
  /\ ((forall q, q ∈ mapPoints -> near env point q = true -> rated q) ->
      forall q, q ∈ mapPoints -> near env point q = true ->
        (MapPoint3D.confidence best <? MapPoint3D.confidence q)%float = false).

(** At most one entry of the map lies within 0.05 of [point]. *)
Definition at_most_one_neighbour (env : Env) (mapPoints : list MapPoint3D.t)
    (point : MapPoint3D.t) : Prop :=
  forall j k q r, j <> k -> mapPoints !! j = Some q -> mapPoints !! k = Some r ->
                  near env point q = true -> near env point r = false.

End MapFacts.

(** ** [3d-analysis.ts], [ImageProcessor]: the frame enhancer *)

Module NightVisionEnhancement.
(** [Partial<NightVisionEnhancement>]: every field may be absent. *)
Record partial := {
  brightness : option float;
  contrast : option float;
  gamma : option float;
  noiseReduction : option float;
  edgeEnhancement : option float
}.
Record t := {
  brightness_of : float;
  contrast_of : float;
  gamma_of : float;
  noiseReduction_of : float;
  edgeEnhancement_of : float
}.
End NightVisionEnhancement.

Module ImageProcessor.
Local Open Scope float_scope.

(** [data[i]] read as a Number; a missing cell reads [undefined], which the
    arithmetic turns into NaN. *)
Definition cell (data : list byte) (i : nat) : float :=
  match data !! i with
  | Some b => JS.of_byte b
  | None => nan
  end.

(** [data[i] = v] on a [Uint8ClampedArray]; a store past the end is ignored. *)
Definition store (data : list byte) (i : nat) (v : float) : list byte :=
  <[i := JS.ToUint8Clamp v]> data.

(** The values [i] takes in [for (let i = 0; i < n; i += 4)]. *)
Definition pixel_offsets (n : nat) : list nat :=
  List.map (fun k => 4 * k)%nat (seq 0 ((n + 3) / 4)).

(** The values [y] takes in [for (let y = 1; y < height - 1; y++)]. *)
Definition inner (size : nat) : list nat := seq 1 (size - 2).

(** [ky + 1] and [kx + 1] for [ky], [kx] from -1 to 1; the channels 0 to 2. *)
Definition taps : list nat := [0; 1; 2]%nat.
Definition channels : list nat := [0; 1; 2]%nat.

Definition weight (kernel : list (list float)) (i j : nat) : float :=
  match kernel !! i with
  | Some row => match row !! j with Some v => v | None => nan end
  | None => nan
  end.

(** A loop that rewrites the red, green and blue cells of every pixel with
    the same function of the cell. *)
Definition map_channels (f : float -> float) (data : list byte) : list byte :=
  fold_left
    (fun data i =>
       let data := store data i (f (cell data i)) in
       let data := store data (i + 1) (f (cell data (i + 1))) in
       store data (i + 2) (f (cell data (i + 2))))
    (pixel_offsets (length data)) data.

Definition adjustBrightness (imageData : ImageData.t) (factor : float) : ImageData.t :=
  {| ImageData.data :=
       map_channels (fun v => JS.Math_min 255 (v * factor)) (ImageData.data imageData);
     ImageData.width := ImageData.width imageData;
     ImageData.height := ImageData.height imageData |}.

Definition adjustContrast (imageData : ImageData.t) (factor : float) : ImageData.t :=
  let contrast := (factor - 1) * 255 in
  let factorContrast := (259 * (contrast + 255)) / (255 * (259 - contrast)) in
  {| ImageData.data :=
       map_channels
         (fun v => JS.Math_max 0 (JS.Math_min 255 (factorContrast * (v - 128) + 128)))
         (ImageData.data imageData);
     ImageData.width := ImageData.width imageData;
     ImageData.height := ImageData.height imageData |}.

Definition adjustGamma (env : Env) (imageData : ImageData.t) (gamma : float) : ImageData.t :=
  let gammaCorrection := 1 / gamma in
  {| ImageData.data :=
       map_channels
         (fun v => JS.Math_min 255 (255 * JS.Math_pow (pow_approx env) (v / 255) gammaCorrection))
         (ImageData.data imageData);
     ImageData.width := ImageData.width imageData;
     ImageData.height := ImageData.height imageData |}.

Definition kernel : list (list float) := [[1; 2; 1]; [2; 4; 2]; [1; 2; 1]].
Definition kernelWeight : float := 16.

(** The inner two loops of [denoiseImage]: the weighted sum over the 3 x 3
    neighbourhood of pixel [(x, y)], channel [c]. *)
Definition kernel_sum (data : list byte) (width y x c : nat) : float :=
  fold_left
    (fun sum ky =>
       fold_left
         (fun sum kx =>
            let idx := (((y + ky - 1) * width + (x + kx - 1)) * 4 + c)%nat in
            sum + cell data idx * weight kernel ky kx)
         taps sum)
    taps 0.

Definition denoiseImage (imageData : ImageData.t) (strength : float) : ImageData.t :=
  let width := ImageData.width imageData in
  let height := ImageData.height imageData in
  let data := ImageData.data imageData in
  let output :=
    fold_left
      (fun output y =>
         fold_left
           (fun output x =>
              fold_left
                (fun output c =>
                   let sum := kernel_sum data width y x c in
                   let originalIdx := ((y * width + x) * 4 + c)%nat in
                   let filtered := sum / kernelWeight in
                   store output originalIdx
                     (cell data originalIdx * (1 - strength) + filtered * strength))
                channels output)
           (inner width) output)
      (inner height) data in
  {| ImageData.data := output; ImageData.width := width; ImageData.height := height |}.

Definition sobelX : list (list float) := [[-1; 0; 1]; [-2; 0; 2]; [-1; 0; 1]].
Definition sobelY : list (list float) := [[-1; -2; -1]; [0; 0; 0]; [1; 2; 1]].

Definition luminance (data : list byte) (idx : nat) : float :=
  0.299 * cell data idx + 0.587 * cell data (idx + 1) + 0.114 * cell data (idx + 2).

(** The inner two loops of [enhanceEdges]: the pair [(gx, gy)]. *)
Definition gradient (data : list byte) (width y x : nat) : float * float :=
  fold_left
    (fun g ky =>
       fold_left
         (fun '(gx, gy) kx =>
            let idx := (((y + ky - 1) * width + (x + kx - 1)) * 4)%nat in
            let luminance := luminance data idx in
            (gx + luminance * weight sobelX ky kx, gy + luminance * weight sobelY ky kx))
         taps g)
    taps (0, 0).

Definition enhanceEdges (imageData : ImageData.t) (strength : float) : ImageData.t :=
  let width := ImageData.width imageData in
  let height := ImageData.height imageData in
  let data := ImageData.data imageData in
  let output :=
    fold_left
      (fun output y =>
         fold_left
           (fun output x =>
              let '(gx, gy) := gradient data width y x in
              let magnitude := sqrt (gx * gx + gy * gy) in
              let originalIdx := ((y * width + x) * 4)%nat in
              fold_left
                (fun output c =>
                   let enhanced :=
                     JS.Math_min 255 (cell data (originalIdx + c) + magnitude * strength) in
                   store output (originalIdx + c) enhanced)
                channels output)
           (inner width) output)
      (inner height) data in
  {| ImageData.data := output; ImageData.width := width; ImageData.height := height |}.

(** The false-colour triple of one pixel. *)
Definition thermal (r g b : float) : float * float * float :=
  let gray := 0.299 * r + 0.587 * g + 0.114 * b in
  let normalized := gray / 255 in
  if normalized <? 0.25 then
    (0, JS.Math_floor (normalized * 4 * 100), JS.Math_floor (255 - normalized * 4 * 100))
  else if normalized <? 0.5 then
    (0, JS.Math_floor (255 - (normalized - 0.25) * 4 * 155),
     JS.Math_floor ((normalized - 0.25) * 4 * 255))
  else if normalized <? 0.75 then
    (JS.Math_floor ((normalized - 0.5) * 4 * 255), 255, 0)
  else
    (255, JS.Math_floor (255 - (normalized - 0.75) * 4 * 255), 0).

Definition applyThermalEffect (imageData : ImageData.t) : ImageData.t :=
  let data :=
    fold_left
      (fun data i =>
         let '(r, g, b) := thermal (cell data i) (cell data (i + 1)) (cell data (i + 2)) in
         let data := store data i r in
         let data := store data (i + 1) g in
         store data (i + 2) b)
      (pixel_offsets (length (ImageData.data imageData))) (ImageData.data imageData) in
  {| ImageData.data := data;
     ImageData.width := ImageData.width imageData;
     ImageData.height := ImageData.height imageData |}.

End ImageProcessor.

Module Enhancer.
Local Open Scope float_scope.

Definition defaultSettings : NightVisionEnhancement.t :=
  {| NightVisionEnhancement.brightness_of := 1.5;
     NightVisionEnhancement.contrast_of := 1.3;
     NightVisionEnhancement.gamma_of := 0.7;
     NightVisionEnhancement.noiseReduction_of := 0.8;
     NightVisionEnhancement.edgeEnhancement_of := 0.4 |}.

(** [{ ...defaultSettings, ...settings }] *)
Definition merge (settings : NightVisionEnhancement.partial) : NightVisionEnhancement.t :=
  {| NightVisionEnhancement.brightness_of :=
       default (NightVisionEnhancement.brightness_of defaultSettings)
         (NightVisionEnhancement.brightness settings);
     NightVisionEnhancement.contrast_of :=
       default (NightVisionEnhancement.contrast_of defaultSettings)
         (NightVisionEnhancement.contrast settings);
     NightVisionEnhancement.gamma_of :=
       default (NightVisionEnhancement.gamma_of defaultSettings)
         (NightVisionEnhancement.gamma settings);
     NightVisionEnhancement.noiseReduction_of :=
       default (NightVisionEnhancement.noiseReduction_of defaultSettings)
         (NightVisionEnhancement.noiseReduction settings);
     NightVisionEnhancement.edgeEnhancement_of :=
       default (NightVisionEnhancement.edgeEnhancement_of defaultSettings)
         (NightVisionEnhancement.edgeEnhancement settings) |}.

(** [Analysis3D.enhanceNightVision] *)
Definition enhanceNightVision (env : Env) (imageData : ImageData.t)
    (settings : NightVisionEnhancement.partial) : ImageData.t :=
  let config := merge settings in
  let enhanced :=
    {| ImageData.data := ImageData.data imageData;
       ImageData.width := ImageData.width imageData;
       ImageData.height := ImageData.height imageData |} in
  let enhanced :=
    ImageProcessor.adjustBrightness enhanced (NightVisionEnhancement.brightness_of config) in
  let enhanced :=
    ImageProcessor.adjustContrast enhanced (NightVisionEnhancement.contrast_of config) in
  let enhanced :=
    ImageProcessor.adjustGamma env enhanced (NightVisionEnhancement.gamma_of config) in
  let enhanced :=
    ImageProcessor.denoiseImage enhanced (NightVisionEnhancement.noiseReduction_of config) in
  let enhanced :=
    ImageProcessor.enhanceEdges enhanced (NightVisionEnhancement.edgeEnhancement_of config) in
  ImageProcessor.applyThermalEffect enhanced.

(** The settings at which every adjustable stage should do nothing. *)
Definition neutral : NightVisionEnhancement.partial :=
  {| NightVisionEnhancement.brightness := Some 1;
     NightVisionEnhancement.contrast := Some 1;
     NightVisionEnhancement.gamma := Some 1;
     NightVisionEnhancement.noiseReduction := Some 0;
     NightVisionEnhancement.edgeEnhancement := Some 0 |}.

(** The cell [i] holds an alpha value. *)
Definition is_alpha (i : nat) : Prop := (i mod 4 = 3)%nat.

End Enhancer.

Module FrameFacts.

(** [after] has the size of [before] and the same alpha cells. *)
Definition same_alpha (before after : list byte) : Prop :=
  length after = length before /\
  forall i, Enhancer.is_alpha i -> after !! i = before !! i.

End FrameFacts.

(** ** [use-mapping.ts]: the export operation of the mapping hook *)

Module UseMapping.
Local Open Scope float_scope.

Record statistics := {
  totalPoints : nat;
  totalLandmarks : nat;
  mappedArea : float;
  processingTime : float;
  accuracy : float
}.

(** [MappingState], the hook's React state. *)
Record MappingState := {
  isActive : bool;
  isProcessing : bool;
  currentMap : SpatialMap.t;
  trajectory : Trajectory.t;
  landmarks : list Landmark.t;
  mapPoints : list MapPoint3D.t;
  statistics_of : statistics;
  error : option string
}.

(** [performanceRef.current] *)
Record performance := {
  frameCount : nat;
  totalProcessingTime : float;
  startTime : float
}.

Record sessionInfo := {
  duration : float;
  session_frameCount : nat;
  avgProcessingTime : float
}.

Record exported_map := {
  points : list SpatialMap.point;
  map_landmarks : list SpatialMap.landmark;
  boundaries : list SpatialMap.boundary
}.

(** [{ ...state.trajectory, totalTime, averageSpeed }] *)
Record exported_trajectory := {
  trajectory_points : list Trajectory.sample;
  totalDistance : float;
  totalTime : float;
  averageSpeed : float
}.

Record metadata := {
  version : string;
  format : string;
  coordinateSystem : string
}.

Record exported := {
  timestamp : string;
  session : sessionInfo;
  map : exported_map;
  exported_trajectory_of : exported_trajectory;
  exported_statistics : statistics;
  metadata_of : metadata
}.

Definition exportMap (env : Env) (state : MappingState) (perf : performance) (w : World)
    : exported * World :=
  let sessionDuration := performance_now env (clock_reads w) - startTime perf in
  let w := {| clock_reads := S (clock_reads w); random_draws := random_draws w |} in
  let '(now, w) := read_clock env w in
  ({| timestamp := toISOString env now;
      session :=
        {| duration := JS.Math_round sessionDuration;
           session_frameCount := frameCount perf;
           avgProcessingTime :=
             if (0 <? frameCount perf)%nat
             then JS.Math_round (totalProcessingTime perf / JS.of_nat (frameCount perf))
             else 0 |};
      map :=
        {| points := SpatialMap.points_of (currentMap state);
           map_landmarks := SpatialMap.landmarks (currentMap state);
           boundaries := SpatialMap.boundaries (currentMap state) |};
      exported_trajectory_of :=
        {| trajectory_points := Trajectory.points (trajectory state);
           totalDistance := Trajectory.totalDistance (trajectory state);
           totalTime := sessionDuration / 1000;
           averageSpeed := Trajectory.totalDistance (trajectory state) / (sessionDuration / 1000) |};
      exported_statistics := statistics_of state;
      metadata_of :=
        {| version := "1.0"; format := "SLAM_JSON"; coordinateSystem := "camera_relative" |} |},
   w).

End UseMapping.

(** ** Notions used to state the range of a score *)

Section ScoreFacts.

(** A result whose sign bit is clear, or NaN: it is never below zero. *)
Definition sf_notneg (x : spec_float) : Prop :=
  match x with
  | S754_nan => True
  | S754_zero s | S754_infinity s | S754_finite s _ _ => s = false
  end.

Definition notneg (x : float) : Prop := sf_notneg (Prim2SF x).

End ScoreFacts.

(** ** The React hooks

    A hook is modelled by its state, the contents of its refs and its
    operations; [performance.now()] advances the clock counter of the world
    as [Date.now()] does. *)

Definition tick (w : World) : World :=
  {| clock_reads := S (clock_reads w); random_draws := random_draws w |}.

(** [Array.prototype.map] with a callback that reads the clock or draws
    random numbers. *)
Fixpoint map_world {A B : Type} (f : A -> World -> B * World) (l : list A) (w : World)
    : list B * World :=
  match l with
  | [] => ([], w)
  | a :: rest =>
      let '(b, w) := f a w in
      let '(bs, w) := map_world f rest w in
      (b :: bs, w)
  end.

(** ** [use-ai-detection.ts]: the detection hook *)

Module UseAIDetection.
Local Open Scope float_scope.

(** [maxObjects] is only used as the end of a [slice]; it is kept as the
    count of entries the slice lets through. *)
Record AIDetectionOptions := {
  confidenceThreshold : float;
  maxObjects : nat;
  processingInterval : float;
  enableTracking : bool
}.

Definition defaultOptions : AIDetectionOptions :=
  {| confidenceThreshold := 0.5; maxObjects := 20; processingInterval := 100;
     enableTracking := true |}.

Record performance := { fps : float; processingTime : float; totalObjectsDetected : nat }.

Record confidence := { min : float; average : float; max : float }.

(** [AIDetectionState], the hook's React state. *)
Record AIDetectionState := {
  isProcessing : bool;
  isEnabled : bool;
  objects : list DetectedObject.t;
  performance_of : performance;
  error : option string;
  confidence_of : confidence
}.

(** [performanceRef.current] *)
Record performanceRef := {
  lastFrameTime : float;
  frameCount : nat;
  totalProcessingTime : float;
  fpsHistory : list float
}.

(** What the awaited call of the detector comes to: the objects it resolves
    to, or the value it throws ([Some] message for an [Error]). *)
Inductive outcome :=
| resolved (detectedObjects : list DetectedObject.t)
| thrown (message : option string).

Definition calculatePerformanceMetrics (env : Env) (state : AIDetectionState)
    (processingTime : float) (ref : performanceRef) (w : World)
    : performance * performanceRef * World :=
  let now := performance_now env (clock_reads w) in
  let w := tick w in
  let deltaTime := now - lastFrameTime ref in
  if 0 <? deltaTime then
    let fps := 1000 / deltaTime in
    let history := fpsHistory ref ++ [fps] in
    let history := if (30 <? length history)%nat then List.tl history else history in
    let avgFps := fold_left add history 0 / JS.of_nat (length history) in
    ({| fps := JS.Math_round avgFps;
        processingTime := JS.Math_round processingTime;
        totalObjectsDetected := S (frameCount ref) |},
     {| lastFrameTime := now;
        frameCount := S (frameCount ref);
        totalProcessingTime := totalProcessingTime ref + processingTime;
        fpsHistory := history |}, w)
  else (performance_of state, ref, w).

Definition calculateConfidenceStats (objects : list DetectedObject.t) : confidence :=
  if (length objects =? 0)%nat then {| min := 0; average := 0; max := 0 |}
  else
    let confidences := List.map DetectedObject.confidence objects in
    let min := JS.Math_min_list confidences in
    let max := JS.Math_max_list confidences in
    let average := fold_left add confidences 0 / JS.of_nat (length confidences) in
    {| min := JS.Math_round (min * 100) / 100;
       average := JS.Math_round (average * 100) / 100;
       max := JS.Math_round (max * 100) / 100 |}.

(** [detectedObjects.filter(...).slice(0, config.maxObjects)] *)
Definition filteredObjects (config : AIDetectionOptions)
    (detectedObjects : list DetectedObject.t) : list DetectedObject.t :=
  firstn (maxObjects config)
    (List.filter (fun obj => confidenceThreshold config <=? DetectedObject.confidence obj)
       detectedObjects).

(** [processFrame]: [aiProcessor] is [aiProcessorRef.current], with the
    awaited [detectObjects] call as a function of the world it runs in. *)
Definition processFrame (env : Env) (config : AIDetectionOptions)
    (aiProcessor : option (World -> outcome * World))
    (state : AIDetectionState) (ref : performanceRef) (w : World)
    : list DetectedObject.t * AIDetectionState * performanceRef * World :=
  match aiProcessor with
  | None => ([], state, ref, w)
  | Some detectObjects =>
      let startTime := performance_now env (clock_reads w) in
      let w := tick w in
      match detectObjects w with
      | (resolved detectedObjects, w) =>
          let trackedObjects :=
            Tracker.trackObjects env (enableTracking config)
              (filteredObjects config detectedObjects) (objects state) in
          let processingTime := performance_now env (clock_reads w) - startTime in
          let w := tick w in
          let '(performanceMetrics, ref, w) :=
            calculatePerformanceMetrics env state processingTime ref w in
          (trackedObjects,
           {| isProcessing := false;
              isEnabled := isEnabled state;
              objects := trackedObjects;
              performance_of := performanceMetrics;
              error := None;
              confidence_of := calculateConfidenceStats trackedObjects |}, ref, w)
      | (thrown message, w) =>
          ([],
           {| isProcessing := false;
              isEnabled := isEnabled state;
              objects := objects state;
              performance_of := performance_of state;
              error := Some (default "Erro no processamento de IA"%string message);
              confidence_of := confidence_of state |}, ref, w)
      end
  end.

Definition startDetection (env : Env) (state : AIDetectionState) (ref : performanceRef)
    (w : World) : AIDetectionState * performanceRef * World :=
  if negb (isEnabled state) then
    ({| isProcessing := isProcessing state;
        isEnabled := true;
        objects := objects state;
        performance_of := performance_of state;
        error := None;
        confidence_of := confidence_of state |},
     {| lastFrameTime := performance_now env (clock_reads w);
        frameCount := 0;
        totalProcessingTime := 0;
        fpsHistory := [] |}, tick w)
  else (state, ref, w).

Definition stopDetection (state : AIDetectionState) : AIDetectionState :=
  {| isProcessing := false;
     isEnabled := false;
     objects := objects state;
     performance_of := performance_of state;
     error := error state;
     confidence_of := confidence_of state |}.

(** [setConfidenceThreshold] writes the clamped threshold into [config] and
    filters the objects of the state with it. *)
Definition setConfidenceThreshold (config : AIDetectionOptions) (state : AIDetectionState)
    (threshold : float) : AIDetectionOptions * AIDetectionState :=
  let config :=
    {| confidenceThreshold := JS.Math_max 0 (JS.Math_min 1 threshold);
       maxObjects := maxObjects config;
       processingInterval := processingInterval config;
       enableTracking := enableTracking config |} in
  (config,
   {| isProcessing := isProcessing state;
      isEnabled := isEnabled state;
      objects :=
        List.filter (fun obj => confidenceThreshold config <=? DetectedObject.confidence obj)
          (objects state);
      performance_of := performance_of state;
      error := error state;
      confidence_of := confidence_of state |}).

Definition clearObjects (state : AIDetectionState) : AIDetectionState :=
  {| isProcessing := isProcessing state;
     isEnabled := isEnabled state;
     objects := [];
     performance_of := performance_of state;
     error := error state;
     confidence_of := {| min := 0; average := 0; max := 0 |} |}.

(** [state.objects.find(obj => obj.id === id) || null] *)
Definition getObjectById (state : AIDetectionState) (id : string) : option DetectedObject.t :=
  List.find (fun obj => String.eqb (DetectedObject.id obj) id) (objects state).

(** The state [useState] starts from, and the initial [performanceRef]. *)
Definition initialState : AIDetectionState :=
  {| isProcessing := false;
     isEnabled := false;
     objects := [];
     performance_of := {| fps := 0; processingTime := 0; totalObjectsDetected := 0 |};
     error := None;
     confidence_of := {| min := 0; average := 0; max := 0 |} |}.

Definition initialRef : performanceRef :=
  {| lastFrameTime := 0; frameCount := 0; totalProcessingTime := 0; fpsHistory := [] |}.

End UseAIDetection.

(** ** [3d-analysis.ts], [Analysis3D]: depth estimation and mesh reconstruction

    The width and the height of a frame are integers below 2^32, on which
    [Math.floor(width / 10)] is the integer quotient. *)

Module DepthEstimator.
Local Open Scope float_scope.

(** The values [x] takes in [for (let x = 0; x < n; x += step)]. *)
Definition strided (step n : nat) : list nat :=
  List.map (fun k => step * k)%nat (seq 0 ((n + step - 1) / step)).

Definition radius : nat := 5.

(** [dy + radius] for [dy] from [-radius] to [radius]. *)
Definition window : list nat := seq 0 (2 * radius + 1).

Definition calculateLocalContrast (data : list byte) (x y width height : nat) : float :=
  let '(sum, count) :=
    fold_left
      (fun acc dy =>
         fold_left
           (fun '(sum, count) dx =>
              (* nx = x + dx - radius, ny = y + dy - radius *)
              if (radius <=? x + dx)%nat && (x + dx - radius <? width)%nat
                 && (radius <=? y + dy)%nat && (y + dy - radius <? height)%nat
              then
                let idx := (((y + dy - radius) * width + (x + dx - radius)) * 4)%nat in
                let luminance := ImageProcessor.luminance data idx / 255 in
                (sum + luminance, S count)
              else (sum, count))
           window acc)
      window (0, 0%nat) in
  let avgLuminance := sum / JS.of_nat count in
  let centerIdx := ((y * width + x) * 4)%nat in
  let centerLuminance := ImageProcessor.luminance data centerIdx / 255 in
  abs (centerLuminance - avgLuminance).

(** The body of the two loops of [estimateDepth]. *)
Definition samplePoint (env : Env) (imageData : ImageData.t) (y x : nat) (w : World)
    : DepthPoint.t * World :=
  let data := ImageData.data imageData in
  let width := ImageData.width imageData in
  let height := ImageData.height imageData in
  let idx := ((y * width + x) * 4)%nat in
  let r := ImageProcessor.cell data idx in
  let g := ImageProcessor.cell data (idx + 1) in
  let b := ImageProcessor.cell data (idx + 2) in
  let luminance := (0.299 * r + 0.587 * g + 0.114 * b) / 255 in
  let localContrast := calculateLocalContrast data x y width height in
  let '(r1, w) := draw_random env w in
  let depth := JS.Math_min 1 (luminance * 0.7 + localContrast * 0.3 + r1 * 0.1) in
  let '(r2, w) := draw_random env w in
  ({| DepthPoint.x := JS.of_nat x;
      DepthPoint.y := JS.of_nat y;
      DepthPoint.depth := depth;
      DepthPoint.confidence := 0.6 + r2 * 0.4 |}, w).

Definition step : nat := 20.

Definition estimateDepth (env : Env) (imageData : ImageData.t) (w : World)
    : list DepthPoint.t * World :=
  fold_left
    (fun acc y =>
       fold_left
         (fun '(depthPoints, w) x =>
            let '(p, w) := samplePoint env imageData y x w in
            (depthPoints ++ [p], w))
         (strided step (ImageData.width imageData)) acc)
    (strided step (ImageData.height imageData)) ([], w).

End DepthEstimator.

Module Point3D.
Record t := { x : float; y : float; z : float }.
End Point3D.

Module Mesh3D.
Record uv := { u : float; v : float }.
Record t := {
  vertices : list Point3D.t;
  faces : list (list nat);
  normals : list Point3D.t;
  textureCoords : list uv
}.
End Mesh3D.

Module MeshBuilder.
Local Open Scope float_scope.

(** [grid[y][x]], a sparse array of sparse rows, is a finite map from
    [(y, x)]. *)
Definition organizePointsInGrid (depthPoints : list DepthPoint.t) (width height : nat)
    : gmap (nat * nat) DepthPoint.t :=
  fold_left
    (fun (grid : gmap (nat * nat) DepthPoint.t) point =>
       let x := JS.Math_floor (DepthPoint.x point) in
       let y := JS.Math_floor (DepthPoint.y point) in
       if (0 <=? y) && (y <? JS.of_nat height) && (0 <=? x) && (x <? JS.of_nat width) then
         match JS.to_index y, JS.to_index x with
         | Some zy, Some zx => <[(Z.to_nat zy, Z.to_nat zx) := point]> grid
         | _, _ => grid
         end
       else grid)
    depthPoints ∅.

Definition convertTo3D (x y : nat) (depth : float) (width height : nat) : Point3D.t :=
  let focalLength := JS.of_nat width * 0.5 in
  let principalPointX := JS.of_nat width * 0.5 in
  let principalPointY := JS.of_nat height * 0.5 in
  let z := depth * 10 in
  let realX := (JS.of_nat x - principalPointX) * z / focalLength in
  let realY := (principalPointY - JS.of_nat y) * z / focalLength in
  {| Point3D.x := realX; Point3D.y := realY; Point3D.z := z |}.

Definition calculateFaceNormal (env : Env) (v1 v2 v3 : Point3D.t) : Point3D.t :=
  let ux := Point3D.x v2 - Point3D.x v1 in
  let uy := Point3D.y v2 - Point3D.y v1 in
  let uz := Point3D.z v2 - Point3D.z v1 in
  let vx := Point3D.x v3 - Point3D.x v1 in
  let vy := Point3D.y v3 - Point3D.y v1 in
  let vz := Point3D.z v3 - Point3D.z v1 in
  let nx := uy * vz - uz * vy in
  let ny := uz * vx - ux * vz in
  let nz := ux * vy - uy * vx in
  let length :=
    sqrt (JS.Math_pow (pow_approx env) nx 2 + JS.Math_pow (pow_approx env) ny 2
          + JS.Math_pow (pow_approx env) nz 2) in
  {| Point3D.x := nx / length; Point3D.y := ny / length; Point3D.z := nz / length |}.

(** The first pair of loops: the vertices and their texture coordinates. *)
Definition collectVertices (depthGrid : gmap (nat * nat) DepthPoint.t) (width height : nat)
    : list Point3D.t * list Mesh3D.uv :=
  fold_left
    (fun acc y =>
       fold_left
         (fun '(vertices, textureCoords) x =>
            match depthGrid !! (y, x) with
            | Some depthPoint =>
                (vertices ++ [convertTo3D x y (DepthPoint.depth depthPoint) width height],
                 textureCoords
                 ++ [{| Mesh3D.u := JS.of_nat x / JS.of_nat width;
                        Mesh3D.v := JS.of_nat y / JS.of_nat height |}])
            | None => (vertices, textureCoords)
            end)
         (DepthEstimator.strided 10 width) acc)
    (DepthEstimator.strided 10 height) ([], []).

(** The second pair of loops: two triangles per grid cell whose four
    corners index existing vertices. *)
Definition collectFaces (vertices : list Point3D.t) (width height : nat) : list (list nat) :=
  let gridWidth := (width / 10)%nat in
  fold_left
    (fun faces y =>
       fold_left
         (fun faces x =>
            let topLeft := (y * gridWidth + x)%nat in
            let topRight := (topLeft + 1)%nat in
            let bottomLeft := ((y + 1) * gridWidth + x)%nat in
            let bottomRight := (bottomLeft + 1)%nat in
            match vertices !! topLeft, vertices !! topRight,
                  vertices !! bottomLeft, vertices !! bottomRight with
            | Some _, Some _, Some _, Some _ =>
                faces ++ [[topLeft; topRight; bottomLeft]; [topRight; bottomRight; bottomLeft]]
            | _, _, _, _ => faces
            end)
         (seq 0 (gridWidth - 1)) faces)
    (seq 0 (height / 10 - 1)) [].

(** The last loop; reading a coordinate of a missing vertex throws, which
    is [None]. *)
Definition faceNormal (env : Env) (vertices : list Point3D.t) (face : list nat)
    : option Point3D.t :=
  match face with
  | i1 :: i2 :: i3 :: _ =>
      match vertices !! i1, vertices !! i2, vertices !! i3 with
      | Some v1, Some v2, Some v3 => Some (calculateFaceNormal env v1 v2 v3)
      | _, _, _ => None
      end
  | _ => None
  end.

Fixpoint collectNormals (env : Env) (vertices : list Point3D.t) (faces : list (list nat))
    : option (list Point3D.t) :=
  match faces with
  | [] => Some []
  | face :: rest =>
      match faceNormal env vertices face, collectNormals env vertices rest with
      | Some n, Some ns => Some (n :: ns)
      | _, _ => None
      end
  end.

Definition reconstructMesh (env : Env) (depthPoints : list DepthPoint.t)
    (imageData : ImageData.t) : option Mesh3D.t :=
  let width := ImageData.width imageData in
  let height := ImageData.height imageData in
  let depthGrid := organizePointsInGrid depthPoints width height in
  let '(vertices, textureCoords) := collectVertices depthGrid width height in
  let faces := collectFaces vertices width height in
  match collectNormals env vertices faces with
  | Some normals =>
      Some {| Mesh3D.vertices := vertices; Mesh3D.faces := faces;
              Mesh3D.normals := normals; Mesh3D.textureCoords := textureCoords |}
  | None => None
  end.

End MeshBuilder.

(** ** [use-mapping.ts]: the mapping hook *)

Module MappingHook.
Local Open Scope float_scope.

(** The hook: its React state and its three refs. *)
Record t := {
  state : UseMapping.MappingState;
  slamProcessorRef : SLAMProcessor.t;
  motionVectorRef : option Vec3;
  performanceRef : UseMapping.performance
}.

Definition emptyMap : SpatialMap.t :=
  {| SpatialMap.points_of := []; SpatialMap.landmarks := []; SpatialMap.boundaries := [] |}.

Definition emptyTrajectory : Trajectory.t :=
  {| Trajectory.points := []; Trajectory.totalDistance := 0; Trajectory.averageSpeed := 0 |}.

Definition zeroStatistics : UseMapping.statistics :=
  {| UseMapping.totalPoints := 0; UseMapping.totalLandmarks := 0; UseMapping.mappedArea := 0;
     UseMapping.processingTime := 0; UseMapping.accuracy := 0 |}.

(** The hook after its first render. *)
Definition initial : t :=
  {| state :=
       {| UseMapping.isActive := false;
          UseMapping.isProcessing := false;
          UseMapping.currentMap := emptyMap;
          UseMapping.trajectory := emptyTrajectory;
          UseMapping.landmarks := [];
          UseMapping.mapPoints := [];
          UseMapping.statistics_of := zeroStatistics;
          UseMapping.error := None |};
     slamProcessorRef := SLAMProcessor.initial;
     motionVectorRef := None;
     performanceRef :=
       {| UseMapping.frameCount := 0; UseMapping.totalProcessingTime := 0;
          UseMapping.startTime := 0 |} |}.

Definition calculateStatistics (map : SpatialMap.t) (processingTime : float)
    : UseMapping.statistics :=
  let totalPoints := length (SpatialMap.points_of map) in
  let totalLandmarks := length (SpatialMap.landmarks map) in
  let xs := List.map SpatialMap.x (SpatialMap.points_of map) in
  let zs := List.map SpatialMap.z (SpatialMap.points_of map) in
  let mappedArea :=
    if (0 <? length xs)%nat && (0 <? length zs)%nat then
      let width := JS.Math_max_list xs - JS.Math_min_list xs in
      let depth := JS.Math_max_list zs - JS.Math_min_list zs in
      width * depth
    else 0 in
  let accuracy :=
    if (0 <? totalLandmarks)%nat then
      fold_left (fun acc landmark => acc + SpatialMap.confidence landmark)
        (SpatialMap.landmarks map) 0 / JS.of_nat totalLandmarks
    else 0 in
  {| UseMapping.totalPoints := totalPoints;
     UseMapping.totalLandmarks := totalLandmarks;
     UseMapping.mappedArea := JS.Math_round (mappedArea * 100) / 100;
     UseMapping.processingTime := JS.Math_round processingTime;
     UseMapping.accuracy := JS.Math_round (accuracy * 100) / 100 |}.

Definition startMapping (env : Env) (hook : t) (w : World) : t * World :=
  if negb (UseMapping.isActive (state hook)) then
    ({| state :=
          {| UseMapping.isActive := true;
             UseMapping.isProcessing := UseMapping.isProcessing (state hook);
             UseMapping.currentMap := UseMapping.currentMap (state hook);
             UseMapping.trajectory := UseMapping.trajectory (state hook);
             UseMapping.landmarks := UseMapping.landmarks (state hook);
             UseMapping.mapPoints := UseMapping.mapPoints (state hook);
             UseMapping.statistics_of := UseMapping.statistics_of (state hook);
             UseMapping.error := None |};
        slamProcessorRef := slamProcessorRef hook;
        motionVectorRef := motionVectorRef hook;
        performanceRef :=
          {| UseMapping.frameCount := 0; UseMapping.totalProcessingTime := 0;
             UseMapping.startTime := performance_now env (clock_reads w) |} |}, tick w)
  else (hook, w).

Definition stopMapping (hook : t) : t :=
  {| state :=
       {| UseMapping.isActive := false;
          UseMapping.isProcessing := false;
          UseMapping.currentMap := UseMapping.currentMap (state hook);
          UseMapping.trajectory := UseMapping.trajectory (state hook);
          UseMapping.landmarks := UseMapping.landmarks (state hook);
          UseMapping.mapPoints := UseMapping.mapPoints (state hook);
          UseMapping.statistics_of := UseMapping.statistics_of (state hook);
          UseMapping.error := UseMapping.error (state hook) |};
     slamProcessorRef := slamProcessorRef hook;
     motionVectorRef := motionVectorRef hook;
     performanceRef := performanceRef hook |}.

(** [Array(10).fill(0).map(() => Math.random())] *)
Definition randomFeatures (env : Env) (w : World) : list float * World :=
  (List.map (fun i => Math_random env (random_draws w + i)) (seq 0 10),
   {| clock_reads := clock_reads w; random_draws := random_draws w + 10 |}).

(** The callback of [map.landmarks.map]. *)
Definition describeLandmark (env : Env) (l : SpatialMap.landmark) (w : World)
    : Landmark.t * World :=
  let '(features, w) := randomFeatures env w in
  ({| Landmark.id := SpatialMap.id l;
      Landmark.position := SpatialMap.position l;
      Landmark.type := SpatialMap.type l;
      Landmark.confidence := SpatialMap.confidence l;
      Landmark.description := ("Landmark " ++ SpatialMap.type l)%string;
      Landmark.features := features |}, w).

(** The callback of [map.points.map]. *)
Definition ratePoint (env : Env) (p : SpatialMap.point) (w : World) : MapPoint3D.t * World :=
  let '(r, w) := draw_random env w in
  let '(now, w) := read_clock env w in
  ({| MapPoint3D.x := SpatialMap.x p;
      MapPoint3D.y := SpatialMap.y p;
      MapPoint3D.z := SpatialMap.z p;
      MapPoint3D.color := SpatialMap.color p;
      MapPoint3D.confidence := 0.8 + r * 0.2;
      MapPoint3D.timestamp := now |}, w).

(** [processFrame]; the engine's [processFrame] never throws, so the
    [catch] branch is not entered. *)
Definition processFrame (env : Env) (imageData : ImageData.t) (depthPoints : list DepthPoint.t)
    (hook : t) (w : World) : SpatialMap.t * t * World :=
  if negb (UseMapping.isActive (state hook)) then (UseMapping.currentMap (state hook), hook, w)
  else
    let startTime := performance_now env (clock_reads w) in
    let w := tick w in
    let '(map, slam, w) :=
      SLAMProcessor.processFrame env imageData depthPoints (motionVectorRef hook)
        (slamProcessorRef hook) w in
    let trajectory := SLAMProcessor.getTrajectory slam in
    let '(landmarks, w) := map_world (describeLandmark env) (SpatialMap.landmarks map) w in
    let '(mapPoints, w) := map_world (ratePoint env) (SpatialMap.points_of map) w in
    let processingTime := performance_now env (clock_reads w) - startTime in
    let w := tick w in
    let performance :=
      {| UseMapping.frameCount := S (UseMapping.frameCount (performanceRef hook));
         UseMapping.totalProcessingTime :=
           UseMapping.totalProcessingTime (performanceRef hook) + processingTime;
         UseMapping.startTime := UseMapping.startTime (performanceRef hook) |} in
    let statistics := calculateStatistics map processingTime in
    (map,
     {| state :=
          {| UseMapping.isActive := UseMapping.isActive (state hook);
             UseMapping.isProcessing := false;
             UseMapping.currentMap := map;
             UseMapping.trajectory := trajectory;
             UseMapping.landmarks := landmarks;
             UseMapping.mapPoints := mapPoints;
             UseMapping.statistics_of := statistics;
             UseMapping.error := None |};
        slamProcessorRef := slam;
        motionVectorRef := motionVectorRef hook;
        performanceRef := performance |}, w).

Definition resetMap (env : Env) (hook : t) (w : World) : t * World :=
  ({| state :=
        {| UseMapping.isActive := UseMapping.isActive (state hook);
           UseMapping.isProcessing := UseMapping.isProcessing (state hook);
           UseMapping.currentMap := emptyMap;
           UseMapping.trajectory := emptyTrajectory;
           UseMapping.landmarks := [];
           UseMapping.mapPoints := [];
           UseMapping.statistics_of := zeroStatistics;
           UseMapping.error := None |};
      slamProcessorRef := SLAMProcessor.resetMap (slamProcessorRef hook);
      motionVectorRef := motionVectorRef hook;
      performanceRef :=
        {| UseMapping.frameCount := 0; UseMapping.totalProcessingTime := 0;
           UseMapping.startTime := performance_now env (clock_reads w) |} |}, tick w).

Definition optimizeMap (hook : t) : t :=
  let currentMap := SLAMProcessor.getCurrentMap (slamProcessorRef hook) in
  let statistics := calculateStatistics currentMap 0 in
  {| state :=
       {| UseMapping.isActive := UseMapping.isActive (state hook);
          UseMapping.isProcessing := UseMapping.isProcessing (state hook);
          UseMapping.currentMap := currentMap;
          UseMapping.trajectory := UseMapping.trajectory (state hook);
          UseMapping.landmarks := UseMapping.landmarks (state hook);
          UseMapping.mapPoints := UseMapping.mapPoints (state hook);
          UseMapping.statistics_of := statistics;
          UseMapping.error := UseMapping.error (state hook) |};
     slamProcessorRef := slamProcessorRef hook;
     motionVectorRef := motionVectorRef hook;
     performanceRef := performanceRef hook |}.

Definition setMotionVector (hook : t) (motion : Vec3) : t :=
  {| state := state hook;
     slamProcessorRef := slamProcessorRef hook;
     motionVectorRef := Some motion;
     performanceRef := performanceRef hook |}.

Definition exportMap (env : Env) (hook : t) (w : World) : UseMapping.exported * World :=
  UseMapping.exportMap env (state hook) (performanceRef hook) w.

(** The hooks a component can hold: the initial one, and the result of any
    of the controls on one it can hold. *)
Inductive reachable (env : Env) : t -> Prop :=
| reachable_initial : reachable env initial
| reachable_startMapping hook w :
    reachable env hook -> reachable env (fst (startMapping env hook w))
| reachable_stopMapping hook :
    reachable env hook -> reachable env (stopMapping hook)
| reachable_processFrame imageData depthPoints hook w :
    reachable env hook ->
    reachable env (snd (fst (processFrame env imageData depthPoints hook w)))
| reachable_resetMap hook w :
    reachable env hook -> reachable env (fst (resetMap env hook w))
| reachable_optimizeMap hook :
    reachable env hook -> reachable env (optimizeMap hook)
| reachable_setMotionVector hook motion :
    reachable env hook -> reachable env (setMotionVector hook motion).

(** The state mirrors the engine held in the ref. *)
Definition mirrors (hook : t) : Prop :=
  UseMapping.currentMap (state hook) = SLAMProcessor.getCurrentMap (slamProcessorRef hook)
  /\ UseMapping.trajectory (state hook) = SLAMProcessor.getTrajectory (slamProcessorRef hook)
  /\ length (UseMapping.mapPoints (state hook))
     = length (SLAMProcessor.mapPoints (slamProcessorRef hook))
  /\ length (UseMapping.landmarks (state hook))
     = length (SLAMProcessor.landmarks (slamProcessorRef hook))
  /\ UseMapping.totalPoints (UseMapping.statistics_of (state hook))
     = length (SLAMProcessor.mapPoints (slamProcessorRef hook))
  /\ UseMapping.totalLandmarks (UseMapping.statistics_of (state hook))
     = length (SLAMProcessor.landmarks (slamProcessorRef hook)).

End MappingHook.

(** ** [use-3d-analysis.ts]: the analysis hook

    The two [Map]s of the state are finite maps keyed by the object
    identity. *)

Module Analysis3DHook.
Local Open Scope float_scope.

Record performance := {
  depthEstimationTime : float;
  morphologyAnalysisTime : float;
  meshReconstructionTime : float
}.

Record Analysis3DState := {
  isAnalyzing : bool;
  isNightVisionEnabled : bool;
  depthPoints : list DepthPoint.t;
  morphologyAnalysis : gmap string MorphologyAnalysis.t;
  meshes : gmap string Mesh3D.t;
  nightVisionSettings : NightVisionEnhancement.t;
  error : option string;
  performance_of : performance
}.

Definition initialState : Analysis3DState :=
  {| isAnalyzing := false;
     isNightVisionEnabled := false;
     depthPoints := [];
     morphologyAnalysis := ∅;
     meshes := ∅;
     nightVisionSettings := Enhancer.defaultSettings;
     error := None;
     performance_of :=
       {| depthEstimationTime := 0; morphologyAnalysisTime := 0;
          meshReconstructionTime := 0 |} |}.

(** [estimateDepth]; the estimator never throws. *)
Definition estimateDepth (env : Env) (imageData : ImageData.t) (state : Analysis3DState)
    (w : World) : list DepthPoint.t * Analysis3DState * World :=
  let startTime := performance_now env (clock_reads w) in
  let w := tick w in
  let '(depthPoints, w) := DepthEstimator.estimateDepth env imageData w in
  let estimationTime := performance_now env (clock_reads w) - startTime in
  let w := tick w in
  (depthPoints,
   {| isAnalyzing := false;
      isNightVisionEnabled := isNightVisionEnabled state;
      depthPoints := depthPoints;
      morphologyAnalysis := morphologyAnalysis state;
      meshes := meshes state;
      nightVisionSettings := nightVisionSettings state;
      error := None;
      performance_of :=
        {| depthEstimationTime := JS.Math_round estimationTime;
           morphologyAnalysisTime := morphologyAnalysisTime (performance_of state);
           meshReconstructionTime := meshReconstructionTime (performance_of state) |} |}, w).

(** The loop of [analyzeMorphology]: [morphologyMap.set(object.id, analysis)]
    for each object in turn. *)
Definition morphologyMap (objects : list DetectedObject.t) (depthPoints : list DepthPoint.t)
    : gmap string MorphologyAnalysis.t :=
  fold_left
    (fun (morphologyMap : gmap string MorphologyAnalysis.t) object =>
       let analysis := Analysis3D.analyzeMorphology object depthPoints in
       <[DetectedObject.id object := analysis]> morphologyMap)
    objects ∅.

(** [analyzeMorphology]; the analyzer never throws. *)
Definition analyzeMorphology (env : Env) (objects : list DetectedObject.t)
    (state : Analysis3DState) (w : World)
    : gmap string MorphologyAnalysis.t * Analysis3DState * World :=
  let startTime := performance_now env (clock_reads w) in
  let w := tick w in
  let morphologyMap := morphologyMap objects (depthPoints state) in
  let analysisTime := performance_now env (clock_reads w) - startTime in
  let w := tick w in
  (morphologyMap,
   {| isAnalyzing := false;
      isNightVisionEnabled := isNightVisionEnabled state;
      depthPoints := depthPoints state;
      morphologyAnalysis := morphologyMap;
      meshes := meshes state;
      nightVisionSettings := nightVisionSettings state;
      error := None;
      performance_of :=
        {| depthEstimationTime := depthEstimationTime (performance_of state);
           morphologyAnalysisTime := JS.Math_round analysisTime;
           meshReconstructionTime := meshReconstructionTime (performance_of state) |} |}, w).

Definition clearAnalysis (state : Analysis3DState) : Analysis3DState :=
  {| isAnalyzing := isAnalyzing state;
     isNightVisionEnabled := isNightVisionEnabled state;
     depthPoints := [];
     morphologyAnalysis := ∅;
     meshes := ∅;
     nightVisionSettings := nightVisionSettings state;
     error := None;
     performance_of :=
       {| depthEstimationTime := 0; morphologyAnalysisTime := 0;
          meshReconstructionTime := 0 |} |}.

(** [state.morphologyAnalysis.get(objectId) || null] *)
Definition getObjectMorphology (state : Analysis3DState) (objectId : string)
    : option MorphologyAnalysis.t :=
  morphologyAnalysis state !! objectId.

End Analysis3DHook.

(** *** Notions used to state the order of the landmarks *)

Module LandmarkFacts.

(** Every entry of [l] is in relation [R] with the next one. *)
Fixpoint chain {A : Type} (R : A -> A -> Prop) (l : list A) : Prop :=
  match l with
  | a :: (b :: _) as rest => R a b /\ chain R rest
  | _ => True
  end.

End LandmarkFacts.

(** ** A concrete environment and sample data, used to run the model *)

Definition example_env : Env := {|
  Date_now := fun k => JS.of_Z (1700000000000 + 16 * Z.of_nat k);
  performance_now := fun k => JS.of_Z (5000 + 16 * Z.of_nat k);
  toISOString := fun _ => "2023-11-14T22:13:20.000Z"%string;
  Math_random := fun _ => 0.5%float;
  Math_sin := fun _ => 0%float;
  Math_cos := fun _ => 1%float;
  pow_approx := fun _ _ => nan;
  toFixed2 := fun _ => "0.00"%string;
  toString36 := fun _ => "i"%string;
  show_num := fun _ => "0"%string
|}.

Definition example_object (i l : string) (x y : float) : DetectedObject.t := {|
  DetectedObject.id := i; DetectedObject.label := l; DetectedObject.confidence := 0.9%float;
  DetectedObject.bbox :=
    {| BBox.x := (x - 10)%float; BBox.y := (y - 10)%float;
       BBox.width := 20%float; BBox.height := 20%float |};
  DetectedObject.center := {| Center.x := x; Center.y := y |};
  DetectedObject.area := 400%float; DetectedObject.timestamp := 1000%float
|}.

Definition example_sample (x y d : float) : DepthPoint.t :=
  {| DepthPoint.x := x; DepthPoint.y := y; DepthPoint.depth := d;
     DepthPoint.confidence := 0.9%float |}.

Definition example_point (x y z c t : float) : MapPoint3D.t :=
  {| MapPoint3D.x := x; MapPoint3D.y := y; MapPoint3D.z := z;
     MapPoint3D.color := (0, 0, 0)%float;
     MapPoint3D.confidence := c; MapPoint3D.timestamp := t |}.

(** A 2 x 2 mid-grey frame. *)
Definition example_frame : ImageData.t :=
  {| ImageData.data := List.repeat x80 16; ImageData.width := 2; ImageData.height := 2 |}.

Definition world0 : World := {| clock_reads := 0; random_draws := 0 |}.

(** The world 2000 clock readings (32 seconds of [example_env]) later. *)
Definition world_later : World := {| clock_reads := 2000; random_draws := 10 |}.

Definition example_state : UseMapping.MappingState :=
  {| UseMapping.isActive := true;
     UseMapping.isProcessing := false;
     UseMapping.currentMap :=
       SLAMProcessor.getCurrentMap
         {| SLAMProcessor.mapPoints := [example_point 0 0 1 0.9 0];
            SLAMProcessor.landmarks := [];
            SLAMProcessor.trajectory := SLAMProcessor.trajectory SLAMProcessor.initial;
            SLAMProcessor.lastPosition := (0, 0, 0)%float |};
     UseMapping.trajectory :=
       {| Trajectory.points := []; Trajectory.totalDistance := 12.5%float;
          Trajectory.averageSpeed := 0%float |};
     UseMapping.landmarks := [];
     UseMapping.mapPoints := [example_point 0 0 1 0.9 0];
     UseMapping.statistics_of :=
       {| UseMapping.totalPoints := 1; UseMapping.totalLandmarks := 0;
          UseMapping.mappedArea := 0%float; UseMapping.processingTime := 3%float;
          UseMapping.accuracy := 0%float |};
     UseMapping.error := None |}.

Definition example_performance : UseMapping.performance :=
  {| UseMapping.frameCount := 4; UseMapping.totalProcessingTime := 14%float;
     UseMapping.startTime := 0%float |}.

(** A 3 x 3 frame, the smallest one with an inner pixel. *)
Definition example_frame3 : ImageData.t :=
  {| ImageData.data :=
       [x10; x20; x30; xff;  x80; x80; x80; x7f;  xf0; x10; x10; x01;
        x00; x00; x00; x00;  xff; xff; xff; xff;  x40; x50; x60; x70;
        x11; x22; x33; x44;  x55; x66; x77; x88;  x99; xaa; xbb; xcc];
     ImageData.width := 3; ImageData.height := 3 |}.

(** Six points on a line, 0.01 apart. *)
Definition example_cloud : list MapPoint3D.t :=
  [example_point 0 0 1 0.9 0; example_point 0.01 0 1 0.9 0; example_point 0.02 0 1 0.9 0;
   example_point 0.03 0 1 0.9 0; example_point 0.04 0 1 0.9 0; example_point 0.05 0 1 0.9 0].

(** An environment whose random draws differ: the draw [k] is [k / 10]. *)
Definition example_env_varied : Env := {|
  Date_now := fun k => JS.of_Z (1700000000000 + 16 * Z.of_nat k);
  performance_now := fun k => JS.of_Z (5000 + 16 * Z.of_nat k);
  toISOString := fun _ => "2023-11-14T22:13:20.000Z"%string;
  Math_random := fun k => (JS.of_nat k / 10)%float;
  Math_sin := fun _ => 0%float;
  Math_cos := fun _ => 1%float;
  pow_approx := fun _ _ => nan;
  toFixed2 := fun _ => "0.00"%string;
  toString36 := fun _ => "i"%string;
  show_num := fun _ => "0"%string
|}.

(** Two groups of 12 samples at the centre of the frame, at the depths 0.5
    and 5: each group projects to one cluster. *)
Definition example_samples : list DepthPoint.t :=
  List.repeat (example_sample 1 1 0.5) 12 ++ List.repeat (example_sample 1 1 5) 12.

(** The engine after one frame over [example_samples]: it holds two
    landmarks. *)
Definition example_mapped : SLAMProcessor.t :=
  snd (fst (SLAMProcessor.processFrame example_env_varied example_frame example_samples None
              SLAMProcessor.initial world0)).

(** A point with a coordinate that is not a number. *)
Definition example_point_nan : MapPoint3D.t := example_point nan 0 0 0.9 0.

(** * Properties *)

(** ** Lists as JavaScript arrays *)

Lemma fold_left_push {A B : Type} (f : A -> B) (l : list A) (acc : list B) :
  fold_left (fun out a => out ++ [f a]) l acc = acc ++ List.map f l.
Proof.
  revert acc; induction l as [|a l IH]; intros acc; simpl.
  - by rewrite app_nil_r.
  - rewrite IH. by rewrite <- app_assoc.
Qed.

(** [Array.prototype.find] returns the first element that satisfies the
    predicate. *)
Lemma find_first {A : Type} (f : A -> bool) (l : list A) (x : A) :
  List.find f l = Some x ->
  exists j, l !! j = Some x /\ f x = true /\
            forall j' y, (j' < j)%nat -> l !! j' = Some y -> f y = false.
Proof.
  induction l as [|a l IH]; simpl; [done|].
  destruct (f a) eqn:Ha.
  - intros [= ->]. exists 0%nat. repeat split; [done|]. intros; lia.
  - intros Hx. destruct (IH Hx) as (j & Hj & Hfx & Hbefore).
    exists (S j). repeat split; [done..|].
    intros [|j'] y Hlt; simpl; [by intros [= <-]|].
    intros Hy. apply (Hbefore j' y); [lia|done].
Qed.

Lemma find_none {A : Type} (f : A -> bool) (l : list A) :
  List.find f l = None -> forall x, In x l -> f x = false.
Proof. intros H x Hx. by apply (List.find_none f l H). Qed.

(** ** The object tracker *)

Lemma trackObjects_map env newObjects previousObjects :
  previousObjects <> [] ->
  Tracker.trackObjects env true newObjects previousObjects
  = List.map (Tracker.tracked_as env previousObjects) newObjects.
Proof.
  intros Hne. unfold Tracker.trackObjects.
  destruct previousObjects as [|p ps]; [done|]. cbn [negb orb length Nat.eqb].
  by rewrite fold_left_push.
Qed.

(** C2, as the code has it: with tracking enabled and a non-empty previous
    list, every new object takes the identity of the FIRST previous object,
    in list order, that has its label and lies less than 100 pixels from it
    (whether or not a later one is nearer); when no previous object
    qualifies it is returned as it is, with its fresh identity. *)
Theorem trackObjects_first_match env (newObjects previousObjects : list DetectedObject.t) :
  previousObjects <> [] ->
  let tracked := Tracker.trackObjects env true newObjects previousObjects in
  length tracked = length newObjects /\
  forall i newObj, newObjects !! i = Some newObj ->
    (exists j similarObj,
        previousObjects !! j = Some similarObj /\
        Tracker.similar env newObj similarObj = true /\
        (forall j' o, (j' < j)%nat -> previousObjects !! j' = Some o ->
                      Tracker.similar env newObj o = false) /\
        tracked !! i = Some (Tracker.with_id newObj (DetectedObject.id similarObj)))
    \/ ((forall o, In o previousObjects -> Tracker.similar env newObj o = false) /\
        tracked !! i = Some newObj).
Proof.
  intros Hne tracked. subst tracked. rewrite (trackObjects_map _ _ _ Hne).
  split; [by rewrite length_map|].
  intros i newObj Hi.
  assert (Hmap : List.map (Tracker.tracked_as env previousObjects) newObjects !! i
                 = Some (Tracker.tracked_as env previousObjects newObj)).
  { change (List.map ?f ?l) with (f <$> l). by rewrite list_lookup_fmap, Hi. }
  rewrite Hmap. unfold Tracker.tracked_as.
  destruct (List.find _ _) as [s|] eqn:Hfind.
  - left. destruct (find_first _ _ _ Hfind) as (j & Hj & Hs & Hbefore).
    by exists j, s.
  - right. split; [|done]. by apply find_none.
Qed.

Lemma trackObjects_first_match_witness :
  let newObjects := [example_object "obj_2" "pessoa" 150 140] in
  let previousObjects := [example_object "obj_1" "pessoa" 100 100] in
  previousObjects <> [] /\
  Tracker.trackObjects example_env true newObjects previousObjects !! 0%nat
  = Some (Tracker.with_id (example_object "obj_2" "pessoa" 150 140) "obj_1").
Proof.
  split; [done|].
  destruct (trackObjects_first_match example_env
              [example_object "obj_2" "pessoa" 150 140]
              [example_object "obj_1" "pessoa" 100 100]) as [_ H]; [done|].
  destruct (H 0%nat _ eq_refl) as [(j & s & Hj & _ & _ & Ht)|[Hnone _]].
  - destruct j as [|[|j]]; [|done..]. injection Hj as <-. exact Ht.
  - exfalso. specialize (Hnone _ (or_introl eq_refl)). vm_compute in Hnone. discriminate.
Defined.

(** C2, as the claim words it, fails: the tracker takes the first previous
    object that qualifies, here "far" (50 pixels away), although "near"
    (10 pixels away, same label) is the nearest one. *)
Lemma trackObjects_not_nearest :
  let newObj := example_object "fresh" "pessoa" 0 0 in
  let far := example_object "far" "pessoa" 50 0 in
  let near := example_object "near" "pessoa" 10 0 in
  (Tracker.distance example_env newObj near <? Tracker.distance example_env newObj far)%float = true /\
  Tracker.similar example_env newObj near = true /\
  List.map DetectedObject.id (Tracker.trackObjects example_env true [newObj] [far; near]) = ["far"%string] /\
  List.map DetectedObject.id (Tracker.trackObjects_nearest example_env [newObj] [far; near]) = ["near"%string].
Proof. vm_compute. repeat split. Qed.

(** C10: the tracked list may carry one identity twice. Two new objects of
    one label, both less than 100 pixels from a single previous object of
    that label, both receive its identity, although their own identities
    were distinct. *)
Theorem trackObjects_duplicate_identity env :
  exists newObjects previousObjects : list DetectedObject.t,
    previousObjects <> [] /\ NoDup (List.map DetectedObject.id newObjects) /\
    exists a b,
      Tracker.trackObjects env true newObjects previousObjects = [a; b] /\
      DetectedObject.id a = DetectedObject.id b.
Proof.
  exists [example_object "obj_10_0" "cadeira" 200 200; example_object "obj_10_1" "cadeira" 230 240],
         [example_object "obj_9_0" "cadeira" 210 210].
  split; [done|]. split.
  { apply NoDup_cons; split; [|apply NoDup_cons; split; [set_solver|apply NoDup_nil_2]].
    simpl. intros Hin. apply list_elem_of_singleton in Hin. discriminate. }
  eexists _, _. split; [vm_compute; reflexivity|reflexivity].
Qed.

(** ** The morphology analyzer *)

(** The index loop of [calculateComplexity] adds up the absolute differences
    of consecutive depths, from left to right. *)
Lemma complexity_loop_from (pre ps : list DepthPoint.t) (d0 : DepthPoint.t) (acc : float) :
  fold_left
    (fun complexity i =>
       (complexity
        + abs (Analysis3D.depth_at (pre ++ d0 :: ps) i
               - Analysis3D.depth_at (pre ++ d0 :: ps) (i - 1)))%float)
    (seq (S (length pre)) (length ps)) acc
  = fold_left add
      (Analysis3D.consecutive_abs_diffs (List.map DepthPoint.depth (d0 :: ps))) acc.
Proof.
  revert pre d0 acc. induction ps as [|d1 ps IH]; intros pre d0 acc; [done|].
  cbn [length seq fold_left List.map Analysis3D.consecutive_abs_diffs].
  assert (H1 : Analysis3D.depth_at (pre ++ d0 :: d1 :: ps) (S (length pre)) = DepthPoint.depth d1).
  { unfold Analysis3D.depth_at. rewrite lookup_app_r by lia.
    by replace (S (length pre) - length pre)%nat with 1%nat by lia. }
  assert (H0 : Analysis3D.depth_at (pre ++ d0 :: d1 :: ps) (S (length pre) - 1) = DepthPoint.depth d0).
  { unfold Analysis3D.depth_at. rewrite lookup_app_r by lia.
    by replace (S (length pre) - 1 - length pre)%nat with 0%nat by lia. }
  rewrite H1, H0.
  specialize (IH (pre ++ [d0]) d1). rewrite <- app_assoc, length_app in IH.
  cbn [length app] in IH. replace (length pre + 1)%nat with (S (length pre)) in IH by lia.
  rewrite IH. reflexivity.
Qed.

Lemma complexity_loop (depthPoints : list DepthPoint.t) (d0 : DepthPoint.t) (acc : float) :
  fold_left
    (fun complexity i =>
       (complexity
        + abs (Analysis3D.depth_at (d0 :: depthPoints) i
               - Analysis3D.depth_at (d0 :: depthPoints) (i - 1)))%float)
    (seq 1 (length depthPoints)) acc
  = fold_left add
      (Analysis3D.consecutive_abs_diffs (List.map DepthPoint.depth (d0 :: depthPoints))) acc.
Proof. exact (complexity_loop_from [] depthPoints d0 acc). Qed.

Lemma consecutive_abs_diffs_length (depths : list float) :
  length (Analysis3D.consecutive_abs_diffs depths) = (length depths - 1)%nat.
Proof.
  induction depths as [|a [|b rest] IH]; [done..|].
  cbn [Analysis3D.consecutive_abs_diffs length] in *. lia.
Qed.

(** C6, as the code has it: for an object whose bounding box holds n >= 2
    depth samples, the complexity score is the sum of |depth_i - depth_(i-1)|
    over the n - 1 consecutive pairs of matched samples, divided by n (the
    number of matched samples, not the number of pairs), and capped at 1. *)
Theorem complexity_divides_by_sample_count (object : DetectedObject.t)
    (depthPoints : list DepthPoint.t) :
  let matched := List.filter (Analysis3D.inside (DetectedObject.bbox object)) depthPoints in
  (2 <= length matched)%nat ->
  MorphologyAnalysis.complexity (Analysis3D.analyzeMorphology object depthPoints)
  = JS.Math_min 1%float
      (Analysis3D.sum (Analysis3D.consecutive_abs_diffs (List.map DepthPoint.depth matched))
       / JS.of_nat (length matched))%float
  /\ length (Analysis3D.consecutive_abs_diffs (List.map DepthPoint.depth matched))
     = (length matched - 1)%nat.
Proof.
  intros matched Hn. split; [|by rewrite consecutive_abs_diffs_length, length_map].
  unfold Analysis3D.analyzeMorphology. fold matched.
  destruct matched as [|d0 [|d1 ps]] eqn:Hm; [simpl in Hn; lia..|].
  cbn [length Nat.eqb MorphologyAnalysis.complexity].
  unfold Analysis3D.calculateComplexity.
  cbn [length Nat.ltb Nat.leb Nat.sub].
  change (S (length ps) - 0)%nat with (S (length ps)).
  change (S (length ps)) with (length (d1 :: ps)) at 1.
  rewrite (complexity_loop (d1 :: ps) d0 0%float). reflexivity.
Qed.

Lemma complexity_divides_by_sample_count_witness :
  let object := example_object "obj_1" "mesa" 100 100 in
  let depthPoints :=
    [example_sample 95 100 0; example_sample 100 100 1; example_sample 300 300 0.5] in
  MorphologyAnalysis.complexity (Analysis3D.analyzeMorphology object depthPoints) = 0.5%float.
Proof.
  intros object depthPoints.
  destruct (complexity_divides_by_sample_count object depthPoints) as [H _].
  - vm_compute. lia.
  - rewrite H. vm_compute. reflexivity.
Defined.

(** C6, as the claim words it, fails: two matched samples of depths 0 and 1
    have one consecutive pair, of absolute difference 1, so the mean over the
    pairs is 1; the analyzer divides by the two samples and returns 0.5. *)
Lemma complexity_not_mean_over_pairs :
  let object := example_object "obj_1" "mesa" 100 100 in
  let depthPoints := [example_sample 95 100 0; example_sample 100 100 1] in
  List.filter (Analysis3D.inside (DetectedObject.bbox object)) depthPoints = depthPoints /\
  MorphologyAnalysis.complexity (Analysis3D.analyzeMorphology object depthPoints) = 0.5%float /\
  Analysis3D.mean_abs_diff_complexity (List.map DepthPoint.depth depthPoints) = 1%float.
Proof. vm_compute. repeat split. Qed.

(** ** Facts on binary64 arithmetic *)

Lemma Prim2SF_finite_cases (x : float) :
  is_finite x = true ->
  (exists s, Prim2SF x = S754_zero s) \/ (exists s m e, Prim2SF x = S754_finite s m e).
Proof.
  unfold is_finite, Prim2SF.
  destruct (is_nan x); [done|]. destruct (is_infinity x); [by destruct (is_zero x)|].
  intros _. destruct (is_zero x); [left; eauto|].
  destruct (Z.frexp x) as [r e]. destruct (shr_fexp _ _ _ _ _) as [sh e'].
  destruct (shr_m sh); [left|right|left]; eauto.
Qed.

(** A finite number minus itself is +0. *)
Lemma sub_diag_finite (x : float) : is_finite x = true -> (x - x)%float = 0%float.
Proof.
  intros H. apply Prim2SF_inj. rewrite sub_spec.
  destruct (Prim2SF_finite_cases x H) as [[s ->]|(s & m & e & ->)].
  - by destruct s.
  - unfold SF64sub, SFsub. by rewrite Z.sub_diag.
Qed.

Lemma same_magnitude_refl a : same_magnitude a a.
Proof. by destruct a. Qed.

Lemma binary_round_aux_sign s1 s2 m e l :
  same_magnitude (binary_round_aux prec emax s1 m e l) (binary_round_aux prec emax s2 m e l).
Proof.
  unfold binary_round_aux.
  destruct (shr_fexp prec emax m e l) as [mrs e1].
  destruct (shr_fexp prec emax _ e1 loc_Exact) as [mrs2 e2].
  destruct (shr_m mrs2); [done| |done]. by destruct (e2 <=? emax - prec)%Z.
Qed.

Lemma binary_normalize_opp v e :
  same_magnitude (binary_normalize prec emax v e false) (binary_normalize prec emax (- v) e false).
Proof.
  destruct v as [|p|p]; [done|..]; unfold binary_normalize, Z.opp, binary_round;
    destruct (shl_align _ _ _) as [mz ez]; apply binary_round_aux_sign.
Qed.

Lemma SFsub_swap a b :
  same_magnitude (SFsub prec emax a b) (SFsub prec emax b a).
Proof.
  destruct a as [sa|sa| |sa ma ea], b as [sb|sb| |sb mb eb];
    try (by destruct sa, sb); try done.
  cbn [SFsub]. rewrite (Z.min_comm eb ea).
  set (x := cond_Zopp sa _). set (y := cond_Zopp sb _).
  replace (y - x)%Z with (- (x - y))%Z by lia. apply binary_normalize_opp.
Qed.

Lemma SFmul_square a b :
  same_magnitude a b -> SFmul prec emax a a = SFmul prec emax b b.
Proof.
  destruct a as [sa|sa| |sa ma ea], b as [sb|sb| |sb mb eb]; try done.
  - intros _. by destruct sa, sb.
  - intros _. by destruct sa, sb.
  - intros [<- <-]. cbn [SFmul]. by destruct sa, sb.
Qed.

(** The square of a difference does not depend on the order of the operands. *)
Lemma square_sub_swap (x y : float) :
  ((x - y) * (x - y))%float = ((y - x) * (y - x))%float.
Proof.
  apply Prim2SF_inj. rewrite !mul_spec, !sub_spec.
  apply SFmul_square, SFsub_swap.
Qed.

(** The comparison [<] on numbers is the strict order of their keys. *)
Lemma SFltb_key x y :
  x <> S754_nan -> y <> S754_nan ->
  SFltb x y = true <-> key_lt (sf_key x) (sf_key y).
Proof.
  intros Hx Hy. unfold SFltb.
  destruct x as [sx|sx| |sx mx ex], y as [sy|sy| |sy my ey]; try done;
    repeat match goal with s : bool |- _ => destruct s end;
    cbn [SFcompare sf_key key_lt];
    try change (Pos.compare_cont Eq mx my) with (Pos.compare mx my);
    try (destruct (Z.compare_spec ex ey), (Pos.compare_spec mx my));
    cbn [CompOpp];
    try (intuition (try discriminate; try lia)).
  all: try (subst; lia).
Qed.

Lemma Prim2SF_number (x : float) : is_nan x = false -> Prim2SF x <> S754_nan.
Proof.
  intros Hx. unfold Prim2SF. rewrite Hx.
  destruct (is_zero x); [done|]. destruct (is_infinity x); [done|].
  destruct (Z.frexp x) as [r e]. destruct (shr_fexp _ _ _ _ _) as [sh e'].
  by destruct (shr_m sh).
Qed.

Lemma ltb_key (x y : float) :
  is_nan x = false -> is_nan y = false ->
  (x <? y)%float = true <-> key_lt (sf_key (Prim2SF x)) (sf_key (Prim2SF y)).
Proof. intros Hx Hy. rewrite ltb_spec. by apply SFltb_key; apply Prim2SF_number. Qed.

(** On numbers, "not less than" is transitive, and [<] is asymmetric. *)
Lemma ltb_neg_trans (x y z : float) :
  is_nan x = false -> is_nan y = false -> is_nan z = false ->
  (y <? x)%float = false -> (z <? y)%float = false -> (z <? x)%float = false.
Proof.
  intros Hx Hy Hz Hyx Hzy.
  apply not_true_iff_false. apply not_true_iff_false in Hyx, Hzy.
  rewrite ltb_key in * by done.
  destruct (sf_key (Prim2SF x)) as [[? ?] ?], (sf_key (Prim2SF y)) as [[? ?] ?],
    (sf_key (Prim2SF z)) as [[? ?] ?]. unfold key_lt in *. lia.
Qed.

Lemma ltb_asym (x y : float) :
  is_nan x = false -> is_nan y = false -> (x <? y)%float = true -> (y <? x)%float = false.
Proof.
  intros Hx Hy Hxy. apply not_true_iff_false. rewrite ltb_key in * by done.
  destruct (sf_key (Prim2SF x)) as [[? ?] ?], (sf_key (Prim2SF y)) as [[? ?] ?].
  unfold key_lt in *. lia.
Qed.

Lemma ltb_irrefl (x : float) : (x <? x)%float = false.
Proof.
  rewrite ltb_spec. unfold SFltb.
  destruct (Prim2SF x) as [s|s| |s m e]; [done|by destruct s|done|].
  cbn [SFcompare]. rewrite Z.compare_refl.
  change (Pos.compare_cont Eq m m) with (Pos.compare m m). rewrite Pos.compare_refl.
  by destruct s.
Qed.

(** ** The mapping engine: insertion with deduplication *)

Section Insertion.
Context (env : Env).
Implicit Types (mapPoints : list MapPoint3D.t) (point : MapPoint3D.t).

Lemma distance_self point :
  MapFacts.finite_point point -> MapFacts.near env point point = true.
Proof.
  intros (Hx & Hy & Hz). unfold MapFacts.near, SLAMProcessor.euclideanDistance3D.
  rewrite !sub_diag_finite by done. by vm_compute.
Qed.

Lemma Math_pow_2 (x : float) : JS.Math_pow (pow_approx env) x 2 = (x * x)%float.
Proof. reflexivity. Qed.

(** The Euclidean distance is symmetric. *)
Lemma euclideanDistance3D_sym (a b : MapPoint3D.t) :
  SLAMProcessor.euclideanDistance3D env a b = SLAMProcessor.euclideanDistance3D env b a.
Proof.
  unfold SLAMProcessor.euclideanDistance3D. rewrite !Math_pow_2.
  by rewrite (square_sub_swap (MapPoint3D.x a)), (square_sub_swap (MapPoint3D.y a)),
    (square_sub_swap (MapPoint3D.z a)).
Qed.

Lemma near_sym (a b : MapPoint3D.t) : MapFacts.near env a b = MapFacts.near env b a.
Proof. unfold MapFacts.near. by rewrite euclideanDistance3D_sym. Qed.

Lemma elem_of_nearbyPoints mapPoints point i q :
  In (i, q) (SLAMProcessor.nearbyPoints env mapPoints point)
  <-> mapPoints !! i = Some q /\ MapFacts.near env point q = true.
Proof.
  unfold SLAMProcessor.nearbyPoints. rewrite filter_In, <- list_elem_of_In.
  rewrite elem_of_lookup_imap. cbn [snd]. unfold MapFacts.near. split.
  - intros [(k & y & [= -> ->] & Hk) Hnear]. done.
  - intros [Hi Hnear]. split; [|done]. by exists i, q.
Qed.

Lemma nearbyPoints_nil mapPoints point :
  SLAMProcessor.nearbyPoints env mapPoints point = [] <->
  forall q, q ∈ mapPoints -> MapFacts.near env point q = false.
Proof.
  split.
  - intros Hnil q Hq. apply list_elem_of_lookup in Hq as [i Hi].
    destruct (MapFacts.near env point q) eqn:Hnear; [|done].
    assert (Hin : In (i, q) (SLAMProcessor.nearbyPoints env mapPoints point))
      by by apply elem_of_nearbyPoints.
    rewrite Hnil in Hin. destruct Hin.
  - intros Hall. destruct (SLAMProcessor.nearbyPoints env mapPoints point) as [|[i q] l] eqn:E; [done|].
    assert (Hin : In (i, q) (SLAMProcessor.nearbyPoints env mapPoints point))
      by (rewrite E; by left).
    apply elem_of_nearbyPoints in Hin as [Hi Hnear].
    rewrite Hall in Hnear; [done|]. apply list_elem_of_lookup. by exists i.
Qed.

(** [reduce] returns one of the elements it was given. *)
Lemma reduce1_In first others :
  In (JS.reduce1 SLAMProcessor.more_confident first others) (first :: others).
Proof.
  unfold JS.reduce1. revert first. induction others as [|b others IH]; intros first; [by left|].
  cbn [fold_left]. specialize (IH (SLAMProcessor.more_confident first b)).
  destruct IH as [IH|IH]; [|by right; right].
  rewrite <- IH.
  assert (Hpick : SLAMProcessor.more_confident first b = first
                  \/ SLAMProcessor.more_confident first b = b).
  { unfold SLAMProcessor.more_confident. destruct (_ <? _)%float; auto. }
  destruct Hpick as [Hp|Hp]; rewrite Hp; [by left|by right; left].
Qed.

Lemma addPoint_outcome mapPoints point :
  MapFacts.outcome env mapPoints point (SLAMProcessor.addPoint env mapPoints point).
Proof.
  unfold SLAMProcessor.addPoint.
  destruct (SLAMProcessor.nearbyPoints env mapPoints point) as [|first others] eqn:E.
  - apply MapFacts.appended. by apply nearbyPoints_nil.
  - pose proof (reduce1_In first others) as Hin. rewrite <- E in Hin.
    destruct (JS.reduce1 _ _ _) as [i best]. apply elem_of_nearbyPoints in Hin as [Hi Hnear].
    cbn [fst snd]. destruct (_ <? _)%float eqn:Hc.
    + by eapply MapFacts.replaced.
    + by eapply MapFacts.rejected.
Qed.

Lemma separated_app mapPoints point :
  MapFacts.separated env mapPoints ->
  (forall q, q ∈ mapPoints -> MapFacts.near env point q = false) ->
  MapFacts.separated env (mapPoints ++ [point]).
Proof.
  intros Hsep Hfar i j a b Hij Hi Hj.
  apply lookup_app_Some in Hi as [Hi|[Hil Hi]], Hj as [Hj|[Hjl Hj]].
  - by apply (Hsep i j).
  - apply list_lookup_singleton_Some in Hj as [_ <-].
    rewrite near_sym. apply Hfar, list_elem_of_lookup. by exists i.
  - apply list_lookup_singleton_Some in Hi as [_ <-].
    apply Hfar, list_elem_of_lookup. by exists j.
  - apply list_lookup_singleton_Some in Hi as [Hi _], Hj as [Hj _]. lia.
Qed.

(** After an insertion that found a neighbour, or of a finite point, the
    map holds a point within the tolerance of the inserted one. *)
Lemma addPoint_leaves_neighbour mapPoints point :
  MapFacts.finite_point point ->
  exists i q, SLAMProcessor.addPoint env mapPoints point !! i = Some q
              /\ MapFacts.near env point q = true.
Proof.
  intros Hfin. destruct (addPoint_outcome mapPoints point) as [Hfar|i best Hi Hnear Hc|i best Hi Hnear Hc].
  - exists (length mapPoints), point. split; [|by apply distance_self].
    by rewrite lookup_app_r, Nat.sub_diag.
  - by exists i, best.
  - exists i, point. split; [|by apply distance_self].
    apply list_lookup_insert_eq. by eapply lookup_lt_Some.
Qed.

Lemma addPoint_length_near mapPoints point i q :
  mapPoints !! i = Some q -> MapFacts.near env point q = true ->
  length (SLAMProcessor.addPoint env mapPoints point) = length mapPoints.
Proof.
  intros Hi Hnear.
  destruct (addPoint_outcome mapPoints point) as [Hfar|? ? _ _ _|? ? _ _ _].
  - rewrite Hfar in Hnear; [done|]. apply list_elem_of_lookup. by exists i.
  - done.
  - by rewrite length_insert.
Qed.

(** On rated points, [reduce] returns a neighbour no other one exceeds in
    confidence. *)
Lemma fold_more_confident_max (others : list (nat * MapPoint3D.t)) :
  forall acc seen,
    (forall e, In e (acc :: seen ++ others) -> MapFacts.rated (snd e)) ->
    (forall e, In e seen ->
       (MapPoint3D.confidence (snd acc) <? MapPoint3D.confidence (snd e))%float = false) ->
    forall e, In e (acc :: seen ++ others) ->
      (MapPoint3D.confidence (snd (fold_left SLAMProcessor.more_confident others acc))
       <? MapPoint3D.confidence (snd e))%float = false.
Proof.
  induction others as [|b rest IH]; intros acc seen Hrated Hseen e He.
  - cbn [fold_left]. rewrite app_nil_r in He. destruct He as [<-|He]; [apply ltb_irrefl|by apply Hseen].
  - cbn [fold_left].
    assert (Hacc : MapFacts.rated (snd acc)) by (apply Hrated; by left).
    assert (Hb : MapFacts.rated (snd b)).
    { apply Hrated. right. apply in_or_app. right. by left. }
    apply (IH (SLAMProcessor.more_confident acc b) (acc :: b :: seen)).
    + intros e' [<-|[<-|[<-|He']]].
      * unfold SLAMProcessor.more_confident. by destruct (_ <? _)%float.
      * done.
      * done.
      * apply Hrated. right. apply in_app_or in He' as [He'|He']; apply in_or_app; [by left|].
        right. by right.
    + unfold SLAMProcessor.more_confident.
      destruct (MapPoint3D.confidence (snd b) <? MapPoint3D.confidence (snd acc))%float eqn:Hlt.
      * intros e' [<-|[<-|He']]; [apply ltb_irrefl|by apply ltb_asym|by apply Hseen].
      * intros e' [<-|[<-|He']]; [done|apply ltb_irrefl|].
        apply (ltb_neg_trans _ (MapPoint3D.confidence (snd acc))); try done.
        -- apply Hrated. right. apply in_or_app. by left.
        -- by apply Hseen.
    + destruct He as [<-|He]; [right; by left|].
      apply in_app_or in He as [He|[<-|He]].
      * right. right. right. apply in_or_app. by left.
      * right. right. by left.
      * right. right. right. apply in_or_app. by right.
Qed.

End Insertion.

(** ** The mapping engine: one frame *)

Lemma sort_insert_Permutation {A : Type} (cmp : A -> A -> float) (x : A) (l : list A) :
  Permutation (JS.sort_insert cmp x l) (x :: l).
Proof.
  induction l as [|y l IH]; [done|]. cbn [JS.sort_insert].
  destruct (0 <? cmp x y)%float; [|done].
  rewrite IH. apply perm_swap.
Qed.

(** [sort] rearranges the array and loses or adds nothing. *)
Lemma sort_Permutation {A : Type} (cmp : A -> A -> float) (l : list A) :
  Permutation (JS.sort cmp l) l.
Proof.
  induction l as [|x l IH]; [done|]. cbn [JS.sort fold_right].
  rewrite sort_insert_Permutation. by constructor.
Qed.

Lemma sort_length {A : Type} (cmp : A -> A -> float) (l : list A) :
  length (JS.sort cmp l) = length l.
Proof. apply Permutation_length, sort_Permutation. Qed.

Section Frame.
Context (env : Env).
Implicit Types (this : SLAMProcessor.t) (w : World).

Lemma processFrame_stages imageData depthPoints motionVector this w :
  SLAMProcessor.processFrame env imageData depthPoints motionVector this w
  = let mw := SLAMProcessor.estimateCameraMovement env motionVector w in
    let tw := SLAMProcessor.updateTrajectory env (fst mw) this (snd mw) in
    let pw := SLAMProcessor.convertDepthTo3D env depthPoints imageData (fst tw) (snd tw) in
    let inserted :=
      {| SLAMProcessor.mapPoints :=
           SLAMProcessor.addPointsToMap env (fst pw) (SLAMProcessor.mapPoints (fst tw));
         SLAMProcessor.landmarks := SLAMProcessor.landmarks (fst tw);
         SLAMProcessor.trajectory := SLAMProcessor.trajectory (fst tw);
         SLAMProcessor.lastPosition := SLAMProcessor.lastPosition (fst tw) |} in
    let lw := SLAMProcessor.detectLandmarks env (fst pw) inserted (snd pw) in
    let ow := SLAMProcessor.optimizeMap env (fst lw) (snd lw) in
    (SLAMProcessor.getCurrentMap (fst ow), fst ow, snd ow).
Proof.
  unfold SLAMProcessor.processFrame.
  destruct (SLAMProcessor.estimateCameraMovement _ _ _) as [m w1]. cbn [fst snd].
  destruct (SLAMProcessor.updateTrajectory _ _ _ _) as [t1 w2]. cbn [fst snd].
  destruct (SLAMProcessor.convertDepthTo3D _ _ _ _ _) as [ps w3]. cbn [fst snd].
  destruct (SLAMProcessor.detectLandmarks _ _ _ _) as [t2 w4]. cbn [fst snd].
  by destruct (SLAMProcessor.optimizeMap _ _ _) as [t3 w5].
Qed.

Lemma updateTrajectory_spec movement this w :
  let after := fst (SLAMProcessor.updateTrajectory env movement this w) in
  let pushed := Trajectory.points (SLAMProcessor.trajectory this) ++ [SLAMProcessor.pushed_sample env movement this w] in
  SLAMProcessor.mapPoints after = SLAMProcessor.mapPoints this
  /\ SLAMProcessor.landmarks after = SLAMProcessor.landmarks this
  /\ Trajectory.points (SLAMProcessor.trajectory after)
     = (if (1000 <? length pushed)%nat then List.tl pushed else pushed)
  /\ snd (SLAMProcessor.updateTrajectory env movement this w)
     = {| clock_reads := S (clock_reads w); random_draws := S (random_draws w) |}.
Proof.
  unfold SLAMProcessor.updateTrajectory, SLAMProcessor.pushed_sample.
  destruct movement as [[m0 m1] m2]. destruct (SLAMProcessor.lastPosition this) as [[l0 l1] l2].
  done.
Qed.

Lemma detectLandmarks_spec points this w :
  let after := fst (SLAMProcessor.detectLandmarks env points this w) in
  SLAMProcessor.mapPoints after = SLAMProcessor.mapPoints this
  /\ SLAMProcessor.trajectory after = SLAMProcessor.trajectory this
  /\ SLAMProcessor.lastPosition after = SLAMProcessor.lastPosition this
  /\ (length (SLAMProcessor.landmarks after) <= 50)%nat.
Proof.
  unfold SLAMProcessor.detectLandmarks.
  destruct (fold_left _ _ _) as [found w']. cbn [fst]. repeat split.
  cbn [SLAMProcessor.landmarks]. rewrite length_take. lia.
Qed.

Lemma detectLandmarks_nil this w :
  SLAMProcessor.detectLandmarks env [] this w
  = ({| SLAMProcessor.mapPoints := SLAMProcessor.mapPoints this;
        SLAMProcessor.landmarks :=
          firstn 50 (JS.sort SLAMProcessor.by_confidence_desc (SLAMProcessor.landmarks this));
        SLAMProcessor.trajectory := SLAMProcessor.trajectory this;
        SLAMProcessor.lastPosition := SLAMProcessor.lastPosition this |}, w).
Proof. reflexivity. Qed.

Lemma pruned_length now points :
  (length (SLAMProcessor.pruned now points) <= SLAMProcessor.maxPoints)%nat.
Proof.
  unfold SLAMProcessor.pruned.
  destruct (SLAMProcessor.maxPoints <? _)%nat eqn:E.
  - rewrite length_take. lia.
  - by apply Nat.ltb_ge in E.
Qed.

Lemma pruned_subset now points p :
  p ∈ SLAMProcessor.pruned now points -> p ∈ points.
Proof.
  unfold SLAMProcessor.pruned. intros Hp.
  assert (Hk : p ∈ List.filter (SLAMProcessor.fresh_and_confident now) points).
  { destruct (SLAMProcessor.maxPoints <? _)%nat; [|done].
    apply subseteq_take in Hp. by rewrite sort_Permutation in Hp. }
  apply list_elem_of_In, filter_In in Hk as [Hk _]. by apply list_elem_of_In.
Qed.

Lemma filter_all {A : Type} (f : A -> bool) (l : list A) :
  (forall x, x ∈ l -> f x = true) -> List.filter f l = l.
Proof.
  induction l as [|a l IH]; intros H; [done|]. cbn [List.filter].
  rewrite (H a) by set_solver. f_equal. apply IH. intros x Hx. apply H. set_solver.
Qed.

Lemma pruned_id now points :
  (forall p, p ∈ points -> SLAMProcessor.fresh_and_confident now p = true) ->
  (length points <= SLAMProcessor.maxPoints)%nat ->
  SLAMProcessor.pruned now points = points.
Proof.
  intros Hall Hlen. unfold SLAMProcessor.pruned. rewrite filter_all by done.
  by apply Nat.ltb_ge in Hlen as ->.
Qed.

Lemma optimizeMap_spec this w :
  SLAMProcessor.optimizeMap env this w
  = ({| SLAMProcessor.mapPoints :=
          SLAMProcessor.pruned (Date_now env (clock_reads w)) (SLAMProcessor.mapPoints this);
        SLAMProcessor.landmarks := SLAMProcessor.landmarks this;
        SLAMProcessor.trajectory := SLAMProcessor.trajectory this;
        SLAMProcessor.lastPosition := SLAMProcessor.lastPosition this |},
     {| clock_reads := S (clock_reads w); random_draws := random_draws w |}).
Proof. reflexivity. Qed.

End Frame.

Section FrameBounds.
Context (env : Env).
Implicit Types (this : SLAMProcessor.t) (w : World).

(** What one [processFrame] call leaves in the three stores. *)
Lemma processFrame_stores imageData depthPoints motionVector this w :
  let after := snd (fst (SLAMProcessor.processFrame env imageData depthPoints motionVector this w)) in
  exists sample,
    let pushed := Trajectory.points (SLAMProcessor.trajectory this) ++ [sample] in
    (length (SLAMProcessor.mapPoints after) <= SLAMProcessor.maxPoints)%nat
    /\ (length (SLAMProcessor.landmarks after) <= 50)%nat
    /\ Trajectory.points (SLAMProcessor.trajectory after)
       = (if (1000 <? length pushed)%nat then List.tl pushed else pushed).
Proof.
  rewrite processFrame_stages. cbv zeta. cbn [fst snd].
  set (mw := SLAMProcessor.estimateCameraMovement env motionVector w).
  destruct (updateTrajectory_spec env (fst mw) this (snd mw)) as (_ & _ & Ht & _).
  set (tw := SLAMProcessor.updateTrajectory env (fst mw) this (snd mw)) in *.
  set (pw := SLAMProcessor.convertDepthTo3D env depthPoints imageData (fst tw) (snd tw)).
  set (inserted := SLAMProcessor.Build_t _ _ _ _).
  destruct (detectLandmarks_spec env (fst pw) inserted (snd pw)) as (_ & Htraj & _ & Hlm).
  set (lw := SLAMProcessor.detectLandmarks env (fst pw) inserted (snd pw)) in *.
  rewrite optimizeMap_spec. cbn [fst SLAMProcessor.mapPoints SLAMProcessor.landmarks SLAMProcessor.trajectory].
  exists (SLAMProcessor.pushed_sample env (fst mw) this (snd mw)).
  split; [apply pruned_length|]. split; [done|].
  by rewrite Htraj.
Qed.

Lemma reachable_trajectory this :
  SLAMProcessor.reachable env this ->
  (length (Trajectory.points (SLAMProcessor.trajectory this)) <= 1000)%nat.
Proof.
  induction 1 as [|imageData depthPoints motionVector this w _ IH|this _ _]; [simpl; lia| |simpl; lia].
  destruct (processFrame_stores imageData depthPoints motionVector this w) as (sample & _ & _ & ->).
  set (old := Trajectory.points (SLAMProcessor.trajectory this)) in *.
  destruct (1000 <? length (old ++ [sample]))%nat eqn:E.
  - destruct old as [|s l]; cbn [app List.tl length] in *; [lia|].
    rewrite length_app. cbn [length]. lia.
  - by apply Nat.ltb_ge in E.
Qed.

End FrameBounds.

(** C4: after every [processFrame] call, whatever the frame, the samples and
    the motion hint, and whatever state the engine had reached before, the
    map holds at most 10,000 points, at most 50 landmarks, and the trajectory
    at most 1000 samples; the trajectory is the previous one with the new
    sample appended and, past 1000, its oldest sample removed. *)
Theorem processFrame_bounds env imageData depthPoints motionVector
    (this : SLAMProcessor.t) (w : World) :
  SLAMProcessor.reachable env this ->
  let after := snd (fst (SLAMProcessor.processFrame env imageData depthPoints motionVector this w)) in
  (length (SLAMProcessor.mapPoints after) <= 10000)%nat
  /\ (length (SLAMProcessor.landmarks after) <= 50)%nat
  /\ (length (Trajectory.points (SLAMProcessor.trajectory after)) <= 1000)%nat
  /\ exists sample,
       let pushed := Trajectory.points (SLAMProcessor.trajectory this) ++ [sample] in
       Trajectory.points (SLAMProcessor.trajectory after)
       = if (1000 <? length pushed)%nat then List.tl pushed else pushed.
Proof.
  intros Hreach after.
  destruct (processFrame_stores env imageData depthPoints motionVector this w)
    as (sample & Hp & Hl & Ht).
  split; [exact Hp|]. split; [exact Hl|]. split; [|by exists sample].
  apply (reachable_trajectory env).
  by apply SLAMProcessor.reachable_processFrame.
Qed.

Lemma processFrame_bounds_witness :
  let after :=
    snd (fst (SLAMProcessor.processFrame example_env example_frame
                [example_sample 0 0 0.5] (Some (0, 0, 0)%float) SLAMProcessor.initial world0)) in
  (length (SLAMProcessor.mapPoints after) <= 10000)%nat
  /\ (length (SLAMProcessor.landmarks after) <= 50)%nat
  /\ (length (Trajectory.points (SLAMProcessor.trajectory after)) <= 1000)%nat.
Proof.
  intros after.
  destruct (processFrame_bounds example_env example_frame [example_sample 0 0 0.5]
              (Some (0, 0, 0)%float) SLAMProcessor.initial world0) as (Hp & Hl & Ht & _).
  - apply SLAMProcessor.reachable_new.
  - done.
Defined.

(** ** The export operation *)

(** C8: for every session state (those of positive session duration
    included), the export holds the session duration (rounded to the
    millisecond), the frame count, the average processing time per frame
    (total over count, rounded, 0 before the first frame), the points,
    landmarks and boundaries of the current map, the trajectory with its
    average speed recomputed as the total distance over the session duration
    in seconds, and the metadata tag. *)
Theorem exportMap_snapshot env (state : UseMapping.MappingState)
    (perf : UseMapping.performance) (w : World) :
  let sessionDuration := (performance_now env (clock_reads w) - UseMapping.startTime perf)%float in
  let e := fst (UseMapping.exportMap env state perf w) in
  (0 <? sessionDuration)%float = true ->
  UseMapping.duration (UseMapping.session e) = JS.Math_round sessionDuration
  /\ UseMapping.session_frameCount (UseMapping.session e) = UseMapping.frameCount perf
  /\ UseMapping.avgProcessingTime (UseMapping.session e)
     = (if (0 <? UseMapping.frameCount perf)%nat
        then JS.Math_round (UseMapping.totalProcessingTime perf
                            / JS.of_nat (UseMapping.frameCount perf))
        else 0)%float
  /\ UseMapping.points (UseMapping.map e) = SpatialMap.points_of (UseMapping.currentMap state)
  /\ UseMapping.map_landmarks (UseMapping.map e) = SpatialMap.landmarks (UseMapping.currentMap state)
  /\ UseMapping.boundaries (UseMapping.map e) = SpatialMap.boundaries (UseMapping.currentMap state)
  /\ UseMapping.trajectory_points (UseMapping.exported_trajectory_of e)
     = Trajectory.points (UseMapping.trajectory state)
  /\ UseMapping.totalDistance (UseMapping.exported_trajectory_of e)
     = Trajectory.totalDistance (UseMapping.trajectory state)
  /\ UseMapping.averageSpeed (UseMapping.exported_trajectory_of e)
     = (Trajectory.totalDistance (UseMapping.trajectory state) / (sessionDuration / 1000))%float
  /\ UseMapping.metadata_of e
     = {| UseMapping.version := "1.0"; UseMapping.format := "SLAM_JSON";
          UseMapping.coordinateSystem := "camera_relative" |}.
Proof. intros sessionDuration e _. subst e sessionDuration. by repeat split. Qed.

Lemma exportMap_snapshot_witness :
  let e := fst (UseMapping.exportMap example_env example_state example_performance world0) in
  UseMapping.duration (UseMapping.session e) = 5000%float
  /\ UseMapping.avgProcessingTime (UseMapping.session e) = 4%float
  /\ UseMapping.averageSpeed (UseMapping.exported_trajectory_of e) = 2.5%float.
Proof.
  intros e.
  destruct (exportMap_snapshot example_env example_state example_performance world0)
    as (Hd & _ & Ha & _ & _ & _ & _ & _ & Hs & _).
  - by vm_compute.
  - fold e in Hd, Ha, Hs. rewrite Hd, Ha, Hs. by vm_compute.
Defined.

(** ** The frame enhancer: the alpha channel *)

Section Alpha.
Import FrameFacts.

Lemma same_alpha_refl d : same_alpha d d.
Proof. by split. Qed.

Lemma same_alpha_trans d1 d2 d3 : same_alpha d1 d2 -> same_alpha d2 d3 -> same_alpha d1 d3.
Proof.
  intros [Hl1 Ha1] [Hl2 Ha2]. split; [congruence|].
  intros i Hi. by rewrite Ha2, Ha1.
Qed.

(** A store into a colour cell leaves the alpha cells alone. *)
Lemma store_same_alpha d i v : (i mod 4 <> 3)%nat -> same_alpha d (ImageProcessor.store d i v).
Proof.
  intros Hi. unfold ImageProcessor.store. split; [by rewrite length_insert|].
  intros j Hj. apply list_lookup_insert_ne. unfold Enhancer.is_alpha in Hj. congruence.
Qed.

Lemma fold_same_alpha {A : Type} (f : list byte -> A -> list byte) (steps : list A) d :
  (forall out a, In a steps -> same_alpha out (f out a)) ->
  same_alpha d (fold_left f steps d).
Proof.
  revert d. induction steps as [|a steps IH]; intros d Hf; [apply same_alpha_refl|].
  cbn [fold_left]. eapply same_alpha_trans; [apply Hf; by left|].
  apply IH. intros out b Hb. apply Hf. by right.
Qed.

Lemma pixel_offset_mod i n : In i (ImageProcessor.pixel_offsets n) -> (i mod 4 = 0)%nat.
Proof.
  unfold ImageProcessor.pixel_offsets. rewrite in_map_iff. intros (k & <- & _).
  by rewrite Nat.mul_comm, Nat.Div0.mod_mul.
Qed.

Lemma colour_cell i c : (i mod 4 = 0)%nat -> (c <= 2)%nat -> ((i + c) mod 4 <> 3)%nat.
Proof.
  intros Hi Hc. rewrite Nat.Div0.add_mod, Hi. cbn [Nat.add].
  rewrite Nat.Div0.mod_mod, Nat.mod_small; lia.
Qed.

Lemma channel_le c : In c ImageProcessor.channels -> (c <= 2)%nat.
Proof. unfold ImageProcessor.channels. simpl. lia. Qed.

Lemma map_channels_same_alpha f d : same_alpha d (ImageProcessor.map_channels f d).
Proof.
  unfold ImageProcessor.map_channels. apply fold_same_alpha. intros out i Hi.
  apply pixel_offset_mod in Hi.
  eapply same_alpha_trans; [|eapply same_alpha_trans]; [| |apply store_same_alpha].
  - apply store_same_alpha. rewrite Hi. lia.
  - apply store_same_alpha. by apply colour_cell; [|lia].
  - by apply colour_cell; [|lia].
Qed.

Lemma pixel_index_mod p c : (c <= 2)%nat -> ((p * 4 + c) mod 4 <> 3)%nat.
Proof. intros Hc. apply colour_cell; [|done]. by rewrite Nat.Div0.mod_mul. Qed.

Lemma denoiseImage_same_alpha imageData strength :
  same_alpha (ImageData.data imageData)
    (ImageData.data (ImageProcessor.denoiseImage imageData strength)).
Proof.
  unfold ImageProcessor.denoiseImage. cbn [ImageData.data].
  apply fold_same_alpha. intros out y _. apply fold_same_alpha. intros out' x _.
  apply fold_same_alpha. intros out'' c Hc. apply store_same_alpha.
  apply pixel_index_mod. by apply channel_le.
Qed.

Lemma enhanceEdges_same_alpha imageData strength :
  same_alpha (ImageData.data imageData)
    (ImageData.data (ImageProcessor.enhanceEdges imageData strength)).
Proof.
  unfold ImageProcessor.enhanceEdges. cbn [ImageData.data].
  apply fold_same_alpha. intros out y _. apply fold_same_alpha. intros out' x _.
  destruct (ImageProcessor.gradient _ _ _ _) as [gx gy].
  apply fold_same_alpha. intros out'' c Hc. apply store_same_alpha.
  apply pixel_index_mod. by apply channel_le.
Qed.

Lemma applyThermalEffect_same_alpha imageData :
  same_alpha (ImageData.data imageData)
    (ImageData.data (ImageProcessor.applyThermalEffect imageData)).
Proof.
  unfold ImageProcessor.applyThermalEffect. cbn [ImageData.data].
  apply fold_same_alpha. intros out i Hi. apply pixel_offset_mod in Hi.
  destruct (ImageProcessor.thermal _ _ _) as [[r g] b].
  eapply same_alpha_trans; [|eapply same_alpha_trans]; [| |apply store_same_alpha].
  - apply store_same_alpha. rewrite Hi. lia.
  - apply store_same_alpha. by apply colour_cell; [|lia].
  - by apply colour_cell; [|lia].
Qed.

End Alpha.

(** C9: for every frame and every settings value, the enhanced frame has the
    width, the height and the buffer size of the input, and each alpha cell
    (the cells 3, 7, 11, ...) holds what it held in the input: the six
    stages store into red, green and blue cells only. *)
Theorem enhanceNightVision_keeps_alpha env (imageData : ImageData.t)
    (settings : NightVisionEnhancement.partial) :
  let enhanced := Enhancer.enhanceNightVision env imageData settings in
  ImageData.width enhanced = ImageData.width imageData
  /\ ImageData.height enhanced = ImageData.height imageData
  /\ length (ImageData.data enhanced) = length (ImageData.data imageData)
  /\ forall i, Enhancer.is_alpha i ->
               ImageData.data enhanced !! i = ImageData.data imageData !! i.
Proof.
  intros enhanced. split; [done|]. split; [done|].
  change (FrameFacts.same_alpha (ImageData.data imageData) (ImageData.data enhanced)).
  subst enhanced. unfold Enhancer.enhanceNightVision. cbv zeta.
  eapply same_alpha_trans; [|apply applyThermalEffect_same_alpha].
  eapply same_alpha_trans; [|apply enhanceEdges_same_alpha].
  eapply same_alpha_trans; [|apply denoiseImage_same_alpha].
  eapply same_alpha_trans; [|apply map_channels_same_alpha].
  eapply same_alpha_trans; [|apply map_channels_same_alpha].
  apply map_channels_same_alpha.
Qed.

(** ** Magnitude bounds for binary64 arithmetic

    The neutral settings multiply intermediate results by 0, which gives 0
    only for finite numbers; this section shows that the sums, products,
    quotients and square roots of the filters stay finite, by bounding their
    binary exponent. *)

Section Magnitude.
Local Open Scope Z_scope.

Lemma pow2_double k : 0 < k -> 2 ^ k = 2 * 2 ^ (k - 1).
Proof. intros Hk. rewrite <- Z.pow_succ_r by lia. f_equal. lia. Qed.

Lemma digits2_pos_bounds p :
  2 ^ (Zpos (digits2_pos p) - 1) <= Zpos p < 2 ^ Zpos (digits2_pos p).
Proof.
  induction p as [p IH|p IH|]; cbn [digits2_pos]; [| |done];
    rewrite Pos2Z.inj_succ, (pow2_double (Z.succ _)) by lia;
    replace (Z.succ (Zpos (digits2_pos p)) - 1) with (Zpos (digits2_pos p)) by lia;
    rewrite (pow2_double (Zpos (digits2_pos p))) in IH |- * by lia;
    [rewrite (Pos2Z.inj_xI p)|rewrite (Pos2Z.inj_xO p)]; lia.
Qed.

Lemma fits_digits K p e : fits K (Zpos p) e <-> Zpos (digits2_pos p) + e <= K.
Proof.
  pose proof (digits2_pos_bounds p) as [Hlo Hhi]. unfold fits. split.
  - intros (_ & He & Hm).
    assert (Hlt : 2 ^ (Zpos (digits2_pos p) - 1) < 2 ^ (K - e)) by lia.
    apply Z.pow_lt_mono_r_iff in Hlt; lia.
  - intros Hd. split; [lia|]. split; [lia|].
    eapply Z.lt_le_trans; [exact Hhi|]. apply Z.pow_le_mono_r; lia.
Qed.

Lemma fits_Zdigits2 K m e : fits K m e -> Zdigits2 m + e <= K.
Proof.
  destruct m as [|p|p]; intros H.
  - destruct H as (_ & He & _). simpl. lia.
  - by apply fits_digits.
  - destruct H as (H & _). lia.
Qed.

Lemma fits_weaken K K' m e : fits K m e -> K <= K' -> fits K' m e.
Proof.
  intros (Hm & He & Hlt) HK. split; [done|]. split; [lia|].
  eapply Z.lt_le_trans; [exact Hlt|]. apply Z.pow_le_mono_r; lia.
Qed.

Lemma sf_small_weaken K K' x : sf_small K x -> K <= K' -> sf_small K' x.
Proof. destruct x; simpl; try done. lia. Qed.

Lemma sf_small_pos_weaken K K' x : sf_small_pos K x -> K <= K' -> sf_small_pos K' x.
Proof. destruct x as [| | |[] m e]; simpl; try done. lia. Qed.

Lemma sf_small_pos_small K x : sf_small_pos K x -> sf_small K x.
Proof. destruct x as [| | |[] m e]; simpl; done. Qed.

(** One right shift halves the mantissa. *)
Lemma shr_1_halves r k :
  0 <= k -> 0 <= shr_m r < 2 ^ k ->
  0 <= shr_m (shr_1 r) < 2 ^ Z.max (k - 1) 0.
Proof.
  intros Hk [Hlo Hhi]. destruct r as [m r s]. cbn [shr_m] in *.
  assert (Hpos : 0 < 2 ^ Z.max (k - 1) 0) by (apply Z.pow_pos_nonneg; lia).
  destruct m as [|[p|p|]|p]; cbn [shr_1 shr_m]; try lia.
  - assert (0 < k) by (destruct (Z.eq_dec k 0) as [->|]; [simpl in Hhi; lia|lia]).
    rewrite pow2_double in Hhi by lia. rewrite Z.max_l by lia. lia.
  - assert (0 < k) by (destruct (Z.eq_dec k 0) as [->|]; [simpl in Hhi; lia|lia]).
    rewrite pow2_double in Hhi by lia. rewrite Z.max_l by lia. lia.
Qed.

Lemma iter_shr_1 p : forall r k k',
  0 <= k -> 0 <= shr_m r < 2 ^ k -> 0 <= k' -> k - Zpos p <= k' ->
  0 <= shr_m (SpecFloat.iter_pos shr_1 p r) < 2 ^ k'.
Proof.
  assert (Hmono : forall m a b, 0 <= m < 2 ^ a -> 0 <= a <= b -> 0 <= m < 2 ^ b).
  { intros m a b [? ?] ?. split; [done|]. eapply Z.lt_le_trans; [eassumption|].
    apply Z.pow_le_mono_r; lia. }
  induction p as [p IH|p IH|]; intros r k k' Hk Hr Hk' Hle; cbn [SpecFloat.iter_pos].
  - apply (IH _ (Z.max (Z.max (k - 1) 0 - Zpos p) 0)); [lia| |lia|lia].
    apply (IH _ (Z.max (k - 1) 0)); [lia| |lia|lia].
    by apply shr_1_halves.
  - apply (IH _ (Z.max (k - Zpos p) 0)); [lia| |lia|lia].
    apply (IH _ k); [lia|done|lia|lia].
  - apply (Hmono _ (Z.max (k - 1) 0)); [by apply shr_1_halves|lia].
Qed.

Lemma shr_record_of_loc_m m l : shr_m (shr_record_of_loc m l) = m.
Proof. by destruct l as [|[]]. Qed.

Lemma shr_fexp_fits K m e l :
  fits K m e -> -1074 <= K ->
  fits K (shr_m (fst (shr_fexp prec emax m e l))) (snd (shr_fexp prec emax m e l)).
Proof.
  intros Hfit HK. pose proof (fits_Zdigits2 _ _ _ Hfit) as Hd.
  destruct Hfit as (Hm & He & Hlt).
  unfold shr_fexp, shr, fexp, SpecFloat.emin, prec, emax.
  destruct (Z.max (Zdigits2 m + e - 53) (3 - 1024 - 53) - e) as [|p|p] eqn:Hn;
    cbn [fst snd]; rewrite ?shr_record_of_loc_m; [done| |done].
  assert (0 <= shr_m (SpecFloat.iter_pos shr_1 p (shr_record_of_loc m l)) < 2 ^ (K - (e + Zpos p))).
  { apply (iter_shr_1 p _ (K - e)); rewrite ?shr_record_of_loc_m; lia. }
  split; [lia|]. split; lia.
Qed.

Lemma round_nearest_even_cases m l :
  round_nearest_even m l = m \/ round_nearest_even m l = m + 1.
Proof. destruct l as [|[]]; simpl; auto. destruct (Z.even m); auto. Qed.

Lemma fits_succ K m e : fits K m e -> fits (K + 1) (m + 1) e.
Proof.
  intros (Hm & He & Hlt). split; [lia|]. split; [lia|].
  replace (K + 1 - e) with (Z.succ (K - e)) by lia. rewrite Z.pow_succ_r by lia. lia.
Qed.

(** Rounding a value below [2^K] gives a finite number, at most [2^K]. *)
Lemma binary_round_aux_small K s m e l :
  fits K m e -> -1074 <= K <= 971 ->
  sf_small (K + 1) (binary_round_aux prec emax s m e l)
  /\ (s = false -> sf_small_pos (K + 1) (binary_round_aux prec emax s m e l)).
Proof.
  intros Hfit HK. unfold binary_round_aux.
  pose proof (shr_fexp_fits K m e l Hfit ltac:(lia)) as H1.
  destruct (shr_fexp prec emax m e l) as [mrs1 e1]. cbn [fst snd] in H1.
  assert (H2 : fits (K + 1) (round_nearest_even (shr_m mrs1) (loc_of_shr_record mrs1)) e1).
  { destruct (round_nearest_even_cases (shr_m mrs1) (loc_of_shr_record mrs1)) as [->| ->].
    - apply (fits_weaken K); [done|lia].
    - by apply fits_succ. }
  pose proof (shr_fexp_fits (K + 1) _ e1 loc_Exact H2 ltac:(lia)) as H3.
  destruct (shr_fexp prec emax _ e1 loc_Exact) as [mrs2 e2]. cbn [fst snd] in H3.
  destruct (shr_m mrs2) as [|p|p] eqn:Hp; [done| |by destruct H3 as [? _]].
  pose proof (proj1 (fits_digits _ _ _) H3) as Hd.
  assert (He2 : (e2 <=? emax - prec) = true).
  { apply Z.leb_le. unfold emax, prec. pose proof (Pos2Z.is_pos (digits2_pos p)). lia. }
  rewrite He2. split; [done|]. by intros ->.
Qed.

End Magnitude.

Section MagnitudeOps.
Local Open Scope Z_scope.

Lemma pow2_mul_lt a b ka kb :
  0 <= a < 2 ^ ka -> 0 <= b < 2 ^ kb -> 0 <= ka -> 0 <= kb -> a * b < 2 ^ (ka + kb).
Proof.
  intros [Ha Ha'] [Hb Hb'] Hka Hkb. rewrite Z.pow_add_r by lia.
  apply Z.mul_lt_mono_nonneg; lia.
Qed.

Lemma fits_mul Kx Ky mx my ex ey :
  fits Kx (Zpos mx) ex -> fits Ky (Zpos my) ey ->
  fits (Kx + Ky) (Zpos (mx * my)) (ex + ey).
Proof.
  intros (_ & Hex & Hmx) (_ & Hey & Hmy). split; [lia|]. split; [lia|].
  rewrite Pos2Z.inj_mul. replace (Kx + Ky - (ex + ey)) with ((Kx - ex) + (Ky - ey)) by lia.
  apply pow2_mul_lt; lia.
Qed.

Lemma SFmul_small Kx Ky x y :
  sf_small Kx x -> sf_small Ky y -> -1074 <= Kx + Ky <= 971 ->
  sf_small (Kx + Ky + 1) (SFmul prec emax x y).
Proof.
  destruct x as [sx|sx| |sx mx ex], y as [sy|sy| |sy my ey]; try done.
  cbn [sf_small SFmul]. intros Hx Hy HK.
  apply binary_round_aux_small; [|done].
  apply fits_mul; by apply fits_digits.
Qed.

Lemma SFmul_square_small K x :
  sf_small K x -> -1074 <= K + K <= 971 ->
  sf_small_pos (K + K + 1) (SFmul prec emax x x).
Proof.
  destruct x as [sx|sx| |sx mx ex]; try done.
  cbn [sf_small SFmul]. intros Hx HK.
  apply binary_round_aux_small; [|done|by destruct sx].
  apply fits_mul; by apply fits_digits.
Qed.

Lemma iter_xO m d : Zpos (Pos.iter xO m d) = Zpos m * 2 ^ Zpos d.
Proof.
  induction d as [|d IH] using Pos.peano_ind.
  - simpl. lia.
  - rewrite Pos.iter_succ, Pos2Z.inj_xO, IH, Pos2Z.inj_succ, Z.pow_succ_r by lia. lia.
Qed.

Lemma shl_align_spec m e e' :
  Zpos (fst (shl_align m e e')) = Zpos m * 2 ^ (e - snd (shl_align m e e'))
  /\ snd (shl_align m e e') = Z.min e e'.
Proof.
  unfold shl_align. destruct (e' - e) as [|d|d] eqn:Hd; cbn [fst snd].
  - rewrite Z.sub_diag. simpl. lia.
  - rewrite Z.sub_diag. simpl. lia.
  - rewrite iter_xO. split; [f_equal; f_equal; lia|lia].
Qed.

Lemma fits_shl_align K m e e' :
  fits K (Zpos m) e ->
  fits K (Zpos (fst (shl_align m e e'))) (snd (shl_align m e e')).
Proof.
  intros (_ & He & Hm). destruct (shl_align_spec m e e') as [Hv Hs].
  split; [lia|]. split; [lia|]. rewrite Hv.
  replace (K - snd (shl_align m e e')) with ((K - e) + (e - snd (shl_align m e e'))) by lia.
  rewrite Z.pow_add_r by lia. apply Z.mul_lt_mono_pos_r; [|done].
  apply Z.pow_pos_nonneg; lia.
Qed.

Lemma binary_round_small K s m e :
  fits K (Zpos m) e -> -1074 <= K <= 971 ->
  sf_small (K + 1) (binary_round prec emax s m e)
  /\ (s = false -> sf_small_pos (K + 1) (binary_round prec emax s m e)).
Proof.
  intros Hfit HK. unfold binary_round.
  pose proof (fits_shl_align K m e (fexp prec emax (Zpos (digits2_pos m) + e)) Hfit) as H.
  destruct (shl_align _ _ _) as [mz ez]. by apply binary_round_aux_small.
Qed.

Lemma binary_normalize_small K v e :
  fits K (Z.abs v) e -> -1074 <= K <= 971 ->
  sf_small (K + 1) (binary_normalize prec emax v e false)
  /\ (0 <= v -> sf_small_pos (K + 1) (binary_normalize prec emax v e false)).
Proof.
  intros Hfit HK. destruct v as [|p|p]; cbn [binary_normalize Z.abs] in *; [done|..].
  - destruct (binary_round_small K false p e Hfit HK) as [H1 H2]. auto.
  - split; [by apply binary_round_small|lia].
Qed.

Lemma fits_add Kx Ky mx my ex ey (sx sy : bool) :
  fits Kx (Zpos mx) ex -> fits Ky (Zpos my) ey ->
  let ez := Z.min ex ey in
  fits (Z.max Kx Ky + 1)
    (Z.abs (cond_Zopp sx (Zpos (fst (shl_align mx ex ez)))
            + cond_Zopp sy (Zpos (fst (shl_align my ey ez))))) ez.
Proof.
  intros Hx Hy ez.
  pose proof (fits_shl_align Kx mx ex ez Hx) as Hx'.
  pose proof (fits_shl_align Ky my ey ez Hy) as Hy'.
  destruct (shl_align_spec mx ex ez) as [_ Hsx]. destruct (shl_align_spec my ey ez) as [_ Hsy].
  rewrite Hsx in Hx'. rewrite Hsy in Hy'.
  replace (Z.min ex ez) with ez in Hx' by (subst ez; lia).
  replace (Z.min ey ez) with ez in Hy' by (subst ez; lia).
  apply (fits_weaken _ (Z.max Kx Ky)) in Hx'; [|lia].
  apply (fits_weaken _ (Z.max Kx Ky)) in Hy'; [|lia].
  destruct Hx' as (_ & He & Hmx), Hy' as (_ & _ & Hmy).
  split; [lia|]. split; [lia|].
  replace (Z.max Kx Ky + 1 - ez) with (Z.succ (Z.max Kx Ky - ez)) by lia.
  rewrite Z.pow_succ_r by lia.
  destruct sx, sy; cbn [cond_Zopp]; lia.
Qed.

Lemma SFadd_small Kx Ky x y :
  sf_small Kx x -> sf_small Ky y -> -1074 <= Z.max Kx Ky + 1 <= 971 ->
  sf_small (Z.max Kx Ky + 2) (SFadd prec emax x y).
Proof.
  destruct x as [sx|sx| |sx mx ex], y as [sy|sy| |sy my ey]; try done.
  - by destruct sx, sy.
  - cbn [sf_small SFadd]. lia.
  - cbn [sf_small SFadd]. lia.
  - cbn [sf_small SFadd]. intros Hx Hy HK.
    replace (Z.max Kx Ky + 2) with (Z.max Kx Ky + 1 + 1) by lia.
    apply binary_normalize_small; [|done].
    apply fits_add; by apply fits_digits.
Qed.

Lemma SFadd_small_pos Kx Ky x y :
  sf_small_pos Kx x -> sf_small_pos Ky y -> -1074 <= Z.max Kx Ky + 1 <= 971 ->
  sf_small_pos (Z.max Kx Ky + 2) (SFadd prec emax x y).
Proof.
  destruct x as [sx|sx| |[] mx ex], y as [sy|sy| |[] my ey]; try done.
  - by destruct sx, sy.
  - cbn [sf_small_pos SFadd]. lia.
  - cbn [sf_small_pos SFadd]. lia.
  - cbn [sf_small_pos SFadd]. intros Hx Hy HK.
    replace (Z.max Kx Ky + 2) with (Z.max Kx Ky + 1 + 1) by lia.
    apply binary_normalize_small; [|done|cbn [cond_Zopp]; lia].
    apply fits_add; by apply fits_digits.
Qed.

End MagnitudeOps.

Section MagnitudeDivSqrt.
Local Open Scope Z_scope.

Lemma SFdiv_small Kx x sy my ey :
  sf_small Kx x -> -1074 <= Kx - ey <= 971 ->
  sf_small (Kx - ey + 1) (SFdiv prec emax x (S754_finite sy my ey)).
Proof.
  destruct x as [sx|sx| |sx mx ex]; try done.
  cbn [sf_small SFdiv]. intros Hx HK. apply fits_digits in Hx as (_ & Hex & Hmx).
  unfold SFdiv_core_binary.
  set (e' := Z.min _ (ex - ey)).
  assert (He' : e' <= ex - ey) by (subst e'; lia).
  set (m' := match ex - ey - e' with Z0 => Zpos mx | Zpos _ => Z.shiftl (Zpos mx) (ex - ey - e') | Zneg _ => 0 end).
  assert (Hm' : 0 <= m' < 2 ^ (Kx - ey - e')).
  { subst m'. destruct (ex - ey - e') as [|s|s] eqn:Hs; [| |lia].
    - replace (Kx - ey - e') with (Kx - ex) by lia. lia.
    - rewrite Z.shiftl_mul_pow2 by lia. split; [lia|].
      replace (Kx - ey - e') with ((Kx - ex) + Zpos s) by lia.
      rewrite Z.pow_add_r by lia. apply Z.mul_lt_mono_pos_r; [|done].
      apply Z.pow_pos_nonneg; lia. }
  pose proof (Z_div_mod m' (Zpos my) ltac:(lia)) as Hdiv.
  destruct (Z.div_eucl m' (Zpos my)) as [q r]. destruct Hdiv as [Hq Hr].
  apply binary_round_aux_small; [|done].
  split; [nia|]. split; [lia|]. nia.
Qed.

Lemma SFsqrt_small K x :
  sf_small_pos K x -> -1074 <= (K + 1) / 2 <= 971 ->
  sf_small_pos ((K + 1) / 2 + 1) (SFsqrt prec emax x).
Proof.
  destruct x as [sx|sx| |[] mx ex]; try done.
  cbn [sf_small_pos SFsqrt]. intros Hx HK. apply fits_digits in Hx as (_ & Hex & Hmx).
  unfold SFsqrt_core_binary.
  set (e' := Z.min _ (Z.div2 ex)).
  assert (He' : 2 * e' <= ex).
  { assert (e' <= Z.div2 ex) by (subst e'; lia). rewrite Z.div2_div in H.
    pose proof (Z.mul_div_le ex 2 ltac:(lia)). lia. }
  set (m' := match ex - 2 * e' with Z0 => Zpos mx | Zpos _ => Z.shiftl (Zpos mx) (ex - 2 * e') | Zneg _ => 0 end).
  assert (Hm' : 0 <= m' < 2 ^ (K - 2 * e')).
  { subst m'. destruct (ex - 2 * e') as [|s|s] eqn:Hs; [| |lia].
    - replace (K - 2 * e') with (K - ex) by lia. lia.
    - rewrite Z.shiftl_mul_pow2 by lia. split; [lia|].
      replace (K - 2 * e') with ((K - ex) + Zpos s) by lia.
      rewrite Z.pow_add_r by lia. apply Z.mul_lt_mono_pos_r; [|done].
      apply Z.pow_pos_nonneg; lia. }
  pose proof (Z.sqrtrem_spec m' ltac:(lia)) as Hsq.
  destruct (Z.sqrtrem m') as [q r]. destruct Hsq as [Hq Hr].
  pose proof (Z.mul_div_le (K + 1) 2 ltac:(lia)) as Hhalf.
  pose proof (Z.mod_pos_bound (K + 1) 2 ltac:(lia)) as Hmod.
  pose proof (Z.div_mod (K + 1) 2 ltac:(lia)) as Hdm.
  apply binary_round_aux_small; [|done|done].
  split; [lia|]. split; [lia|].
  destruct (Z.lt_ge_cases q (2 ^ ((K + 1) / 2 - e'))) as [Hlt|Hge]; [done|exfalso].
  assert (Hsqr : 2 ^ ((K + 1) / 2 - e') * 2 ^ ((K + 1) / 2 - e') <= q * q).
  { apply Z.mul_le_mono_nonneg; try lia; apply Z.pow_nonneg; lia. }
  rewrite <- Z.pow_add_r in Hsqr by lia.
  assert (Hle : 2 ^ (K - 2 * e') <= 2 ^ ((K + 1) / 2 - e' + ((K + 1) / 2 - e'))).
  { apply Z.pow_le_mono_r; lia. }
  lia.
Qed.

End MagnitudeDivSqrt.

(** The same bounds on the primitive operations. *)

Section SmallFloats.
Local Open Scope Z_scope.

Lemma small_weaken K K' x : small K x -> K <= K' -> small K' x.
Proof. apply sf_small_weaken. Qed.

Lemma small_pos_small K x : small_pos K x -> small K x.
Proof. apply sf_small_pos_small. Qed.

Lemma small_mul Kx Ky x y :
  small Kx x -> small Ky y -> -1074 <= Kx + Ky <= 971 -> small (Kx + Ky + 1) (x * y)%float.
Proof. unfold small. rewrite mul_spec. apply SFmul_small. Qed.

Lemma small_square K x :
  small K x -> -1074 <= K + K <= 971 -> small_pos (K + K + 1) (x * x)%float.
Proof. unfold small, small_pos. rewrite mul_spec. apply SFmul_square_small. Qed.

Lemma small_add Kx Ky x y :
  small Kx x -> small Ky y -> -1074 <= Z.max Kx Ky + 1 <= 971 ->
  small (Z.max Kx Ky + 2) (x + y)%float.
Proof. unfold small. rewrite add_spec. apply SFadd_small. Qed.

Lemma small_pos_add Kx Ky x y :
  small_pos Kx x -> small_pos Ky y -> -1074 <= Z.max Kx Ky + 1 <= 971 ->
  small_pos (Z.max Kx Ky + 2) (x + y)%float.
Proof. unfold small_pos. rewrite add_spec. apply SFadd_small_pos. Qed.

Lemma small_div Kx x y sy my ey :
  small Kx x -> Prim2SF y = S754_finite sy my ey -> -1074 <= Kx - ey <= 971 ->
  small (Kx - ey + 1) (x / y)%float.
Proof. unfold small. rewrite div_spec. intros Hx ->. by apply SFdiv_small. Qed.

Lemma small_sqrt K x :
  small_pos K x -> -1074 <= (K + 1) / 2 <= 971 -> small_pos ((K + 1) / 2 + 1) (sqrt x).
Proof. unfold small_pos. rewrite sqrt_spec. apply SFsqrt_small. Qed.

(** A small number times 0 is a zero. *)
Lemma small_mul_zero K x : small K x -> exists s, Prim2SF (x * 0)%float = S754_zero s.
Proof.
  unfold small. rewrite mul_spec. change (Prim2SF 0%float) with (S754_zero false).
  destruct (Prim2SF x) as [s|s| |s m e]; try done; intros _; by eexists.
Qed.

(** A byte value plus a zero is the byte value. *)
Lemma of_byte_add_zero (b : byte) (z : float) s :
  Prim2SF z = S754_zero s -> (JS.of_byte b + z)%float = JS.of_byte b.
Proof.
  intros Hz. apply Prim2SF_inj. rewrite add_spec, Hz. by destruct s, b.
Qed.

Lemma small_of_byte (b : byte) : small 8 (JS.of_byte b).
Proof. destruct b; by vm_compute. Qed.

End SmallFloats.

(** ** The frame enhancer at the neutral settings *)

Section Neutral.
Local Open Scope float_scope.

Lemma fold_left_fixed {A B : Type} (f : A -> B -> A) (l : list B) (d : A) :
  (forall b, In b l -> f d b = d) -> fold_left f l d = d.
Proof.
  induction l as [|b l IH]; intros H; [done|]. cbn [fold_left].
  rewrite (H b) by (by left). apply IH. intros b' Hb'. apply H. by right.
Qed.

Lemma clamp_of_byte (b : byte) : JS.ToUint8Clamp (JS.of_byte b) = b.
Proof. destruct b; by vm_compute. Qed.

(** A store of the value the cell already holds changes nothing. *)
Lemma store_id (data : list byte) (i : nat) (v : float) :
  (forall b, data !! i = Some b -> JS.ToUint8Clamp v = b) ->
  ImageProcessor.store data i v = data.
Proof.
  intros H. unfold ImageProcessor.store. destruct (data !! i) as [b|] eqn:E.
  - apply list_insert_id. by rewrite (H b eq_refl).
  - apply list_insert_ge. by apply lookup_ge_None.
Qed.

Lemma store_cell_id (f : float -> float) (data : list byte) (i : nat) :
  (forall b, JS.ToUint8Clamp (f (JS.of_byte b)) = b) ->
  ImageProcessor.store data i (f (ImageProcessor.cell data i)) = data.
Proof.
  intros Hf. apply store_id. intros b Hb. unfold ImageProcessor.cell. by rewrite Hb.
Qed.

Lemma map_channels_id (f : float -> float) (data : list byte) :
  (forall b, JS.ToUint8Clamp (f (JS.of_byte b)) = b) ->
  ImageProcessor.map_channels f data = data.
Proof.
  intros Hf. unfold ImageProcessor.map_channels. apply fold_left_fixed. intros i _.
  by rewrite !store_cell_id.
Qed.

Lemma image_eta (img : ImageData.t) :
  {| ImageData.data := ImageData.data img; ImageData.width := ImageData.width img;
     ImageData.height := ImageData.height img |} = img.
Proof. by destruct img. Qed.

(** Brightness 1: [min(255, v * 1)] stores [v] back. *)
Lemma adjustBrightness_one img : ImageProcessor.adjustBrightness img 1 = img.
Proof.
  unfold ImageProcessor.adjustBrightness. rewrite map_channels_id; [apply image_eta|].
  intros b. destruct b; by vm_compute.
Qed.

(** Contrast 1: the stretch factor is [259 * 255 / (255 * 259) = 1]. *)
Lemma adjustContrast_one img : ImageProcessor.adjustContrast img 1 = img.
Proof.
  unfold ImageProcessor.adjustContrast. cbv zeta. rewrite map_channels_id; [apply image_eta|].
  intros b. destruct b; by vm_compute.
Qed.

(** Gamma 1: [255 * (v / 255) ^ 1] rounds back to [v] when stored. *)
Lemma adjustGamma_one env img : ImageProcessor.adjustGamma env img 1 = img.
Proof.
  unfold ImageProcessor.adjustGamma. cbv zeta. rewrite map_channels_id; [apply image_eta|].
  intros b. destruct b; by vm_compute.
Qed.

Lemma small_cell_lt (data : list byte) (i : nat) :
  (i < length data)%nat -> small 8 (ImageProcessor.cell data i).
Proof.
  intros Hi. unfold ImageProcessor.cell.
  destruct (lookup_lt_is_Some_2 data i Hi) as [b ->]. apply small_of_byte.
Qed.

Lemma in_inner (y size : nat) : In y (ImageProcessor.inner size) -> (1 <= y /\ y + 1 < size)%nat.
Proof. unfold ImageProcessor.inner. rewrite in_seq. lia. Qed.

Lemma pixel_in_range (w h row col k : nat) :
  (row < h)%nat -> (col < w)%nat -> (k < 4)%nat ->
  ((row * w + col) * 4 + k < 4 * (w * h))%nat.
Proof. intros Hr Hc Hk. nia. Qed.

Lemma pixel_in_range0 (w h row col : nat) :
  (row < h)%nat -> (col < w)%nat -> ((row * w + col) * 4 < 4 * (w * h))%nat.
Proof. intros Hr Hc. nia. Qed.

End Neutral.

(** Bounds the magnitude of an arithmetic expression over cells in range
    and literals; the exponent bound is computed from the leaves up. *)
Ltac small_leaf Hwf :=
  first
    [ apply small_cell_lt; rewrite Hwf;
      first [apply pixel_in_range; lia | apply pixel_in_range0; lia]
    | lazymatch goal with |- small ?K _ => unify K 10%Z end; by vm_compute ].

Ltac small_expr Hwf :=
  lazymatch goal with
  | |- small _ (_ + _)%float =>
      eapply small_add; [small_expr Hwf | small_expr Hwf | by vm_compute]
  | |- small _ (_ * _)%float =>
      eapply small_mul; [small_expr Hwf | small_expr Hwf | by vm_compute]
  | |- small _ _ => small_leaf Hwf
  end.

Section NeutralFilters.
Local Open Scope float_scope.

Lemma kernel_sum_small (img : ImageData.t) (y x c : nat) :
  ImageData.wf img ->
  In y (ImageProcessor.inner (ImageData.height img)) ->
  In x (ImageProcessor.inner (ImageData.width img)) ->
  In c ImageProcessor.channels ->
  small 40 (ImageProcessor.kernel_sum (ImageData.data img) (ImageData.width img) y x c).
Proof.
  intros Hwf Hy%in_inner Hx%in_inner Hc%channel_le. unfold ImageData.wf in Hwf.
  unfold ImageProcessor.kernel_sum, ImageProcessor.taps.
  cbn [fold_left ImageProcessor.weight ImageProcessor.kernel lookup list_lookup].
  eapply small_weaken; [small_expr Hwf|by vm_compute].
Qed.

Lemma of_byte_mul_one (b : byte) : (JS.of_byte b * 1) = JS.of_byte b.
Proof. by destruct b. Qed.

Lemma clamp_min_of_byte (b : byte) : JS.ToUint8Clamp (JS.Math_min 255 (JS.of_byte b)) = b.
Proof. destruct b; by vm_compute. Qed.

(** Noise reduction 0: the blend [v * (1 - 0) + filtered * 0] is [v], the
    filtered value being finite. *)
Lemma denoiseImage_zero img : ImageData.wf img -> ImageProcessor.denoiseImage img 0 = img.
Proof.
  intros Hwf. destruct img as [data w h]. unfold ImageProcessor.denoiseImage.
  cbn [ImageData.data ImageData.width ImageData.height]. f_equal.
  apply fold_left_fixed. intros y Hy. apply fold_left_fixed. intros x Hx.
  apply fold_left_fixed. intros c Hc.
  apply store_id. intros b Hb. unfold ImageProcessor.cell at 1. rewrite Hb.
  change (1 - 0) with 1. rewrite of_byte_mul_one.
  pose proof (kernel_sum_small _ y x c Hwf Hy Hx Hc) as Hsum.
  cbn [ImageData.data ImageData.width] in Hsum.
  assert (Hdiv : small 89 (ImageProcessor.kernel_sum data w y x c / ImageProcessor.kernelWeight)).
  { by apply (small_div 40 _ _ false 4503599627370496%positive (-48)%Z). }
  destruct (small_mul_zero _ _ Hdiv) as [s Hz].
  rewrite (of_byte_add_zero b _ s Hz). apply clamp_of_byte.
Qed.

Lemma luminance_small (img : ImageData.t) (row col : nat) :
  ImageData.wf img -> (row < ImageData.height img)%nat -> (col < ImageData.width img)%nat ->
  small 24 (ImageProcessor.luminance (ImageData.data img) ((row * ImageData.width img + col) * 4)).
Proof.
  intros Hwf Hr Hc. unfold ImageData.wf in Hwf. unfold ImageProcessor.luminance.
  eapply small_weaken; [small_expr Hwf|by vm_compute].
Qed.

Lemma gradient_small (img : ImageData.t) (y x : nat) :
  ImageData.wf img ->
  In y (ImageProcessor.inner (ImageData.height img)) ->
  In x (ImageProcessor.inner (ImageData.width img)) ->
  small 60 (fst (ImageProcessor.gradient (ImageData.data img) (ImageData.width img) y x))
  /\ small 60 (snd (ImageProcessor.gradient (ImageData.data img) (ImageData.width img) y x)).
Proof.
  intros Hwf Hy%in_inner Hx%in_inner.
  unfold ImageProcessor.gradient, ImageProcessor.taps.
  cbn [fold_left ImageProcessor.weight ImageProcessor.sobelX ImageProcessor.sobelY
       lookup list_lookup fst snd].
  assert (Hlum : forall ky kx, (ky <= 2)%nat -> (kx <= 2)%nat ->
            small 24 (ImageProcessor.luminance (ImageData.data img)
                        (((y + ky - 1) * ImageData.width img + (x + kx - 1)) * 4))).
  { intros ky kx Hky Hkx. apply luminance_small; [done|lia..]. }
  pose proof (Hlum 0%nat 0%nat ltac:(lia) ltac:(lia)) as H00.
  pose proof (Hlum 0%nat 1%nat ltac:(lia) ltac:(lia)) as H01.
  pose proof (Hlum 0%nat 2%nat ltac:(lia) ltac:(lia)) as H02.
  pose proof (Hlum 1%nat 0%nat ltac:(lia) ltac:(lia)) as H10.
  pose proof (Hlum 1%nat 1%nat ltac:(lia) ltac:(lia)) as H11.
  pose proof (Hlum 1%nat 2%nat ltac:(lia) ltac:(lia)) as H12.
  pose proof (Hlum 2%nat 0%nat ltac:(lia) ltac:(lia)) as H20.
  pose proof (Hlum 2%nat 1%nat ltac:(lia) ltac:(lia)) as H21.
  pose proof (Hlum 2%nat 2%nat ltac:(lia) ltac:(lia)) as H22.
  clear Hlum.
  split; (eapply small_weaken; [|shelve]);
    repeat first
      [ eassumption
      | eapply small_add; [| |shelve]
      | eapply small_mul; [| |shelve]
      | lazymatch goal with |- small ?K _ => unify K 10%Z end; by vm_compute ].
  Unshelve. all: by vm_compute.
Qed.

(** Edge enhancement 0: [min(255, v + magnitude * 0)] is [v], the gradient
    magnitude being finite. *)
Lemma enhanceEdges_zero img : ImageData.wf img -> ImageProcessor.enhanceEdges img 0 = img.
Proof.
  intros Hwf. destruct img as [data w h]. unfold ImageProcessor.enhanceEdges.
  cbn [ImageData.data ImageData.width ImageData.height]. f_equal.
  apply fold_left_fixed. intros y Hy. apply fold_left_fixed. intros x Hx.
  destruct (gradient_small _ y x Hwf Hy Hx) as [Hgx Hgy].
  cbn [ImageData.data ImageData.width] in Hgx, Hgy.
  destruct (ImageProcessor.gradient _ _ _ _) as [gx gy]. cbn [fst snd] in Hgx, Hgy.
  assert (Hmag : small 70 (sqrt (gx * gx + gy * gy))).
  { apply small_pos_small. eapply sf_small_pos_weaken; [apply small_sqrt|].
    - apply small_pos_add; [apply small_square|apply small_square|]; [done|by vm_compute..].
    - by vm_compute.
    - by vm_compute. }
  destruct (small_mul_zero _ _ Hmag) as [s Hz].
  apply fold_left_fixed. intros c Hc.
  apply store_id. intros b Hb. unfold ImageProcessor.cell. rewrite Hb.
  rewrite (of_byte_add_zero b _ s Hz). apply clamp_min_of_byte.
Qed.

End NeutralFilters.

(** C5: on every frame (a buffer of 4 * width * height cells), at
    brightness 1, contrast 1, gamma 1, noise reduction 0 and edge enhancement
    0, the enhancer returns exactly the thermal remap of the input frame, and
    each of the five adjustable stages returns the frame it is given. *)
Theorem enhanceNightVision_neutral env (imageData : ImageData.t) :
  ImageData.wf imageData ->
  Enhancer.enhanceNightVision env imageData Enhancer.neutral
  = ImageProcessor.applyThermalEffect imageData
  /\ ImageProcessor.adjustBrightness imageData 1 = imageData
  /\ ImageProcessor.adjustContrast imageData 1 = imageData
  /\ ImageProcessor.adjustGamma env imageData 1 = imageData
  /\ ImageProcessor.denoiseImage imageData 0 = imageData
  /\ ImageProcessor.enhanceEdges imageData 0 = imageData.
Proof.
  intros Hwf. split.
  - unfold Enhancer.enhanceNightVision. cbv zeta.
    change (NightVisionEnhancement.brightness_of (Enhancer.merge Enhancer.neutral)) with 1%float.
    change (NightVisionEnhancement.contrast_of (Enhancer.merge Enhancer.neutral)) with 1%float.
    change (NightVisionEnhancement.gamma_of (Enhancer.merge Enhancer.neutral)) with 1%float.
    change (NightVisionEnhancement.noiseReduction_of (Enhancer.merge Enhancer.neutral)) with 0%float.
    change (NightVisionEnhancement.edgeEnhancement_of (Enhancer.merge Enhancer.neutral)) with 0%float.
    rewrite image_eta, adjustBrightness_one, adjustContrast_one, adjustGamma_one.
    by rewrite denoiseImage_zero, enhanceEdges_zero.
  - repeat split.
    + apply adjustBrightness_one.
    + apply adjustContrast_one.
    + apply adjustGamma_one.
    + by apply denoiseImage_zero.
    + by apply enhanceEdges_zero.
Qed.

Lemma enhanceNightVision_neutral_witness :
  ImageData.wf example_frame3
  /\ Enhancer.enhanceNightVision example_env example_frame3 Enhancer.neutral
     = ImageProcessor.applyThermalEffect example_frame3.
Proof.
  assert (Hwf : ImageData.wf example_frame3) by reflexivity.
  split; [exact Hwf|].
  exact (proj1 (enhanceNightVision_neutral example_env example_frame3 Hwf)).
Defined.

(** ** The mapping engine: what insertion and pruning keep *)

Section InsertionSize.
Context (env : Env).

Lemma addPoint_size (mapPoints : list MapPoint3D.t) (point : MapPoint3D.t) :
  (length mapPoints <= length (SLAMProcessor.addPoint env mapPoints point) <= S (length mapPoints))%nat
  /\ forall p, p ∈ SLAMProcessor.addPoint env mapPoints point -> p ∈ mapPoints \/ p = point.
Proof.
  destruct (addPoint_outcome env mapPoints point) as [_|i best _ _ _|i best Hi _ _].
  - rewrite length_app. cbn [length]. split; [lia|].
    intros p. rewrite elem_of_app, list_elem_of_singleton. tauto.
  - split; [lia|]. auto.
  - rewrite length_insert. split; [lia|]. intros p Hp.
    apply list_elem_of_lookup in Hp as [k Hk].
    destruct (decide (k = i)) as [->|Hne].
    + rewrite list_lookup_insert_eq in Hk by (by eapply lookup_lt_Some). right. by injection Hk.
    + rewrite list_lookup_insert_ne in Hk by done. left. apply list_elem_of_lookup. by exists k.
Qed.

End InsertionSize.

Lemma addPointsToMap_bounds env (newPoints mapPoints : list MapPoint3D.t) :
  let result := SLAMProcessor.addPointsToMap env newPoints mapPoints in
  (length mapPoints <= length result <= length mapPoints + length newPoints)%nat
  /\ forall p, p ∈ result -> p ∈ mapPoints \/ p ∈ newPoints.
Proof.
  cbv zeta. unfold SLAMProcessor.addPointsToMap.
  revert mapPoints. induction newPoints as [|point rest IH]; intros mapPoints.
  - cbn [fold_left length]. split; [lia|auto].
  - cbn [fold_left length].
    destruct (addPoint_size env mapPoints point) as [Hlen Hin].
    destruct (IH (SLAMProcessor.addPoint env mapPoints point)) as [Hlen' Hin'].
    split; [lia|]. intros p Hp. destruct (Hin' p Hp) as [H|H].
    + destruct (Hin p H) as [?| ->]; [by left|right; by left].
    + right. by right.
Qed.

(** X1: [addPointsToMap] never shrinks the map and grows it by at most one
    entry per new point; every entry of the result is an entry of the prior
    map or one of the new points. *)
Theorem addPointsToMap_size env (newPoints mapPoints : list MapPoint3D.t) :
  let result := SLAMProcessor.addPointsToMap env newPoints mapPoints in
  (length mapPoints <= length result <= length mapPoints + length newPoints)%nat
  /\ forall p, p ∈ result -> p ∈ mapPoints \/ p ∈ newPoints.
Proof. apply addPointsToMap_bounds. Qed.

Section Pruning.

Lemma filter_filter_id {A : Type} (f : A -> bool) (l : list A) :
  List.filter f (List.filter f l) = List.filter f l.
Proof.
  apply filter_all. intros x Hx. by apply list_elem_of_In, filter_In in Hx as [_ Hx].
Qed.

Lemma pruned_all now (points : list MapPoint3D.t) p :
  p ∈ SLAMProcessor.pruned now points -> SLAMProcessor.fresh_and_confident now p = true.
Proof.
  unfold SLAMProcessor.pruned. intros Hp.
  assert (Hk : p ∈ List.filter (SLAMProcessor.fresh_and_confident now) points).
  { destruct (SLAMProcessor.maxPoints <? _)%nat; [|done].
    apply subseteq_take in Hp. by rewrite sort_Permutation in Hp. }
  by apply list_elem_of_In, filter_In in Hk as [_ Hk].
Qed.

Lemma pruned_idempotent now (points : list MapPoint3D.t) :
  SLAMProcessor.pruned now (SLAMProcessor.pruned now points) = SLAMProcessor.pruned now points.
Proof.
  apply pruned_id; [apply pruned_all|apply pruned_length].
Qed.

End Pruning.

(** X2: after [optimizeMap], run when the clock reads [now], every map point
    is a prior map point younger than 30 seconds ([now - timestamp < 30000])
    and of confidence above 0.3; at most 10,000 are left; landmarks,
    trajectory and pose are untouched; and pruning again at the same clock
    reading removes nothing more. *)
Theorem optimizeMap_postcondition env (this : SLAMProcessor.t) (w : World) :
  let now := Date_now env (clock_reads w) in
  let after := fst (SLAMProcessor.optimizeMap env this w) in
  (forall p, p ∈ SLAMProcessor.mapPoints after ->
     p ∈ SLAMProcessor.mapPoints this
     /\ (now - MapPoint3D.timestamp p <? 30000)%float = true
     /\ (0.3 <? MapPoint3D.confidence p)%float = true)
  /\ (length (SLAMProcessor.mapPoints after) <= 10000)%nat
  /\ SLAMProcessor.pruned now (SLAMProcessor.mapPoints after) = SLAMProcessor.mapPoints after
  /\ SLAMProcessor.landmarks after = SLAMProcessor.landmarks this
  /\ SLAMProcessor.trajectory after = SLAMProcessor.trajectory this
  /\ SLAMProcessor.lastPosition after = SLAMProcessor.lastPosition this.
Proof.
  intros now after. subst after. rewrite optimizeMap_spec. cbn [fst SLAMProcessor.mapPoints
    SLAMProcessor.landmarks SLAMProcessor.trajectory SLAMProcessor.lastPosition].
  fold now. split; [|split; [apply pruned_length|split; [apply pruned_idempotent|done]]].
  intros p Hp. split; [by eapply pruned_subset|].
  apply pruned_all in Hp. unfold SLAMProcessor.fresh_and_confident in Hp.
  by apply andb_true_iff in Hp.
Qed.

(** ** The mapping engine: the projection of the depth samples *)

Section Projection.
Context (env : Env).

Lemma convertDepthTo3D_from imageData (this : SLAMProcessor.t) (depthPoints : list DepthPoint.t) :
  forall (acc : list MapPoint3D.t) (w : World),
    let result :=
      fold_left
        (fun '(points, w) depthPoint =>
           let '(p, w) :=
             SLAMProcessor.convertDepthPoint env imageData (SLAMProcessor.lastPosition this)
               depthPoint w in
           (points ++ [p], w))
        depthPoints (acc, w) in
    fst result
    = acc ++ imap (fun i depthPoint =>
                     fst (SLAMProcessor.convertDepthPoint env imageData
                            (SLAMProcessor.lastPosition this) depthPoint
                            {| clock_reads := clock_reads w + i;
                               random_draws := random_draws w |})) depthPoints
    /\ snd result = {| clock_reads := clock_reads w + length depthPoints;
                       random_draws := random_draws w |}.
Proof.
  induction depthPoints as [|d rest IH]; intros acc w.
  - cbn. rewrite app_nil_r, Nat.add_0_r. by destruct w.
  - cbn [fold_left imap length].
    assert (Hstep : SLAMProcessor.convertDepthPoint env imageData (SLAMProcessor.lastPosition this) d w
                    = (fst (SLAMProcessor.convertDepthPoint env imageData
                              (SLAMProcessor.lastPosition this) d
                              {| clock_reads := clock_reads w + 0;
                                 random_draws := random_draws w |}),
                       {| clock_reads := S (clock_reads w); random_draws := random_draws w |})).
    { rewrite Nat.add_0_r. unfold SLAMProcessor.convertDepthPoint.
      destruct (SLAMProcessor.lastPosition this) as [[p0 p1] p2]. by destruct w. }
    rewrite Hstep. cbv zeta in IH.
    destruct (IH (acc ++ [fst (SLAMProcessor.convertDepthPoint env imageData
                                 (SLAMProcessor.lastPosition this) d
                                 {| clock_reads := clock_reads w + 0;
                                    random_draws := random_draws w |})])
                 {| clock_reads := S (clock_reads w); random_draws := random_draws w |})
      as [IH1 IH2].
    split.
    + rewrite IH1, <- app_assoc. cbn [app clock_reads random_draws]. do 2 f_equal.
      apply imap_ext. intros i x _. cbn. do 2 f_equal. f_equal. lia.
    + rewrite IH2. cbn [clock_reads random_draws]. f_equal. lia.
Qed.

End Projection.

Lemma convertDepthTo3D_lookup env (depthPoints : list DepthPoint.t)
    (imageData : ImageData.t) (this : SLAMProcessor.t) (w : World) :
  let result := SLAMProcessor.convertDepthTo3D env depthPoints imageData this w in
  length (fst result) = length depthPoints
  /\ (forall i depthPoint, depthPoints !! i = Some depthPoint ->
        exists point, fst result !! i = Some point
          /\ MapPoint3D.confidence point = DepthPoint.confidence depthPoint
          /\ MapPoint3D.z point
             = (snd (SLAMProcessor.lastPosition this) + DepthPoint.depth depthPoint)%float
          /\ MapPoint3D.timestamp point = Date_now env (clock_reads w + i))
  /\ clock_reads (snd result) = (clock_reads w + length depthPoints)%nat
  /\ random_draws (snd result) = random_draws w.
Proof.
  intros result. subst result. unfold SLAMProcessor.convertDepthTo3D.
  destruct (convertDepthTo3D_from env imageData this depthPoints [] w) as [H1 H2].
  cbv zeta in H1, H2. rewrite H1, H2. cbn [app clock_reads random_draws].
  split; [by rewrite length_imap|]. split; [|done].
  intros i d Hd. rewrite list_lookup_imap, Hd. cbn [fmap option_fmap option_map].
  eexists. split; [reflexivity|].
  unfold SLAMProcessor.convertDepthPoint.
  by destruct (SLAMProcessor.lastPosition this) as [[p0 p1] p2].
Qed.

(** X3: [convertDepthTo3D] yields one map point per depth sample, in the
    order of the samples; the point carries the sample's confidence, its
    depth added to the camera's z as its z, and the clock reading taken at
    its turn as its timestamp. The call reads the clock once per sample and
    draws no random number. *)
Theorem convertDepthTo3D_pointwise env (depthPoints : list DepthPoint.t)
    (imageData : ImageData.t) (this : SLAMProcessor.t) (w : World) :
  let result := SLAMProcessor.convertDepthTo3D env depthPoints imageData this w in
  length (fst result) = length depthPoints
  /\ (forall i depthPoint, depthPoints !! i = Some depthPoint ->
        exists point, fst result !! i = Some point
          /\ MapPoint3D.confidence point = DepthPoint.confidence depthPoint
          /\ MapPoint3D.z point
             = (snd (SLAMProcessor.lastPosition this) + DepthPoint.depth depthPoint)%float
          /\ MapPoint3D.timestamp point = Date_now env (clock_reads w + i))
  /\ clock_reads (snd result) = (clock_reads w + length depthPoints)%nat
  /\ random_draws (snd result) = random_draws w.
Proof. apply convertDepthTo3D_lookup. Qed.

(** ** The mapping engine: the state after a frame *)

Section AfterFrame.
Context (env : Env).

Lemma updateTrajectory_pose movement (this : SLAMProcessor.t) (w : World) :
  let after := fst (SLAMProcessor.updateTrajectory env movement this w) in
  SLAMProcessor.lastPosition after
  = Trajectory.position (SLAMProcessor.pushed_sample env movement this w).
Proof.
  unfold SLAMProcessor.updateTrajectory, SLAMProcessor.pushed_sample.
  destruct movement as [[m0 m1] m2]. by destruct (SLAMProcessor.lastPosition this) as [[l0 l1] l2].
Qed.

Lemma last_kept {A : Type} (l : list A) (x : A) :
  last (if (1000 <? length (l ++ [x]))%nat then List.tl (l ++ [x]) else l ++ [x]) = Some x.
Proof.
  destruct (1000 <? length (l ++ [x]))%nat eqn:E; [|apply last_snoc].
  destruct l as [|a l]; [by cbn in E|]. cbn [app List.tl]. apply last_snoc.
Qed.

(** The fields of the state one [processFrame] call leaves. *)
Lemma processFrame_state imageData depthPoints motionVector (this : SLAMProcessor.t) (w : World) :
  let result := SLAMProcessor.processFrame env imageData depthPoints motionVector this w in
  let after := snd (fst result) in
  exists movement w1 w2 new3DPoints,
    fst (fst result) = SLAMProcessor.getCurrentMap after
    /\ SLAMProcessor.mapPoints after
       = SLAMProcessor.pruned (Date_now env (clock_reads w2))
           (SLAMProcessor.addPointsToMap env new3DPoints (SLAMProcessor.mapPoints this))
    /\ SLAMProcessor.lastPosition after
       = Trajectory.position (SLAMProcessor.pushed_sample env movement this w1)
    /\ last (Trajectory.points (SLAMProcessor.trajectory after))
       = Some (SLAMProcessor.pushed_sample env movement this w1)
    /\ new3DPoints
       = fst (SLAMProcessor.convertDepthTo3D env depthPoints imageData
                (fst (SLAMProcessor.updateTrajectory env movement this w1))
                (snd (SLAMProcessor.updateTrajectory env movement this w1))).
Proof.
  cbv zeta. rewrite processFrame_stages. cbv zeta. cbn [fst snd].
  set (mw := SLAMProcessor.estimateCameraMovement env motionVector w).
  destruct (updateTrajectory_spec env (fst mw) this (snd mw)) as (Hm & _ & Ht & _).
  pose proof (updateTrajectory_pose (fst mw) this (snd mw)) as Hpose. cbv zeta in Hpose.
  set (tw := SLAMProcessor.updateTrajectory env (fst mw) this (snd mw)) in *.
  set (pw := SLAMProcessor.convertDepthTo3D env depthPoints imageData (fst tw) (snd tw)).
  set (inserted := SLAMProcessor.Build_t _ _ _ _).
  destruct (detectLandmarks_spec env (fst pw) inserted (snd pw)) as (Hmap & Htraj & Hlast & _).
  set (lw := SLAMProcessor.detectLandmarks env (fst pw) inserted (snd pw)) in *.
  rewrite optimizeMap_spec.
  cbn [fst snd SLAMProcessor.mapPoints SLAMProcessor.trajectory SLAMProcessor.lastPosition].
  exists (fst mw), (snd mw), (snd lw), (fst pw).
  split; [done|]. split; [by rewrite Hmap, <- Hm|]. split; [by rewrite Hlast|].
  split; [|done]. rewrite Htraj. cbn [inserted SLAMProcessor.trajectory]. rewrite Ht.
  apply last_kept.
Qed.

End AfterFrame.

(** X4: after every [processFrame] call each map point has a confidence
    above 0.3 and is a prior map point or carries the confidence of one of
    the frame's depth samples; the snapshot returned lists as many points
    and landmarks as the engine holds. *)
Theorem processFrame_postcondition env imageData depthPoints motionVector
    (this : SLAMProcessor.t) (w : World) :
  let result := SLAMProcessor.processFrame env imageData depthPoints motionVector this w in
  let snapshot := fst (fst result) in
  let after := snd (fst result) in
  (forall p, p ∈ SLAMProcessor.mapPoints after ->
     (0.3 <? MapPoint3D.confidence p)%float = true
     /\ (p ∈ SLAMProcessor.mapPoints this
         \/ exists depthPoint, depthPoint ∈ depthPoints
              /\ MapPoint3D.confidence p = DepthPoint.confidence depthPoint))
  /\ length (SpatialMap.points_of snapshot) = length (SLAMProcessor.mapPoints after)
  /\ length (SpatialMap.landmarks snapshot) = length (SLAMProcessor.landmarks after).
Proof.
  intros result snapshot after.
  destruct (processFrame_state env imageData depthPoints motionVector this w)
    as (movement & w1 & w2 & new3DPoints & Hsnap & Hmap & _ & _ & Hnew).
  fold result in Hsnap, Hmap. fold after in Hsnap, Hmap. fold snapshot in Hsnap.
  split.
  - intros p Hp. rewrite Hmap in Hp. split.
    { apply pruned_all in Hp. unfold SLAMProcessor.fresh_and_confident in Hp.
      by apply andb_true_iff in Hp as [_ Hp]. }
    apply pruned_subset in Hp.
    apply (addPointsToMap_bounds env) in Hp as [Hp|Hp]; [by left|right].
    apply list_elem_of_lookup in Hp as [i Hi].
    pose proof (convertDepthTo3D_lookup env depthPoints imageData
                  (fst (SLAMProcessor.updateTrajectory env movement this w1))
                  (snd (SLAMProcessor.updateTrajectory env movement this w1))) as Hc.
    cbv zeta in Hc. rewrite <- Hnew in Hc. destruct Hc as (Hlen & Hpt & _).
    assert (Hlt : (i < length depthPoints)%nat) by (rewrite <- Hlen; by eapply lookup_lt_Some).
    destruct (lookup_lt_is_Some_2 depthPoints i Hlt) as [d Hd].
    destruct (Hpt i d Hd) as (q & Hq & Hconf & _).
    rewrite Hi in Hq. injection Hq as <-.
    exists d. split; [|done]. apply list_elem_of_lookup. by exists i.
  - rewrite Hsnap. unfold SLAMProcessor.getCurrentMap.
    cbn [SpatialMap.points_of SpatialMap.landmarks]. by rewrite !length_map.
Qed.

(** X5: in every state the engine can reach, the camera pose is the
    position of the last trajectory sample; a reachable state whose
    trajectory is empty is the fresh state, with the pose at the origin. *)
Theorem reachable_pose env (this : SLAMProcessor.t) :
  SLAMProcessor.reachable env this ->
  match last (Trajectory.points (SLAMProcessor.trajectory this)) with
  | Some sample => Trajectory.position sample = SLAMProcessor.lastPosition this
  | None => this = SLAMProcessor.initial
  end.
Proof.
  induction 1 as [|imageData depthPoints motionVector this w _ _|this _ _]; [done| |done].
  destruct (processFrame_state env imageData depthPoints motionVector this w)
    as (movement & w1 & w2 & new3DPoints & _ & _ & Hpose & Hlast & _).
  by rewrite Hlast, Hpose.
Qed.

Lemma reachable_pose_witness :
  let this :=
    snd (fst (SLAMProcessor.processFrame example_env example_frame
                [example_sample 0 0 0.5] (Some (1, 2, 3)%float) SLAMProcessor.initial world0)) in
  SLAMProcessor.lastPosition this = (0.01, 0.02, 0.03)%float
  /\ match last (Trajectory.points (SLAMProcessor.trajectory this)) with
     | Some sample => Trajectory.position sample = SLAMProcessor.lastPosition this
     | None => this = SLAMProcessor.initial
     end.
Proof.
  intros this. split; [by vm_compute|].
  apply (reachable_pose example_env this).
  apply SLAMProcessor.reachable_processFrame, SLAMProcessor.reachable_new.
Defined.

(** X6: [generateBoundaries] reports at most one boundary, a "floor" made of
    more than 10 and at most 100 positions, each the position of a map point
    lying more than 0.5 below the camera ([y < cameraY - 0.5]). *)
Theorem generateBoundaries_floor (this : SLAMProcessor.t) :
  SLAMProcessor.generateBoundaries this = []
  \/ exists b,
       SLAMProcessor.generateBoundaries this = [b]
       /\ SpatialMap.btype b = "floor"%string
       /\ (10 < length (SpatialMap.points b) <= 100)%nat
       /\ forall v, v ∈ SpatialMap.points b ->
            exists p, p ∈ SLAMProcessor.mapPoints this
              /\ v = (MapPoint3D.x p, MapPoint3D.y p, MapPoint3D.z p)
              /\ (MapPoint3D.y p <? snd (fst (SLAMProcessor.lastPosition this)) - 0.5)%float = true.
Proof.
  unfold SLAMProcessor.generateBoundaries.
  destruct (SLAMProcessor.lastPosition this) as [[l0 l1] l2]. cbn [fst snd].
  set (floorPoints := firstn 100 _).
  destruct (10 <? length floorPoints)%nat eqn:E; [right|by left].
  eexists. split; [reflexivity|]. cbn [SpatialMap.btype SpatialMap.points].
  split; [done|]. rewrite length_map. apply Nat.ltb_lt in E.
  split; [split; [done|subst floorPoints; rewrite length_take; lia]|].
  intros v Hv. apply list_elem_of_In, in_map_iff in Hv as (p & <- & Hp).
  exists p. apply list_elem_of_In in Hp. subst floorPoints. apply subseteq_take in Hp.
  apply list_elem_of_In, filter_In in Hp as [Hp Hy]. split; [by apply list_elem_of_In|done].
Qed.

(** ** The mapping engine: clusters *)

Section Clusters.
Context (env : Env).

Lemma fold_left_invariant {A B : Type} (P : A -> Prop) (f : A -> B -> A) (l : list B) (a : A) :
  P a -> (forall acc x, In x l -> P acc -> P (f acc x)) -> P (fold_left f l a).
Proof.
  revert a. induction l as [|x l IH]; intros a Ha Hf; [done|]. cbn [fold_left].
  apply IH; [apply Hf; [by left|done]|]. intros acc y Hy. apply Hf. by right.
Qed.

Lemma unvisited_within_In points visited center threshold e :
  In e (SLAMProcessor.unvisited_within env points visited center threshold) ->
  In e (imap pair points).
Proof. unfold SLAMProcessor.unvisited_within. rewrite filter_In. tauto. Qed.

Lemma expandCluster_members point points threshold visited :
  In point (imap pair points) ->
  Forall (fun e => In e (imap pair points))
    (fst (SLAMProcessor.expandCluster env point points threshold visited)).
Proof.
  intros Hpoint. unfold SLAMProcessor.expandCluster.
  apply (fold_left_invariant
           (fun cv : list (nat * MapPoint3D.t) * gset nat =>
              Forall (fun e => In e (imap pair points)) (fst cv))).
  - cbn [fst]. by constructor.
  - intros [cluster vis] neighbor Hn Hc. cbn [fst] in Hc.
    apply unvisited_within_In in Hn.
    apply (fold_left_invariant
             (fun cv : list (nat * MapPoint3D.t) * gset nat =>
                Forall (fun e => In e (imap pair points)) (fst cv))).
    + cbn [fst]. apply Forall_app. split; [done|by constructor].
    + intros [cluster' vis'] sub Hs Hc'. cbn [fst] in Hc'.
      apply list_elem_of_In in Hs. apply subseteq_take in Hs. apply list_elem_of_In in Hs.
      apply unvisited_within_In in Hs.
      destruct (bool_decide _); cbn [fst]; [done|].
      apply Forall_app. split; [done|by constructor].
Qed.

End Clusters.

(** X7: every cluster [clusterPoints] returns has more than 5 entries, and
    each entry is one of the points it was given. *)
Theorem clusterPoints_members env (points : list MapPoint3D.t) (cluster : list MapPoint3D.t) :
  cluster ∈ SLAMProcessor.clusterPoints env points ->
  (5 < length cluster)%nat /\ forall p, p ∈ cluster -> p ∈ points.
Proof.
  revert cluster. apply Forall_forall. unfold SLAMProcessor.clusterPoints. cbv zeta.
  apply (fold_left_invariant
           (fun cv : list (list MapPoint3D.t) * gset nat =>
              Forall (fun cluster : list MapPoint3D.t =>
                        (5 < length cluster)%nat /\ forall p, p ∈ cluster -> p ∈ points)
                (fst cv))).
  - by constructor.
  - intros [clusters visited] point Hpoint Hc. cbn [fst] in Hc.
    destruct (bool_decide _); [done|].
    pose proof (expandCluster_members env point points 0.1%float visited Hpoint) as Hm.
    destruct (SLAMProcessor.expandCluster env point points 0.1%float visited) as [cluster vis].
    cbn [fst] in Hm.
    destruct (5 <? length cluster)%nat eqn:E; cbn [fst]; [|done].
    apply Forall_app. split; [done|]. constructor; [|done].
    split; [rewrite length_map; by apply Nat.ltb_lt|].
    intros p Hp. apply list_elem_of_In, in_map_iff in Hp as ([i q] & <- & Hq).
    apply list_elem_of_In in Hq. apply (proj1 (Forall_forall _ _) Hm) in Hq.
    apply list_elem_of_In in Hq.
    apply elem_of_lookup_imap in Hq as (k & y & [= -> ->] & Hk).
    apply list_elem_of_lookup. by exists k.
Qed.

Lemma clusterPoints_members_witness :
  exists cluster,
    cluster ∈ SLAMProcessor.clusterPoints example_env example_cloud
    /\ (5 < length cluster)%nat /\ forall p, p ∈ cluster -> p ∈ example_cloud.
Proof.
  assert (H : exists cluster, SLAMProcessor.clusterPoints example_env example_cloud = [cluster]).
  { eexists. vm_compute. reflexivity. }
  destruct H as [cluster H]. exists cluster.
  assert (Hin : cluster ∈ SLAMProcessor.clusterPoints example_env example_cloud)
    by (rewrite H; apply list_elem_of_here).
  split; [exact Hin|]. exact (clusterPoints_members example_env example_cloud cluster Hin).
Defined.

(** ** Comparisons, [Math.min] and [Math.max] *)

Section MinMax.
Local Open Scope float_scope.

Lemma Prim2SF_nan (x : float) : is_nan x = true -> Prim2SF x = S754_nan.
Proof. intros H. unfold Prim2SF. by rewrite H. Qed.

Lemma ltb_nan_r (x y : float) : is_nan y = true -> (x <? y) = false.
Proof.
  intros H. rewrite ltb_spec, (Prim2SF_nan y H). unfold SFltb. by destruct (Prim2SF x).
Qed.

Lemma ltb_nan_l (x y : float) : is_nan x = true -> (x <? y) = false.
Proof. intros H. by rewrite ltb_spec, (Prim2SF_nan x H). Qed.

(** [Math.min(a, b)] is never above [a] nor above [b]. *)
Lemma Math_min_le_l (a b : float) : (a <? JS.Math_min a b) = false.
Proof.
  unfold JS.Math_min. destruct (is_nan a || is_nan b) eqn:Hnan; [by apply ltb_nan_r|].
  apply orb_false_iff in Hnan as [Ha Hb].
  destruct (a <? b) eqn:Hab; [apply ltb_irrefl|].
  destruct (b <? a) eqn:Hba; [done|].
  destruct (get_sign a); [apply ltb_irrefl|done].
Qed.

Lemma Math_min_le_r (a b : float) : (b <? JS.Math_min a b) = false.
Proof.
  unfold JS.Math_min. destruct (is_nan a || is_nan b) eqn:Hnan; [by apply ltb_nan_r|].
  apply orb_false_iff in Hnan as [Ha Hb].
  destruct (a <? b) eqn:Hab; [by apply ltb_asym|].
  destruct (b <? a) eqn:Hba; [apply ltb_irrefl|].
  destruct (get_sign a); [done|apply ltb_irrefl].
Qed.

(** [Math.max(a, b)] is never below [a] nor below [b]. *)
Lemma Math_max_ge_l (a b : float) : (JS.Math_max a b <? a) = false.
Proof.
  unfold JS.Math_max. destruct (is_nan a || is_nan b) eqn:Hnan; [by apply ltb_nan_l|].
  apply orb_false_iff in Hnan as [Ha Hb].
  destruct (a <? b) eqn:Hab; [by apply ltb_asym|].
  destruct (b <? a) eqn:Hba; [apply ltb_irrefl|].
  destruct (get_sign a); [done|apply ltb_irrefl].
Qed.

Lemma Math_max_ge_r (a b : float) : (JS.Math_max a b <? b) = false.
Proof.
  unfold JS.Math_max. destruct (is_nan a || is_nan b) eqn:Hnan; [by apply ltb_nan_l|].
  apply orb_false_iff in Hnan as [Ha Hb].
  destruct (a <? b) eqn:Hab; [apply ltb_irrefl|].
  destruct (b <? a) eqn:Hba; [done|].
  destruct (get_sign a); [apply ltb_irrefl|done].
Qed.

(** [Math.min] and [Math.max] return one of their arguments, or NaN. *)
Lemma Math_min_cases (a b : float) :
  JS.Math_min a b = a \/ JS.Math_min a b = b \/ JS.Math_min a b = nan.
Proof.
  unfold JS.Math_min. destruct (_ || _); [auto|].
  destruct (a <? b); [auto|]. destruct (b <? a); [auto|]. destruct (get_sign a); auto.
Qed.

Lemma Math_max_cases (a b : float) :
  JS.Math_max a b = a \/ JS.Math_max a b = b \/ JS.Math_max a b = nan.
Proof.
  unfold JS.Math_max. destruct (_ || _); [auto|].
  destruct (a <? b); [auto|]. destruct (b <? a); [auto|]. destruct (get_sign a); auto.
Qed.

End MinMax.

(** ** The order of the numbers *)

Section Order.
Local Open Scope float_scope.

(** A comparison that holds compares two numbers. *)
Lemma ltb_true_number (x y : float) :
  (x <? y) = true -> is_nan x = false /\ is_nan y = false.
Proof.
  intros H. split.
  - destruct (is_nan x) eqn:E; [|done]. by rewrite ltb_nan_l in H.
  - destruct (is_nan y) eqn:E; [|done]. by rewrite ltb_nan_r in H.
Qed.

Lemma ltb_trans (x y z : float) : (x <? y) = true -> (y <? z) = true -> (x <? z) = true.
Proof.
  intros Hxy Hyz.
  destruct (ltb_true_number x y Hxy) as [Hx Hy]. destruct (ltb_true_number y z Hyz) as [_ Hz].
  rewrite ltb_key in * by done.
  destruct (sf_key (Prim2SF x)) as [[? ?] ?], (sf_key (Prim2SF y)) as [[? ?] ?],
    (sf_key (Prim2SF z)) as [[? ?] ?]. unfold key_lt in *. lia.
Qed.

Lemma SFleb_key x y :
  x <> S754_nan -> y <> S754_nan ->
  SFleb x y = true <-> ~ key_lt (sf_key y) (sf_key x).
Proof.
  intros Hx Hy. unfold SFleb.
  destruct x as [sx|sx| |sx mx ex], y as [sy|sy| |sy my ey]; try done;
    repeat match goal with s : bool |- _ => destruct s end;
    cbn [SFcompare sf_key key_lt];
    try change (Pos.compare_cont Eq mx my) with (Pos.compare mx my);
    try (destruct (Z.compare_spec ex ey), (Pos.compare_spec mx my));
    cbn [CompOpp];
    try (intuition (try discriminate; try lia)).
  all: try (subst; lia).
Qed.

Lemma leb_key (x y : float) :
  is_nan x = false -> is_nan y = false ->
  (x <=? y) = true <-> ~ key_lt (sf_key (Prim2SF y)) (sf_key (Prim2SF x)).
Proof. intros Hx Hy. rewrite leb_spec. by apply SFleb_key; apply Prim2SF_number. Qed.

(** Of two numbers, one that is not above the other is below it or equal. *)
Lemma leb_of_not_ltb (x y : float) :
  is_nan x = false -> is_nan y = false -> (x <? y) = false -> (y <=? x) = true.
Proof.
  intros Hx Hy H. apply leb_key; [done..|]. apply not_true_iff_false in H.
  by rewrite ltb_key in H.
Qed.

Lemma ltb_leb (x y : float) : (x <? y) = true -> (x <=? y) = true.
Proof.
  intros H. destruct (ltb_true_number x y H) as [Hx Hy].
  apply leb_of_not_ltb; [done..|]. by apply ltb_asym.
Qed.

Lemma leb_nan_l (x y : float) : is_nan x = true -> (x <=? y) = false.
Proof. intros H. by rewrite leb_spec, (Prim2SF_nan x H). Qed.

End Order.

(** ** Results that are never negative *)

Section NotNegative.
Local Open Scope float_scope.

Lemma notneg_not_lt_zero (x : float) : notneg x -> (x <? 0) = false.
Proof.
  unfold notneg. rewrite ltb_spec. change (Prim2SF 0) with (S754_zero false).
  destruct (Prim2SF x) as [s|s| |s m e]; cbn; try done; by intros ->.
Qed.

Lemma notneg_abs (x : float) : notneg (abs x).
Proof. unfold notneg. rewrite abs_spec. by destruct (Prim2SF x). Qed.

Lemma binary_round_aux_notneg m e l : sf_notneg (binary_round_aux prec emax false m e l).
Proof.
  unfold binary_round_aux.
  destruct (shr_fexp prec emax m e l) as [mrs1 e1].
  destruct (shr_fexp prec emax _ e1 loc_Exact) as [mrs2 e2].
  destruct (shr_m mrs2); [done| |done]. by destruct (e2 <=? emax - prec)%Z.
Qed.

Lemma binary_normalize_notneg v e :
  (0 <= v)%Z -> sf_notneg (binary_normalize prec emax v e false).
Proof.
  destruct v as [|p|p]; [done| |lia]. intros _. cbn [binary_normalize]. unfold binary_round.
  destruct (shl_align _ _ _) as [mz ez]. apply binary_round_aux_notneg.
Qed.

Lemma SFadd_notneg x y : sf_notneg x -> sf_notneg y -> sf_notneg (SFadd prec emax x y).
Proof.
  destruct x as [sx|sx| |sx mx ex], y as [sy|sy| |sy my ey]; cbn [sf_notneg];
    try done; try (intros -> ->; done).
  intros -> ->. cbn [SFadd cond_Zopp]. apply binary_normalize_notneg. lia.
Qed.

Lemma SFdiv_notneg x y : sf_notneg x -> sf_notneg y -> sf_notneg (SFdiv prec emax x y).
Proof.
  destruct x as [sx|sx| |sx mx ex], y as [sy|sy| |sy my ey]; cbn [sf_notneg];
    try done; try (intros -> ->; done).
  intros -> ->. cbn [SFdiv xorb].
  destruct (SFdiv_core_binary _ _ _ _ _ _) as [[mz ez] lz]. apply binary_round_aux_notneg.
Qed.

Lemma notneg_add (x y : float) : notneg x -> notneg y -> notneg (x + y).
Proof. unfold notneg. rewrite add_spec. apply SFadd_notneg. Qed.

Lemma notneg_div (x y : float) : notneg x -> notneg y -> notneg (x / y).
Proof. unfold notneg. rewrite div_spec. apply SFdiv_notneg. Qed.

Lemma notneg_of_nat (n : nat) : notneg (JS.of_nat n).
Proof.
  unfold notneg, JS.of_nat. rewrite of_uint63_spec.
  apply binary_normalize_notneg. apply Uint63.to_Z_bounded.
Qed.

Lemma notneg_sum_abs (xs : list float) (acc : float) :
  notneg acc -> Forall notneg xs -> notneg (fold_left add xs acc).
Proof.
  revert acc. induction xs as [|x xs IH]; intros acc Hacc Hxs; [done|].
  cbn [fold_left]. apply Forall_cons in Hxs as [Hx Hxs]. apply IH; [by apply notneg_add|done].
Qed.

Lemma consecutive_abs_diffs_notneg (depths : list float) :
  Forall notneg (Analysis3D.consecutive_abs_diffs depths).
Proof.
  induction depths as [|a [|b rest] IH]; [by constructor..|].
  cbn [Analysis3D.consecutive_abs_diffs]. constructor; [apply notneg_abs|done].
Qed.

End NotNegative.

(** ** The morphology analyzer: the range of its scores *)

(** X8: the complexity score of any list of depth samples is never below 0
    and never above 1. *)
Theorem calculateComplexity_range (depthPoints : list DepthPoint.t) :
  (Analysis3D.calculateComplexity depthPoints <? 0)%float = false
  /\ (1 <? Analysis3D.calculateComplexity depthPoints)%float = false.
Proof.
  unfold Analysis3D.calculateComplexity.
  destruct (length depthPoints <? 2)%nat eqn:E; [done|].
  split; [|apply Math_min_le_l].
  destruct depthPoints as [|d0 ps]; [done|].
  cbn [length Nat.sub]. rewrite Nat.sub_0_r, (complexity_loop ps d0 0%float).
  set (v := (fold_left add _ 0 / _)%float).
  assert (Hv : notneg v).
  { apply notneg_div; [|apply notneg_of_nat].
    apply notneg_sum_abs; [done|apply consecutive_abs_diffs_notneg]. }
  destruct (Math_min_cases 1 v) as [-> | [-> | ->]]; [done|by apply notneg_not_lt_zero|done].
Qed.

(** X9: the symmetry score is never below 0, and it is 0 when no sample
    lies left of the bounding box's vertical midline or none lies right of
    it. *)
Theorem calculateSymmetry_range (depthPoints : list DepthPoint.t) (bbox : BBox.t) :
  let centerX := (BBox.x bbox + BBox.width bbox / 2)%float in
  (Analysis3D.calculateSymmetry depthPoints bbox <? 0)%float = false
  /\ ((forall p, p ∈ depthPoints -> (DepthPoint.x p <? centerX)%float = false) ->
      Analysis3D.calculateSymmetry depthPoints bbox = 0%float)
  /\ ((forall p, p ∈ depthPoints -> (centerX <? DepthPoint.x p)%float = false) ->
      Analysis3D.calculateSymmetry depthPoints bbox = 0%float).
Proof.
  intros centerX. unfold Analysis3D.calculateSymmetry. fold centerX.
  assert (Hnone : forall f : DepthPoint.t -> bool,
            (forall p, p ∈ depthPoints -> f p = false) -> List.filter f depthPoints = []).
  { intros f Hf. induction depthPoints as [|p ps IH]; [done|]. cbn [List.filter].
    rewrite Hf by set_solver. apply IH. intros q Hq. apply Hf. set_solver. }
  split; [|split].
  - destruct (_ || _); [done|]. apply Math_max_ge_l.
  - intros H. by rewrite (Hnone _ H).
  - intros H. rewrite (Hnone (fun p => (centerX <? DepthPoint.x p)%float) H).
    by rewrite orb_true_r.
Qed.

(** X10: an object whose bounding box holds none of the depth samples gets
    the default profile: its own identity, the shape "indefinido", and 0 for
    the volume, the surface area, the three dimensions, the complexity and the
    symmetry. *)
Theorem analyzeMorphology_no_samples (object : DetectedObject.t) (depthPoints : list DepthPoint.t) :
  (forall p, p ∈ depthPoints -> Analysis3D.inside (DetectedObject.bbox object) p = false) ->
  Analysis3D.analyzeMorphology object depthPoints
  = {| MorphologyAnalysis.objectId := DetectedObject.id object;
       MorphologyAnalysis.volume := 0;
       MorphologyAnalysis.surfaceArea := 0;
       MorphologyAnalysis.dimensions :=
         {| MorphologyAnalysis.width := 0; MorphologyAnalysis.height := 0;
            MorphologyAnalysis.depth := 0 |};
       MorphologyAnalysis.shape := "indefinido";
       MorphologyAnalysis.complexity := 0;
       MorphologyAnalysis.symmetry := 0 |}.
Proof.
  intros H. unfold Analysis3D.analyzeMorphology.
  assert (Hnone : List.filter (Analysis3D.inside (DetectedObject.bbox object)) depthPoints = []).
  { induction depthPoints as [|p ps IH]; [done|]. cbn [List.filter].
    rewrite H by set_solver. apply IH. intros q Hq. apply H. set_solver. }
  by rewrite Hnone.
Qed.

Lemma analyzeMorphology_no_samples_witness :
  MorphologyAnalysis.shape
    (Analysis3D.analyzeMorphology (example_object "obj_1" "mesa" 100 100)
       [example_sample 300 300 0.5; example_sample 10 100 0.2])
  = "indefinido"%string.
Proof.
  rewrite (analyzeMorphology_no_samples (example_object "obj_1" "mesa" 100 100)
             [example_sample 300 300 0.5; example_sample 10 100 0.2]); [reflexivity|].
  intros p Hp. apply list_elem_of_In in Hp.
  destruct Hp as [<-|[<-|[]]]; by vm_compute.
Defined.

(** ** The object tracker: what it leaves alone *)

Lemma tracked_as_fields env previousObjects (newObj : DetectedObject.t) :
  let t := Tracker.tracked_as env previousObjects newObj in
  DetectedObject.label t = DetectedObject.label newObj
  /\ DetectedObject.confidence t = DetectedObject.confidence newObj
  /\ DetectedObject.bbox t = DetectedObject.bbox newObj
  /\ DetectedObject.center t = DetectedObject.center newObj
  /\ DetectedObject.area t = DetectedObject.area newObj
  /\ DetectedObject.timestamp t = DetectedObject.timestamp newObj
  /\ (DetectedObject.id t = DetectedObject.id newObj
      \/ exists p, p ∈ previousObjects
                   /\ DetectedObject.id t = DetectedObject.id p
                   /\ DetectedObject.label p = DetectedObject.label newObj).
Proof.
  cbv zeta. unfold Tracker.tracked_as.
  destruct (List.find _ _) as [s|] eqn:Hfind; [|by auto 10].
  cbn. repeat split. right. exists s.
  destruct (find_first _ _ _ Hfind) as (j & Hj & Hs & _).
  split; [by eapply list_elem_of_lookup_2|]. split; [done|].
  unfold Tracker.similar in Hs. apply andb_true_iff in Hs as [Hs _].
  by apply String.eqb_eq in Hs.
Qed.

Lemma trackObjects_lookup env enableTracking (newObjects previousObjects : list DetectedObject.t) :
  Tracker.trackObjects env enableTracking newObjects previousObjects = newObjects
  \/ Tracker.trackObjects env enableTracking newObjects previousObjects
     = List.map (Tracker.tracked_as env previousObjects) newObjects.
Proof.
  unfold Tracker.trackObjects. destruct (_ || _); [by left|right]. by rewrite fold_left_push.
Qed.

Lemma trackObjects_fields env enableTracking
    (newObjects previousObjects : list DetectedObject.t) :
  let tracked := Tracker.trackObjects env enableTracking newObjects previousObjects in
  length tracked = length newObjects
  /\ (forall i newObj, newObjects !! i = Some newObj ->
        exists t, tracked !! i = Some t
          /\ DetectedObject.label t = DetectedObject.label newObj
          /\ DetectedObject.confidence t = DetectedObject.confidence newObj
          /\ DetectedObject.bbox t = DetectedObject.bbox newObj
          /\ DetectedObject.center t = DetectedObject.center newObj
          /\ DetectedObject.area t = DetectedObject.area newObj
          /\ DetectedObject.timestamp t = DetectedObject.timestamp newObj
          /\ (DetectedObject.id t = DetectedObject.id newObj
              \/ exists p, p ∈ previousObjects
                           /\ DetectedObject.id t = DetectedObject.id p
                           /\ DetectedObject.label p = DetectedObject.label newObj))
  /\ (enableTracking = false \/ previousObjects = [] -> tracked = newObjects).
Proof.
  intros tracked. subst tracked. split; [|split].
  - destruct (trackObjects_lookup env enableTracking newObjects previousObjects) as [-> | ->];
      [done|by rewrite length_map].
  - intros i newObj Hi.
    destruct (trackObjects_lookup env enableTracking newObjects previousObjects) as [-> | ->].
    + exists newObj. by auto 10.
    + exists (Tracker.tracked_as env previousObjects newObj). split.
      * change (List.map ?f ?l) with (f <$> l). by rewrite list_lookup_fmap, Hi.
      * apply tracked_as_fields.
  - unfold Tracker.trackObjects. intros [-> | ->]; [done|]. by rewrite orb_true_r.
Qed.

(** X11: whatever the previous list and the tracking switch, the tracked
    list has one entry per new object, in order, equal to it in label,
    confidence, box, centre, area and timestamp; the identity is the
    object's own or that of a previous object of the same label. With
    tracking off, or with no previous object, the new objects come back
    as they are. *)
Theorem trackObjects_only_identities env enableTracking
    (newObjects previousObjects : list DetectedObject.t) :
  let tracked := Tracker.trackObjects env enableTracking newObjects previousObjects in
  length tracked = length newObjects
  /\ (forall i newObj, newObjects !! i = Some newObj ->
        exists t, tracked !! i = Some t
          /\ DetectedObject.label t = DetectedObject.label newObj
          /\ DetectedObject.confidence t = DetectedObject.confidence newObj
          /\ DetectedObject.bbox t = DetectedObject.bbox newObj
          /\ DetectedObject.center t = DetectedObject.center newObj
          /\ DetectedObject.area t = DetectedObject.area newObj
          /\ DetectedObject.timestamp t = DetectedObject.timestamp newObj
          /\ (DetectedObject.id t = DetectedObject.id newObj
              \/ exists p, p ∈ previousObjects
                           /\ DetectedObject.id t = DetectedObject.id p
                           /\ DetectedObject.label p = DetectedObject.label newObj))
  /\ (enableTracking = false \/ previousObjects = [] -> tracked = newObjects).
Proof. apply trackObjects_fields. Qed.

(** ** The detection hook *)

Section DetectionHook.
Context (env : Env).

Lemma calculatePerformanceMetrics_history state processingTime ref w :
  let ref' := snd (fst (UseAIDetection.calculatePerformanceMetrics env state processingTime ref w)) in
  (length (UseAIDetection.fpsHistory ref') <= Nat.max 30 (length (UseAIDetection.fpsHistory ref)))%nat
  /\ (UseAIDetection.frameCount ref <= UseAIDetection.frameCount ref'
      <= S (UseAIDetection.frameCount ref))%nat.
Proof.
  cbv zeta. unfold UseAIDetection.calculatePerformanceMetrics.
  destruct (0 <? _)%float; cbn [fst snd UseAIDetection.fpsHistory UseAIDetection.frameCount];
    [|lia].
  split; [|lia]. destruct (30 <? _)%nat eqn:E.
  - destruct (UseAIDetection.fpsHistory ref) as [|h hs]; cbn [app List.tl length].
    + lia.
    + rewrite length_app. cbn [length]. lia.
  - apply Nat.ltb_ge in E. lia.
Qed.

Lemma filteredObjects_spec config (detectedObjects : list DetectedObject.t) :
  let filtered := UseAIDetection.filteredObjects config detectedObjects in
  (length filtered <= UseAIDetection.maxObjects config)%nat
  /\ (length filtered <= length detectedObjects)%nat
  /\ forall o, o ∈ filtered ->
       o ∈ detectedObjects
       /\ (UseAIDetection.confidenceThreshold config <=? DetectedObject.confidence o)%float = true.
Proof.
  cbv zeta. unfold UseAIDetection.filteredObjects. split; [|split].
  - rewrite length_take. lia.
  - rewrite length_take. pose proof (List.filter_length_le
      (fun obj => UseAIDetection.confidenceThreshold config <=? DetectedObject.confidence obj)%float
      detectedObjects). lia.
  - intros o Ho. apply subseteq_take in Ho. apply list_elem_of_In, filter_In in Ho as [H1 H2].
    split; [by apply list_elem_of_In|done].
Qed.

End DetectionHook.

(** X12: one frame of the detection hook. When the detector resolves, the
    returned list is also the list stored in the state; it has at most
    [maxObjects] entries, and each entry has the label, box and confidence
    of a detected object whose confidence is not below the threshold. When
    the detector throws, the returned list is empty, the stored objects,
    statistics and counters stay as they were and the error message is
    recorded. In both cases [isProcessing] ends false. *)
Theorem detection_processFrame_postcondition env config detectObjects
    (state : UseAIDetection.AIDetectionState) (ref : UseAIDetection.performanceRef) (w : World) :
  let '(returned, state', ref', _) :=
    UseAIDetection.processFrame env config (Some detectObjects) state ref w in
  UseAIDetection.isProcessing state' = false
  /\ UseAIDetection.isEnabled state' = UseAIDetection.isEnabled state
  /\ match fst (detectObjects (tick w)) with
     | UseAIDetection.resolved detectedObjects =>
         UseAIDetection.objects state' = returned
         /\ UseAIDetection.error state' = None
         /\ (length returned <= UseAIDetection.maxObjects config)%nat
         /\ (length returned <= length detectedObjects)%nat
         /\ forall t, t ∈ returned ->
              exists o, o ∈ detectedObjects
                /\ (UseAIDetection.confidenceThreshold config <=? DetectedObject.confidence o)%float = true
                /\ DetectedObject.label t = DetectedObject.label o
                /\ DetectedObject.bbox t = DetectedObject.bbox o
                /\ DetectedObject.confidence t = DetectedObject.confidence o
     | UseAIDetection.thrown message =>
         returned = []
         /\ UseAIDetection.objects state' = UseAIDetection.objects state
         /\ UseAIDetection.performance_of state' = UseAIDetection.performance_of state
         /\ UseAIDetection.confidence_of state' = UseAIDetection.confidence_of state
         /\ ref' = ref
         /\ UseAIDetection.error state'
            = Some (default "Erro no processamento de IA"%string message)
     end.
Proof.
  unfold UseAIDetection.processFrame.
  destruct (detectObjects (tick w)) as [[detectedObjects|message] w1];
    cbn [fst]; [|done].
  destruct (UseAIDetection.calculatePerformanceMetrics _ _ _ _ _) as [[metrics ref1] w2].
  cbn [UseAIDetection.isProcessing UseAIDetection.isEnabled UseAIDetection.objects
       UseAIDetection.error].
  do 4 (split; [done|]).
  destruct (filteredObjects_spec config detectedObjects) as (Hmax & Hlen & Hall).
  destruct (trackObjects_fields env (UseAIDetection.enableTracking config)
              (UseAIDetection.filteredObjects config detectedObjects)
              (UseAIDetection.objects state)) as (Hl & Hfields & _).
  cbv zeta in Hl, Hfields. rewrite Hl. do 2 (split; [done|]).
  intros t Ht. apply list_elem_of_lookup in Ht as [i Hi].
  assert (Hlt : (i < length (UseAIDetection.filteredObjects config detectedObjects))%nat).
  { rewrite <- Hl. by eapply lookup_lt_Some. }
  apply lookup_lt_is_Some in Hlt as [o Ho].
  destruct (Hfields i o Ho) as (t' & Ht' & Hlabel & Hconf & Hbbox & _).
  rewrite Hi in Ht'. injection Ht' as <-.
  exists o. destruct (Hall o) as [Hin Hthr]; [by eapply list_elem_of_lookup_2|]. done.
Qed.

(** X13: the performance bookkeeping of the detection hook keeps at most
    30 frame rates (a longer history never grows), and the frame counter
    never decreases and rises by at most one per call. *)
Theorem calculatePerformanceMetrics_bounded env (state : UseAIDetection.AIDetectionState)
    (processingTime : float) (ref : UseAIDetection.performanceRef) (w : World) :
  let ref' := snd (fst (UseAIDetection.calculatePerformanceMetrics env state processingTime ref w)) in
  (length (UseAIDetection.fpsHistory ref') <= Nat.max 30 (length (UseAIDetection.fpsHistory ref)))%nat
  /\ (UseAIDetection.frameCount ref <= UseAIDetection.frameCount ref'
      <= S (UseAIDetection.frameCount ref))%nat
  /\ ((UseAIDetection.frameCount ref' = UseAIDetection.frameCount ref) ->
      ref' = ref).
Proof.
  cbv zeta. split; [apply calculatePerformanceMetrics_history|].
  split; [apply calculatePerformanceMetrics_history|].
  unfold UseAIDetection.calculatePerformanceMetrics.
  destruct (0 <? _)%float; cbn [fst snd UseAIDetection.frameCount]; [lia|done].
Qed.

Section Threshold.
Local Open Scope float_scope.

(** [Math.max(0, Math.min(1, threshold))] on a number. *)
Lemma clamp_unit_number (threshold : float) :
  is_nan threshold = false ->
  (0 <=? JS.Math_max 0 (JS.Math_min 1 threshold)) = true
  /\ (JS.Math_max 0 (JS.Math_min 1 threshold) <=? 1) = true.
Proof.
  intros Hn.
  assert (Hm : is_nan (JS.Math_min 1 threshold) = false
               /\ (JS.Math_min 1 threshold <=? 1) = true).
  { unfold JS.Math_min. rewrite Hn. change (is_nan 1 || false) with false. cbv iota.
    destruct (1 <? threshold) eqn:E1; [done|].
    destruct (threshold <? 1) eqn:E2; [split; [done|by apply ltb_leb]|].
    change (get_sign 1) with false. cbv iota. split; [done|by apply leb_of_not_ltb]. }
  destruct Hm as [Hmn Hm1]. set (m := JS.Math_min 1 threshold) in *.
  unfold JS.Math_max. rewrite Hmn. change (is_nan 0 || false) with false. cbv iota.
  destruct (0 <? m) eqn:E1; [split; [by apply ltb_leb|done]|].
  destruct (m <? 0) eqn:E2; [done|].
  change (get_sign 0) with false. cbv iota. done.
Qed.

(** [Math.max(0, Math.min(1, NaN))] is NaN. *)
Lemma clamp_unit_nan (threshold : float) :
  is_nan threshold = true -> JS.Math_max 0 (JS.Math_min 1 threshold) = nan.
Proof.
  intros Hn. unfold JS.Math_min. rewrite Hn, orb_true_r. reflexivity.
Qed.

Lemma filter_none {A : Type} (f : A -> bool) (l : list A) :
  (forall x, f x = false) -> List.filter f l = [].
Proof. intros Hf. induction l as [|a l IH]; [done|]. cbn [List.filter]. by rewrite Hf. Qed.

End Threshold.

(** X14: [setConfidenceThreshold], given a Number that is not NaN, stores a
    threshold [t] with [0 <= t] and [t <= 1]; given NaN it stores NaN and
    drops every stored object. In both cases it keeps exactly the stored
    objects [o] with [t <= o.confidence], in their order. *)
Theorem setConfidenceThreshold_clamps (config : UseAIDetection.AIDetectionOptions)
    (state : UseAIDetection.AIDetectionState) (threshold : float) :
  let '(config', state') := UseAIDetection.setConfidenceThreshold config state threshold in
  let t := UseAIDetection.confidenceThreshold config' in
  (if is_nan threshold
   then is_nan t = true /\ UseAIDetection.objects state' = []
   else (0 <=? t)%float = true /\ (t <=? 1)%float = true)
  /\ UseAIDetection.objects state'
     = List.filter (fun obj => (t <=? DetectedObject.confidence obj)%float)
         (UseAIDetection.objects state)
  /\ (forall o, o ∈ UseAIDetection.objects state' ->
        o ∈ UseAIDetection.objects state /\ (t <=? DetectedObject.confidence o)%float = true)
  /\ UseAIDetection.maxObjects config' = UseAIDetection.maxObjects config
  /\ UseAIDetection.enableTracking config' = UseAIDetection.enableTracking config.
Proof.
  unfold UseAIDetection.setConfidenceThreshold.
  cbn [UseAIDetection.confidenceThreshold UseAIDetection.objects UseAIDetection.maxObjects
       UseAIDetection.enableTracking].
  split.
  { destruct (is_nan threshold) eqn:Hn; [|by apply clamp_unit_number].
    rewrite (clamp_unit_nan threshold Hn). split; [reflexivity|].
    apply filter_none. intros o. by apply leb_nan_l. }
  split; [done|]. split; [|done].
  intros o Ho. apply list_elem_of_In, filter_In in Ho as [H1 H2].
  split; [by apply list_elem_of_In|done].
Qed.

(** A threshold above 1 is stored as 1, and NaN empties the list. *)
Example setConfidenceThreshold_examples :
  let state :=
    {| UseAIDetection.isProcessing := false; UseAIDetection.isEnabled := true;
       UseAIDetection.objects := [example_object "obj_1" "mesa" 100 100];
       UseAIDetection.performance_of := UseAIDetection.performance_of UseAIDetection.initialState;
       UseAIDetection.error := None;
       UseAIDetection.confidence_of := UseAIDetection.confidence_of UseAIDetection.initialState |} in
  UseAIDetection.confidenceThreshold
    (fst (UseAIDetection.setConfidenceThreshold UseAIDetection.defaultOptions state 7)) = 1%float
  /\ UseAIDetection.objects
       (snd (UseAIDetection.setConfidenceThreshold UseAIDetection.defaultOptions state 0.5))
     = UseAIDetection.objects state
  /\ UseAIDetection.objects
       (snd (UseAIDetection.setConfidenceThreshold UseAIDetection.defaultOptions state nan)) = [].
Proof. by vm_compute. Qed.

(** ** The frame enhancer: cell by cell *)

Section Cells.

Lemma store_lookup (data : list byte) (i : nat) (v : float) (j : nat) :
  ImageProcessor.store data i v !! j
  = if decide (j = i) then (fun _ => JS.ToUint8Clamp v) <$> data !! j else data !! j.
Proof.
  unfold ImageProcessor.store. case_decide as E.
  - subst j. destruct (data !! i) as [b|] eqn:Hb.
    + cbn. apply list_lookup_insert_eq. by eapply lookup_lt_Some.
    + cbn. rewrite list_insert_ge by (by apply lookup_ge_None). done.
  - by apply list_lookup_insert_ne.
Qed.

Lemma store_length (data : list byte) (i : nat) (v : float) :
  length (ImageProcessor.store data i v) = length data.
Proof. unfold ImageProcessor.store. apply length_insert. Qed.

Lemma cell_store_ne (data : list byte) (i j : nat) (v : float) :
  i <> j -> ImageProcessor.cell (ImageProcessor.store data i v) j = ImageProcessor.cell data j.
Proof.
  intros Hne. unfold ImageProcessor.cell. rewrite store_lookup. by case_decide; [congruence|].
Qed.

Lemma cell_agree (data data' : list byte) (k : nat) :
  data !! k = data' !! k -> ImageProcessor.cell data k = ImageProcessor.cell data' k.
Proof. unfold ImageProcessor.cell. by intros ->. Qed.

End Cells.

(** A loop over the pixels, [for (let i = 0; i < data.length; i += 4)], whose
    body rewrites the three colour cells of pixel [i] from those cells
    alone, computes each cell from the input frame. *)
Section PixelLoop.
Context (step : list byte -> nat -> list byte).
Hypothesis step_local :
  forall data i j, ~ (i <= j <= i + 2)%nat -> step data i !! j = data !! j.
Hypothesis step_own :
  forall data data' i j, (i <= j <= i + 2)%nat ->
    (forall k, (i <= k <= i + 2)%nat -> data !! k = data' !! k) ->
    step data i !! j = step data' i !! j.
Hypothesis step_length : forall data i, length (step data i) = length data.

Lemma pixel_loop_prefix (data : list byte) (m j : nat) :
  fold_left step (List.map (fun k => 4 * k)%nat (seq 0 m)) data !! j
  = if decide (j / 4 < m /\ j mod 4 <> 3)%nat then step data (4 * (j / 4)) !! j else data !! j.
Proof using step_local step_own.
  revert j. induction m as [|m IH]; intros j.
  - cbn [seq List.map fold_left]. case_decide; [lia|done].
  - rewrite seq_S, List.map_app, fold_left_app. cbn [Nat.add List.map fold_left].
    pose proof (Nat.div_mod_eq j 4) as Hj. pose proof (Nat.mod_upper_bound j 4) as Hr.
    destruct (decide (j / 4 = m /\ j mod 4 <> 3)%nat) as [[Hq Hc]|Hno].
    + rewrite (step_own _ data (4 * m)%nat j); [|lia|].
      * case_decide; [|lia]. by rewrite Hq.
      * intros k Hk. rewrite IH. case_decide as E; [|done].
        pose proof (Nat.div_mod_eq k 4). pose proof (Nat.mod_upper_bound k 4). lia.
    + rewrite step_local by lia. rewrite IH. repeat case_decide; try done; lia.
Qed.

Lemma pixel_loop_lookup (data : list byte) (j : nat) :
  fold_left step (ImageProcessor.pixel_offsets (length data)) data !! j
  = if decide (j mod 4 <> 3)%nat then step data (4 * (j / 4)) !! j else data !! j.
Proof using step_local step_own step_length.
  unfold ImageProcessor.pixel_offsets. rewrite pixel_loop_prefix.
  destruct (decide (j < length data)%nat) as [Hlt|Hge].
  - pose proof (Nat.div_mod_eq j 4). pose proof (Nat.mod_upper_bound j 4).
    pose proof (Nat.div_mod_eq (length data + 3) 4).
    pose proof (Nat.mod_upper_bound (length data + 3) 4).
    repeat case_decide; try done; lia.
  - assert (Hnone : data !! j = None) by (apply lookup_ge_None; lia).
    assert (Hnone' : step data (4 * (j / 4)) !! j = None)
      by (apply lookup_ge_None; rewrite step_length; lia).
    repeat case_decide; congruence.
Qed.

End PixelLoop.

Section ChannelLoops.

Lemma channel_step_lookup (f : float -> float) (data : list byte) (i j : nat) :
  ImageProcessor.store
    (ImageProcessor.store
       (ImageProcessor.store data i (f (ImageProcessor.cell data i)))
       (i + 1)
       (f (ImageProcessor.cell
             (ImageProcessor.store data i (f (ImageProcessor.cell data i))) (i + 1))))
    (i + 2)
    (f (ImageProcessor.cell
          (ImageProcessor.store
             (ImageProcessor.store data i (f (ImageProcessor.cell data i)))
             (i + 1)
             (f (ImageProcessor.cell
                   (ImageProcessor.store data i (f (ImageProcessor.cell data i))) (i + 1))))
          (i + 2))) !! j
  = if decide (i <= j <= i + 2)%nat
    then (fun b => JS.ToUint8Clamp (f (JS.of_byte b))) <$> data !! j
    else data !! j.
Proof.
  rewrite !store_lookup. rewrite !cell_store_ne by lia.
  unfold ImageProcessor.cell.
  repeat case_decide; try lia; try done; subst; by destruct (data !! _).
Qed.

Lemma map_channels_lookup (f : float -> float) (data : list byte) (j : nat) :
  ImageProcessor.map_channels f data !! j
  = if (j mod 4 =? 3)%nat then data !! j
    else (fun b => JS.ToUint8Clamp (f (JS.of_byte b))) <$> data !! j.
Proof.
  unfold ImageProcessor.map_channels.
  pose proof (pixel_loop_lookup
    (fun data i =>
       let data := ImageProcessor.store data i (f (ImageProcessor.cell data i)) in
       let data := ImageProcessor.store data (i + 1) (f (ImageProcessor.cell data (i + 1))) in
       ImageProcessor.store data (i + 2) (f (ImageProcessor.cell data (i + 2))))) as H.
  cbv zeta in H. rewrite H; clear H.
  - rewrite channel_step_lookup.
    pose proof (Nat.div_mod_eq j 4). pose proof (Nat.mod_upper_bound j 4).
    destruct (Nat.eqb_spec (j mod 4) 3); repeat case_decide; try done; lia.
  - intros d i k Hk. rewrite channel_step_lookup. case_decide; [lia|done].
  - intros d d' i k Hk Hsame. rewrite !channel_step_lookup. case_decide; [|lia].
    by rewrite Hsame.
  - intros d i. by rewrite !store_length.
Qed.

Lemma map_channels_imap (f : float -> float) (data : list byte) :
  ImageProcessor.map_channels f data
  = imap (fun j b => if (j mod 4 =? 3)%nat then b else JS.ToUint8Clamp (f (JS.of_byte b))) data.
Proof.
  apply list_eq. intros j. rewrite map_channels_lookup, list_lookup_imap.
  destruct (j mod 4 =? 3)%nat; by destruct (data !! j).
Qed.

End ChannelLoops.

(** X15: the brightness, contrast and gamma stages work cell by cell: each
    red, green or blue cell of the output is the clamped value of the
    stage's formula at the same cell of the input, and each alpha cell is
    copied. *)
Theorem adjust_stages_cellwise env (imageData : ImageData.t) (factor : float) :
  let rewrite_with (f : float -> float) :=
    imap (fun j b => if (j mod 4 =? 3)%nat then b else JS.ToUint8Clamp (f (JS.of_byte b)))
      (ImageData.data imageData) in
  ImageData.data (ImageProcessor.adjustBrightness imageData factor)
  = rewrite_with (fun v => JS.Math_min 255 (v * factor))%float
  /\ ImageData.data (ImageProcessor.adjustContrast imageData factor)
     = rewrite_with
         (fun v => JS.Math_max 0
                     (JS.Math_min 255
                        (259 * ((factor - 1) * 255 + 255) / (255 * (259 - (factor - 1) * 255))
                         * (v - 128) + 128)))%float
  /\ ImageData.data (ImageProcessor.adjustGamma env imageData factor)
     = rewrite_with
         (fun v => JS.Math_min 255
                     (255 * JS.Math_pow (pow_approx env) (v / 255) (1 / factor)))%float.
Proof.
  cbv zeta. unfold ImageProcessor.adjustBrightness, ImageProcessor.adjustContrast,
    ImageProcessor.adjustGamma. cbn [ImageData.data].
  by rewrite !map_channels_imap.
Qed.

Section Thermal.

Lemma thermal_step_lookup (data : list byte) (i j : nat) :
  (let '(r, g, b) :=
     ImageProcessor.thermal (ImageProcessor.cell data i) (ImageProcessor.cell data (i + 1))
       (ImageProcessor.cell data (i + 2)) in
   let data := ImageProcessor.store data i r in
   let data := ImageProcessor.store data (i + 1) g in
   ImageProcessor.store data (i + 2) b) !! j
  = let '(r, g, b) :=
      ImageProcessor.thermal (ImageProcessor.cell data i) (ImageProcessor.cell data (i + 1))
        (ImageProcessor.cell data (i + 2)) in
    if decide (j = i) then (fun _ => JS.ToUint8Clamp r) <$> data !! j
    else if decide (j = i + 1)%nat then (fun _ => JS.ToUint8Clamp g) <$> data !! j
    else if decide (j = i + 2)%nat then (fun _ => JS.ToUint8Clamp b) <$> data !! j
    else data !! j.
Proof.
  destruct (ImageProcessor.thermal _ _ _) as [[r g] b]. cbv zeta.
  rewrite !store_lookup. repeat case_decide; try lia; done.
Qed.

Lemma applyThermalEffect_lookup (data : list byte) (j : nat) :
  ImageData.data
    (ImageProcessor.applyThermalEffect
       {| ImageData.data := data; ImageData.width := 0; ImageData.height := 0 |}) !! j
  = let i := (4 * (j / 4))%nat in
    let '(r, g, b) :=
      ImageProcessor.thermal (ImageProcessor.cell data i) (ImageProcessor.cell data (i + 1))
        (ImageProcessor.cell data (i + 2)) in
    if decide (j = i) then (fun _ => JS.ToUint8Clamp r) <$> data !! j
    else if decide (j = i + 1)%nat then (fun _ => JS.ToUint8Clamp g) <$> data !! j
    else if decide (j = i + 2)%nat then (fun _ => JS.ToUint8Clamp b) <$> data !! j
    else data !! j.
Proof.
  unfold ImageProcessor.applyThermalEffect. cbn [ImageData.data].
  pose proof (pixel_loop_lookup
    (fun data i =>
       let '(r, g, b) :=
         ImageProcessor.thermal (ImageProcessor.cell data i) (ImageProcessor.cell data (i + 1))
           (ImageProcessor.cell data (i + 2)) in
       let data := ImageProcessor.store data i r in
       let data := ImageProcessor.store data (i + 1) g in
       ImageProcessor.store data (i + 2) b)) as H.
  rewrite H; clear H.
  - pose proof (Nat.div_mod_eq j 4). pose proof (Nat.mod_upper_bound j 4).
    case_decide as E.
    + apply thermal_step_lookup.
    + cbv zeta. destruct (ImageProcessor.thermal _ _ _) as [[r g] b].
      repeat case_decide; try done; lia.
  - intros d i k Hk. rewrite thermal_step_lookup.
    destruct (ImageProcessor.thermal _ _ _) as [[r g] b]. repeat case_decide; try done; lia.
  - intros d d' i k Hk Hsame. rewrite !thermal_step_lookup.
    rewrite (cell_agree d d' i), (cell_agree d d' (i + 1)), (cell_agree d d' (i + 2))
      by (apply Hsame; lia).
    destruct (ImageProcessor.thermal _ _ _) as [[r g] b].
    rewrite (Hsame k Hk). done.
  - intros d i. destruct (ImageProcessor.thermal _ _ _) as [[r g] b]. cbv zeta.
    by rewrite !store_length.
Qed.

Lemma thermal_red_or_blue (r g b : float) :
  let '(tr, _, tb) := ImageProcessor.thermal r g b in
  JS.ToUint8Clamp tr = x00 \/ JS.ToUint8Clamp tb = x00.
Proof.
  unfold ImageProcessor.thermal. cbv zeta.
  repeat (destruct (_ <? _)%float); by (left + right).
Qed.

End Thermal.

(** X16: the false-colour stage computes each pixel from that pixel alone:
    a pixel whose cells hold [R], [G], [B] comes out as the clamped
    false-colour triple of these three values, and in every output pixel
    the red cell or the blue cell is 0. *)
Theorem applyThermalEffect_pixelwise (imageData : ImageData.t) (k : nat) (R G B : byte) :
  ImageData.data imageData !! (4 * k)%nat = Some R ->
  ImageData.data imageData !! (4 * k + 1)%nat = Some G ->
  ImageData.data imageData !! (4 * k + 2)%nat = Some B ->
  let output := ImageData.data (ImageProcessor.applyThermalEffect imageData) in
  let '(r, g, b) := ImageProcessor.thermal (JS.of_byte R) (JS.of_byte G) (JS.of_byte B) in
  output !! (4 * k)%nat = Some (JS.ToUint8Clamp r)
  /\ output !! (4 * k + 1)%nat = Some (JS.ToUint8Clamp g)
  /\ output !! (4 * k + 2)%nat = Some (JS.ToUint8Clamp b)
  /\ (output !! (4 * k)%nat = Some x00 \/ output !! (4 * k + 2)%nat = Some x00).
Proof.
  intros HR HG HB output.
  assert (Hout : forall j, output !! j
            = ImageData.data
                (ImageProcessor.applyThermalEffect
                   {| ImageData.data := ImageData.data imageData;
                      ImageData.width := 0; ImageData.height := 0 |}) !! j) by done.
  assert (Hq0 : (4 * (4 * k / 4) = 4 * k)%nat).
  { pose proof (Nat.div_mod_eq (4 * k) 4). pose proof (Nat.mod_upper_bound (4 * k) 4). lia. }
  assert (Hq1 : (4 * ((4 * k + 1) / 4) = 4 * k)%nat).
  { pose proof (Nat.div_mod_eq (4 * k + 1) 4).
    pose proof (Nat.mod_upper_bound (4 * k + 1) 4). lia. }
  assert (Hq2 : (4 * ((4 * k + 2) / 4) = 4 * k)%nat).
  { pose proof (Nat.div_mod_eq (4 * k + 2) 4).
    pose proof (Nat.mod_upper_bound (4 * k + 2) 4). lia. }
  pose proof (Hout (4 * k)%nat) as H0. pose proof (Hout (4 * k + 1)%nat) as H1.
  pose proof (Hout (4 * k + 2)%nat) as H2.
  rewrite applyThermalEffect_lookup in H0, H1, H2. cbv zeta in H0, H1, H2.
  rewrite Hq0 in H0. rewrite Hq1 in H1. rewrite Hq2 in H2.
  unfold ImageProcessor.cell in H0, H1, H2. rewrite HR, HG, HB in H0, H1, H2.
  pose proof (thermal_red_or_blue (JS.of_byte R) (JS.of_byte G) (JS.of_byte B)) as Hrb.
  destruct (ImageProcessor.thermal _ _ _) as [[r g] b].
  repeat case_decide; try lia.
  rewrite H0, H1, H2. do 3 (split; [reflexivity|]).
  destruct Hrb as [E|E]; [left|right]; cbn [fmap option_fmap option_map]; by rewrite E.
Qed.

Lemma applyThermalEffect_pixelwise_witness :
  ImageData.data (ImageProcessor.applyThermalEffect example_frame3) !! 0%nat = Some x00
  \/ ImageData.data (ImageProcessor.applyThermalEffect example_frame3) !! 2%nat = Some x00.
Proof.
  pose proof (applyThermalEffect_pixelwise example_frame3 0 x10 x20 x30
                eq_refl eq_refl eq_refl) as H.
  cbv zeta in H.
  destruct (ImageProcessor.thermal _ _ _) as [[r g] b]. exact (proj2 (proj2 (proj2 H))).
Defined.

(** ** The frame enhancer: the border of the frame *)

Section Border.

Lemma interior_cell_ne (w x y c x' y' c' : nat) :
  (x < w)%nat -> (c < 4)%nat -> (x' < w)%nat -> (c' < 4)%nat ->
  ((y * w + x) * 4 + c)%nat = ((y' * w + x') * 4 + c')%nat ->
  x = x' /\ y = y' /\ c = c'.
Proof.
  intros Hx Hc Hx' Hc' E.
  assert (c = c' /\ (y * w + x = y' * w + x')%nat) as [-> E'] by lia.
  assert (y = y') as -> by nia. split; [lia|done].
Qed.

Lemma interior_loop_border (body : list byte -> nat -> nat -> nat -> float)
    (data : list byte) (width height : nat) (x y c : nat) :
  (x < width)%nat -> (c < 4)%nat ->
  (x = 0 \/ x + 1 = width \/ y = 0 \/ height <= y + 1 \/ c = 3)%nat ->
  fold_left
    (fun output y' =>
       fold_left
         (fun output x' =>
            fold_left
              (fun output c' =>
                 ImageProcessor.store output ((y' * width + x') * 4 + c')
                   (body output y' x' c'))
              ImageProcessor.channels output)
         (ImageProcessor.inner width) output)
    (ImageProcessor.inner height) data !! ((y * width + x) * 4 + c)%nat
  = data !! ((y * width + x) * 4 + c)%nat.
Proof.
  intros Hx Hc Hborder.
  apply (fold_left_invariant (fun out => out !! _ = data !! _)); [done|].
  intros out y' Hy' Hout.
  apply (fold_left_invariant (fun out => out !! _ = data !! _)); [done|].
  intros out' x' Hx' Hout'.
  apply (fold_left_invariant (fun out => out !! _ = data !! _)); [done|].
  intros out'' c' Hc' Hout''.
  rewrite store_lookup. case_decide as E; [|done]. exfalso.
  apply in_inner in Hy', Hx'. apply channel_le in Hc'.
  apply interior_cell_ne in E; lia.
Qed.

End Border.

(** X17: noise reduction and edge enhancement rewrite the colour cells of
    interior pixels only: every cell of a pixel in the first or last column,
    or in the first or last row (or below the frame), and every alpha cell,
    holds after either stage what it held before. *)
Theorem smoothing_keeps_border (imageData : ImageData.t) (strength : float) (x y c : nat) :
  (x < ImageData.width imageData)%nat -> (c < 4)%nat ->
  (x = 0 \/ x + 1 = ImageData.width imageData \/ y = 0
   \/ ImageData.height imageData <= y + 1 \/ c = 3)%nat ->
  let i := ((y * ImageData.width imageData + x) * 4 + c)%nat in
  ImageData.data (ImageProcessor.denoiseImage imageData strength) !! i
  = ImageData.data imageData !! i
  /\ ImageData.data (ImageProcessor.enhanceEdges imageData strength) !! i
     = ImageData.data imageData !! i.
Proof.
  intros Hx Hc Hborder i. subst i. split.
  - unfold ImageProcessor.denoiseImage. cbn [ImageData.data].
    exact (interior_loop_border
             (fun _ y' x' c' =>
                (ImageProcessor.cell (ImageData.data imageData)
                   ((y' * ImageData.width imageData + x') * 4 + c') * (1 - strength)
                 + ImageProcessor.kernel_sum (ImageData.data imageData)
                     (ImageData.width imageData) y' x' c' / ImageProcessor.kernelWeight
                   * strength)%float)
             _ _ _ x y c Hx Hc Hborder).
  - unfold ImageProcessor.enhanceEdges. cbn [ImageData.data].
    apply (fold_left_invariant (fun out => out !! _ = ImageData.data imageData !! _)); [done|].
    intros out y' Hy' Hout.
    apply (fold_left_invariant (fun out => out !! _ = ImageData.data imageData !! _)); [done|].
    intros out' x' Hx' Hout'. destruct (ImageProcessor.gradient _ _ _ _) as [gx gy].
    apply (fold_left_invariant (fun out => out !! _ = ImageData.data imageData !! _)); [done|].
    intros out'' c' Hc' Hout''.
    rewrite store_lookup. case_decide as E; [|done]. exfalso.
    apply in_inner in Hy', Hx'. apply channel_le in Hc'.
    apply interior_cell_ne in E; lia.
Qed.

Lemma smoothing_keeps_border_witness :
  ImageData.data (ImageProcessor.denoiseImage example_frame3 0.8) !! 13%nat = Some x00
  /\ ImageData.data (ImageProcessor.enhanceEdges example_frame3 0.8) !! 13%nat = Some x00.
Proof.
  apply (smoothing_keeps_border example_frame3 0.8 0 1 1); [cbn; lia|lia|by left].
Defined.

(** ** Depth estimation: the sampling grid *)

Section Grid.

Lemma strided_length (s n : nat) :
  length (DepthEstimator.strided s n) = ((n + s - 1) / s)%nat.
Proof. unfold DepthEstimator.strided. by rewrite length_map, length_seq. Qed.

Lemma strided_lookup (s n k : nat) :
  (k < (n + s - 1) / s)%nat -> DepthEstimator.strided s n !! k = Some (s * k)%nat.
Proof.
  intros Hk. unfold DepthEstimator.strided.
  change (List.map ?f ?l) with (f <$> l). rewrite list_lookup_fmap.
  by rewrite lookup_seq_lt.
Qed.

(** Two nested loops visit the cells of the grid row by row. *)
Lemma nested_fold_flat {A Y X : Type} (f : A -> Y -> X -> A) (ys : list Y) (xs : list X) (a : A) :
  fold_left (fun acc y => fold_left (fun acc x => f acc y x) xs acc) ys a
  = fold_left (fun acc c => f acc (fst c) (snd c))
      (flat_map (fun y => List.map (pair y) xs) ys) a.
Proof.
  revert a. induction ys as [|y ys IH]; intros a; [done|].
  cbn [fold_left flat_map]. rewrite fold_left_app, <- IH. f_equal.
  clear. revert a. induction xs as [|x xs IHx]; intros a; [done|].
  cbn [List.map fold_left fst snd]. apply IHx.
Qed.

Lemma flat_lookup {Y X : Type} (ys : list Y) (xs : list X) (r c : nat) (y : Y) (x : X) :
  ys !! r = Some y -> xs !! c = Some x ->
  flat_map (fun y => List.map (pair y) xs) ys !! (r * length xs + c)%nat = Some (y, x).
Proof.
  intros Hy Hx. revert r Hy. induction ys as [|y0 ys IH]; intros r Hy; [done|].
  cbn [flat_map]. destruct r as [|r].
  - injection Hy as ->. cbn [Nat.mul Nat.add].
    rewrite lookup_app_l by (rewrite length_map; by eapply lookup_lt_Some).
    change (List.map ?f ?l) with (f <$> l). by rewrite list_lookup_fmap, Hx.
  - rewrite lookup_app_r by (rewrite length_map; cbn; lia).
    rewrite length_map. replace (S r * length xs + c - length xs)%nat
      with (r * length xs + c)%nat by (cbn; lia).
    by apply IH.
Qed.

Lemma flat_length {Y X : Type} (ys : list Y) (xs : list X) :
  length (flat_map (fun y => List.map (pair y) xs) ys) = (length ys * length xs)%nat.
Proof.
  induction ys as [|y ys IH]; [done|]. cbn [flat_map length Nat.mul].
  by rewrite length_app, length_map, IH.
Qed.

End Grid.

Section Sampling.
Context (env : Env) (imageData : ImageData.t).

Lemma samplePoint_world (y x : nat) (w : World) :
  snd (DepthEstimator.samplePoint env imageData y x w)
  = {| clock_reads := clock_reads w; random_draws := S (S (random_draws w)) |}.
Proof. done. Qed.

Lemma samplePoint_draws (y x : nat) (w w' : World) :
  random_draws w = random_draws w' ->
  fst (DepthEstimator.samplePoint env imageData y x w)
  = fst (DepthEstimator.samplePoint env imageData y x w').
Proof. unfold DepthEstimator.samplePoint, draw_random. cbn. by intros ->. Qed.

Lemma samplePoint_fields (y x : nat) (w : World) :
  let p := fst (DepthEstimator.samplePoint env imageData y x w) in
  DepthPoint.x p = JS.of_nat x /\ DepthPoint.y p = JS.of_nat y
  /\ (1 <? DepthPoint.depth p)%float = false
  /\ DepthPoint.confidence p = (0.6 + Math_random env (S (random_draws w)) * 0.4)%float.
Proof.
  cbv zeta. unfold DepthEstimator.samplePoint. cbn.
  repeat split. apply Math_min_le_l.
Qed.

Lemma sample_cells (cells : list (nat * nat)) :
  forall (acc : list DepthPoint.t) (w : World),
    let result :=
      fold_left
        (fun (acc : list DepthPoint.t * World) c =>
           (let '(depthPoints, w) := acc in
            fun x =>
              let '(p, w) := DepthEstimator.samplePoint env imageData (fst c) x w in
              (depthPoints ++ [p], w)) (snd c))
        cells (acc, w) in
    fst result
    = acc ++ imap (fun i c =>
                     fst (DepthEstimator.samplePoint env imageData (fst c) (snd c)
                            {| clock_reads := clock_reads w;
                               random_draws := random_draws w + 2 * i |})) cells
    /\ snd result = {| clock_reads := clock_reads w;
                       random_draws := random_draws w + 2 * length cells |}.
Proof.
  induction cells as [|c cells IH]; intros acc w.
  - cbn. rewrite app_nil_r, Nat.add_0_r. by destruct w.
  - cbn [fold_left]. cbv zeta in IH |- *.
    destruct (DepthEstimator.samplePoint env imageData c.1 c.2 w) as [p w1] eqn:E.
    specialize (IH (acc ++ [p]) w1). destruct IH as [IH1 IH2].
    pose proof (samplePoint_world c.1 c.2 w) as Hw. rewrite E in Hw. cbn [snd] in Hw.
    subst w1. split.
    + rewrite IH1. cbn [imap]. rewrite <- app_assoc. cbn [app clock_reads random_draws].
      f_equal. rewrite Nat.mul_0_r, Nat.add_0_r. f_equal.
      * destruct w as [reads draws]. cbn [clock_reads random_draws]. by rewrite E.
      * apply imap_ext. intros i c' _. apply samplePoint_draws.
        cbn [random_draws]. lia.
    + rewrite IH2. cbn [length clock_reads random_draws]. f_equal. lia.
Qed.

End Sampling.

(** X18: [estimateDepth] samples the frame on a grid of pitch 20, row by row:
    it returns one sample per grid node, the one of row [r] and column [c] at
    the pixel (20 c, 20 r), with a depth that is never above 1; it draws
    two random numbers per sample and reads no clock. *)
Theorem estimateDepth_grid env (imageData : ImageData.t) (w : World) :
  let cols := ((ImageData.width imageData + 19) / 20)%nat in
  let rows := ((ImageData.height imageData + 19) / 20)%nat in
  let '(depthPoints, w') := DepthEstimator.estimateDepth env imageData w in
  length depthPoints = (rows * cols)%nat
  /\ random_draws w' = (random_draws w + 2 * (rows * cols))%nat
  /\ clock_reads w' = clock_reads w
  /\ forall r c, (r < rows)%nat -> (c < cols)%nat ->
       exists p, depthPoints !! (r * cols + c)%nat = Some p
         /\ DepthPoint.x p = JS.of_nat (20 * c)
         /\ DepthPoint.y p = JS.of_nat (20 * r)
         /\ (1 <? DepthPoint.depth p)%float = false
         /\ DepthPoint.confidence p
            = (0.6 + Math_random env (random_draws w + 2 * (r * cols + c) + 1) * 0.4)%float.
Proof.
  intros cols rows.
  set (cells := flat_map (fun y => List.map (pair y)
                            (DepthEstimator.strided 20 (ImageData.width imageData)))
                  (DepthEstimator.strided 20 (ImageData.height imageData))).
  destruct (sample_cells env imageData cells [] w) as [H1 H2]. cbv zeta in H1, H2.
  assert (Hflat : DepthEstimator.estimateDepth env imageData w
                  = fold_left
                      (fun (acc : list DepthPoint.t * World) c =>
                         (let '(depthPoints, w) := acc in
                          fun x =>
                            let '(p, w) :=
                              DepthEstimator.samplePoint env imageData (fst c) x w in
                            (depthPoints ++ [p], w)) (snd c))
                      cells ([], w)).
  { exact (nested_fold_flat
             (fun (acc : list DepthPoint.t * World) y =>
                let '(depthPoints, w) := acc in
                fun x =>
                  let '(p, w) := DepthEstimator.samplePoint env imageData y x w in
                  (depthPoints ++ [p], w))
             (DepthEstimator.strided 20 (ImageData.height imageData))
             (DepthEstimator.strided 20 (ImageData.width imageData)) ([], w)). }
  rewrite Hflat. clear Hflat.
  destruct (fold_left _ cells ([], w)) as [depthPoints w'].
  cbn [fst snd] in H1, H2. subst depthPoints w'. cbn [app clock_reads random_draws].
  assert (Hlen : length cells = (rows * cols)%nat).
  { subst cells rows cols. rewrite flat_length, !strided_length. f_equal; f_equal; lia. }
  rewrite length_imap, Hlen. do 3 (split; [done|]).
  intros r c Hr Hc.
  assert (Hcell : cells !! (r * cols + c)%nat = Some ((20 * r)%nat, (20 * c)%nat)).
  { assert (Hcols : cols = length (DepthEstimator.strided 20 (ImageData.width imageData))).
    { subst cols. rewrite strided_length. f_equal. lia. }
    subst cells. rewrite Hcols.
    apply flat_lookup; apply strided_lookup.
    - subst rows. by replace (ImageData.height imageData + 20 - 1)%nat
        with (ImageData.height imageData + 19)%nat by lia.
    - subst cols. by replace (ImageData.width imageData + 20 - 1)%nat
        with (ImageData.width imageData + 19)%nat by lia. }
  eexists. rewrite list_lookup_imap, Hcell. cbn [fmap option_fmap option_map fst snd].
  split; [reflexivity|].
  destruct (samplePoint_fields env imageData (20 * r) (20 * c)
              {| clock_reads := clock_reads w;
                 random_draws := random_draws w + 2 * (r * cols + c) |}) as (Hx & Hy & Hd & Hc').
  cbv zeta in Hx, Hy, Hd, Hc'. cbn [random_draws] in Hc'.
  repeat split; try done. rewrite Hc'. do 3 f_equal. lia.
Qed.

(** ** Mesh reconstruction *)

Section Mesh.
Context (env : Env).

Lemma organizePointsInGrid_lookup (depthPoints : list DepthPoint.t) (width height : nat) k p :
  MeshBuilder.organizePointsInGrid depthPoints width height !! k = Some p -> p ∈ depthPoints.
Proof.
  unfold MeshBuilder.organizePointsInGrid.
  assert (H : forall (g : gmap (nat * nat) DepthPoint.t) (seen : list DepthPoint.t),
             (forall k p, g !! k = Some p -> p ∈ seen ++ depthPoints) ->
             forall k p,
               fold_left
                 (fun (grid : gmap (nat * nat) DepthPoint.t) point =>
                    let x := JS.Math_floor (DepthPoint.x point) in
                    let y := JS.Math_floor (DepthPoint.y point) in
                    if ((0 <=? y) && (y <? JS.of_nat height) && (0 <=? x)
                        && (x <? JS.of_nat width))%float
                    then
                      match JS.to_index y, JS.to_index x with
                      | Some zy, Some zx => <[(Z.to_nat zy, Z.to_nat zx) := point]> grid
                      | _, _ => grid
                      end
                    else grid)
                 depthPoints g !! k = Some p -> p ∈ seen ++ depthPoints).
  { induction depthPoints as [|d rest IH]; intros g seen Hg k' p'; [apply Hg|].
    cbn [fold_left]. intros Hfold.
    replace (seen ++ d :: rest) with ((seen ++ [d]) ++ rest) by (by rewrite <- app_assoc).
    eapply IH; [|exact Hfold]. intros k'' p''. cbv zeta.
    rewrite <- app_assoc. cbn [app].
    destruct (_ && _); [|by apply Hg].
    destruct (JS.to_index _) as [zy|]; [|by apply Hg].
    destruct (JS.to_index _) as [zx|]; [|by apply Hg].
    destruct (decide (k'' = (Z.to_nat zy, Z.to_nat zx))) as [->|Hne].
    - rewrite lookup_insert_eq. intros [= <-]. set_solver.
    - rewrite lookup_insert_ne by done. by apply Hg. }
  apply (H ∅ []). intros k' p'. by rewrite lookup_empty.
Qed.

Lemma collectVertices_spec (depthGrid : gmap (nat * nat) DepthPoint.t) (width height : nat) :
  let '(vertices, textureCoords) := MeshBuilder.collectVertices depthGrid width height in
  length vertices = length textureCoords
  /\ forall v, v ∈ vertices ->
       exists k p, depthGrid !! k = Some p /\ Point3D.z v = (DepthPoint.depth p * 10)%float.
Proof.
  unfold MeshBuilder.collectVertices.
  apply (fold_left_invariant
           (fun acc : list Point3D.t * list Mesh3D.uv =>
              let '(vertices, textureCoords) := acc in
              length vertices = length textureCoords
              /\ forall v, v ∈ vertices ->
                   exists k p, depthGrid !! k = Some p
                               /\ Point3D.z v = (DepthPoint.depth p * 10)%float)).
  { split; [done|]. intros v Hv. by apply elem_of_nil in Hv. }
  intros acc y _ Hacc.
  apply (fold_left_invariant
           (fun acc : list Point3D.t * list Mesh3D.uv =>
              let '(vertices, textureCoords) := acc in
              length vertices = length textureCoords
              /\ forall v, v ∈ vertices ->
                   exists k p, depthGrid !! k = Some p
                               /\ Point3D.z v = (DepthPoint.depth p * 10)%float)); [done|].
  intros [vs uvs] x _ [Hlen Hall].
  destruct (depthGrid !! (y, x)) as [dp|] eqn:E; [|done].
  split; [rewrite !length_app; cbn; lia|].
  intros v Hv. apply elem_of_app in Hv as [Hv|Hv]; [by apply Hall|].
  apply list_elem_of_singleton in Hv as ->. by exists (y, x), dp.
Qed.

Lemma collectFaces_spec (vertices : list Point3D.t) (width height : nat) :
  let faces := MeshBuilder.collectFaces vertices width height in
  Nat.Even (length faces)
  /\ forall face, face ∈ faces ->
       length face = 3%nat /\ forall i, i ∈ face -> (i < length vertices)%nat.
Proof.
  cbv zeta. unfold MeshBuilder.collectFaces.
  apply (fold_left_invariant
           (fun faces : list (list nat) =>
              Nat.Even (length faces)
              /\ forall face, face ∈ faces ->
                   length face = 3%nat /\ forall i, i ∈ face -> (i < length vertices)%nat)).
  { split; [by exists 0%nat|]. intros f Hf. by apply elem_of_nil in Hf. }
  intros acc y _ Hacc.
  apply (fold_left_invariant
           (fun faces : list (list nat) =>
              Nat.Even (length faces)
              /\ forall face, face ∈ faces ->
                   length face = 3%nat /\ forall i, i ∈ face -> (i < length vertices)%nat));
    [done|].
  intros faces x _ [[n Hn] Hall]. cbv zeta.
  destruct (vertices !! (y * (width / 10) + x)%nat) as [v1|] eqn:E1;
    [|by split; [exists n|]].
  destruct (vertices !! (y * (width / 10) + x + 1)%nat) as [v2|] eqn:E2;
    [|by split; [exists n|]].
  destruct (vertices !! ((y + 1) * (width / 10) + x)%nat) as [v3|] eqn:E3;
    [|by split; [exists n|]].
  destruct (vertices !! ((y + 1) * (width / 10) + x + 1)%nat) as [v4|] eqn:E4;
    [|by split; [exists n|]].
  apply lookup_lt_Some in E1, E2, E3, E4.
  split; [exists (S n); rewrite length_app; cbn; lia|].
  intros face Hface. apply elem_of_app in Hface as [Hface|Hface]; [by apply Hall|].
  apply list_elem_of_In in Hface. destruct Hface as [<-|[<-|[]]].
  - split; [done|]. intros i Hi. apply list_elem_of_In in Hi.
    destruct Hi as [<-|[<-|[<-|[]]]]; done.
  - split; [done|]. intros i Hi. apply list_elem_of_In in Hi.
    destruct Hi as [<-|[<-|[<-|[]]]]; done.
Qed.

Lemma collectNormals_total (vertices : list Point3D.t) (faces : list (list nat)) :
  (forall face, face ∈ faces ->
     length face = 3%nat /\ forall i, i ∈ face -> (i < length vertices)%nat) ->
  exists normals, MeshBuilder.collectNormals env vertices faces = Some normals
                  /\ length normals = length faces.
Proof.
  induction faces as [|face rest IH]; intros Hall; [by exists []|].
  destruct IH as (ns & Hns & Hlen); [intros f Hf; apply Hall; by right|].
  destruct (Hall face) as [H3 Hidx]; [by left|].
  destruct face as [|i1 [|i2 [|i3 [|]]]]; try done.
  cbn [MeshBuilder.collectNormals MeshBuilder.faceNormal].
  destruct (lookup_lt_is_Some_2 vertices i1) as [v1 ->]; [apply Hidx; repeat constructor|].
  destruct (lookup_lt_is_Some_2 vertices i2) as [v2 ->]; [apply Hidx; repeat constructor|].
  destruct (lookup_lt_is_Some_2 vertices i3) as [v3 ->]; [apply Hidx; repeat constructor|].
  rewrite Hns. eexists. split; [reflexivity|]. cbn. by rewrite Hlen.
Qed.

End Mesh.

(** X19: [reconstructMesh] always returns a mesh (no read of a missing
    vertex is ever attempted), and the mesh is well formed: as many texture
    coordinates as vertices, one normal per face, an even number of faces,
    each face a triple of indices of existing vertices; and the depth of
    every vertex is ten times the depth of one of the given samples. *)
Theorem reconstructMesh_wellformed env (depthPoints : list DepthPoint.t)
    (imageData : ImageData.t) :
  exists mesh, MeshBuilder.reconstructMesh env depthPoints imageData = Some mesh
    /\ length (Mesh3D.textureCoords mesh) = length (Mesh3D.vertices mesh)
    /\ length (Mesh3D.normals mesh) = length (Mesh3D.faces mesh)
    /\ Nat.Even (length (Mesh3D.faces mesh))
    /\ (forall face, face ∈ Mesh3D.faces mesh ->
          length face = 3%nat
          /\ forall i, i ∈ face -> (i < length (Mesh3D.vertices mesh))%nat)
    /\ (forall v, v ∈ Mesh3D.vertices mesh ->
          exists p, p ∈ depthPoints /\ Point3D.z v = (DepthPoint.depth p * 10)%float).
Proof.
  unfold MeshBuilder.reconstructMesh. cbv zeta.
  pose proof (collectVertices_spec
                (MeshBuilder.organizePointsInGrid depthPoints (ImageData.width imageData)
                   (ImageData.height imageData))
                (ImageData.width imageData) (ImageData.height imageData)) as Hv.
  destruct (MeshBuilder.collectVertices _ _ _) as [vertices textureCoords].
  destruct Hv as [Hlen Hz].
  destruct (collectFaces_spec vertices (ImageData.width imageData)
              (ImageData.height imageData)) as [Heven Hfaces].
  destruct (collectNormals_total env vertices _ Hfaces) as (normals & -> & Hn).
  eexists. split; [reflexivity|]. cbn [Mesh3D.textureCoords Mesh3D.vertices Mesh3D.normals
    Mesh3D.faces]. repeat split; try done.
  - by apply Hfaces.
  - by apply Hfaces.
  - intros v Hv. destruct (Hz v Hv) as (k & p & Hk & Hzv).
    exists p. split; [by eapply organizePointsInGrid_lookup|done].
Qed.

(** ** The mapping hook *)

Section MappingHookFacts.
Context (env : Env).

Lemma map_world_length {A B : Type} (f : A -> World -> B * World) (l : list A) (w : World) :
  length (fst (map_world f l w)) = length l.
Proof.
  revert w. induction l as [|a l IH]; intros w; [done|]. cbn [map_world].
  destruct (f a w) as [b w1]. specialize (IH w1).
  destruct (map_world f l w1) as [bs w2]. cbn [fst length] in *. by rewrite IH.
Qed.

Lemma map_world_lookup {A B : Type} (f : A -> World -> B * World) (l : list A) (w : World)
    (i : nat) (a : A) :
  l !! i = Some a -> exists w0, fst (map_world f l w) !! i = Some (fst (f a w0)).
Proof.
  revert w i. induction l as [|a0 l IH]; intros w i Hi; [done|]. cbn [map_world].
  destruct (f a0 w) as [b w1] eqn:E. specialize (IH w1).
  destruct (map_world f l w1) as [bs w2]. cbn [fst] in *.
  destruct i as [|i].
  - injection Hi as <-. exists w. by rewrite E.
  - by apply IH.
Qed.

Lemma getCurrentMap_sizes (this : SLAMProcessor.t) :
  length (SpatialMap.points_of (SLAMProcessor.getCurrentMap this))
  = length (SLAMProcessor.mapPoints this)
  /\ length (SpatialMap.landmarks (SLAMProcessor.getCurrentMap this))
     = length (SLAMProcessor.landmarks this).
Proof. unfold SLAMProcessor.getCurrentMap. cbn. by rewrite !length_map. Qed.

Lemma processFrame_snapshot imageData depthPoints motionVector (this : SLAMProcessor.t) w :
  fst (fst (SLAMProcessor.processFrame env imageData depthPoints motionVector this w))
  = SLAMProcessor.getCurrentMap
      (snd (fst (SLAMProcessor.processFrame env imageData depthPoints motionVector this w))).
Proof. by rewrite processFrame_stages. Qed.

Lemma hook_processFrame_mirrors imageData depthPoints (hook : MappingHook.t) w :
  MappingHook.mirrors hook ->
  MappingHook.mirrors (snd (fst (MappingHook.processFrame env imageData depthPoints hook w))).
Proof.
  intros Hm. unfold MappingHook.processFrame.
  destruct (negb _); [done|].
  pose proof (processFrame_snapshot imageData depthPoints (MappingHook.motionVectorRef hook)
                (MappingHook.slamProcessorRef hook) (tick w)) as Hsnap.
  destruct (SLAMProcessor.processFrame _ _ _ _ _ _) as [[map slam] w1].
  cbn [fst snd] in Hsnap. subst map.
  pose proof (map_world_length (MappingHook.describeLandmark env)
                (SpatialMap.landmarks (SLAMProcessor.getCurrentMap slam)) w1) as Hl.
  destruct (map_world (MappingHook.describeLandmark env) _ w1) as [landmarks w2].
  pose proof (map_world_length (MappingHook.ratePoint env)
                (SpatialMap.points_of (SLAMProcessor.getCurrentMap slam)) w2) as Hp.
  destruct (map_world (MappingHook.ratePoint env) _ w2) as [mapPoints w3].
  cbn [fst snd] in *. destruct (getCurrentMap_sizes slam) as [Hps Hls].
  unfold MappingHook.mirrors. cbn. rewrite !length_map. repeat split; congruence.
Qed.

End MappingHookFacts.

(** X20: whatever controls of the mapping hook were used and in whatever
    order, the state a component sees mirrors the engine held by the hook:
    [currentMap] is the engine's current snapshot, [trajectory] is the
    engine's trajectory, the lists [mapPoints] and [landmarks] have the
    sizes of the engine's, and the statistics count exactly the engine's
    points and landmarks. *)
Theorem mapping_hook_mirrors_engine env (hook : MappingHook.t) :
  MappingHook.reachable env hook ->
  UseMapping.currentMap (MappingHook.state hook)
  = SLAMProcessor.getCurrentMap (MappingHook.slamProcessorRef hook)
  /\ UseMapping.trajectory (MappingHook.state hook)
     = SLAMProcessor.getTrajectory (MappingHook.slamProcessorRef hook)
  /\ length (UseMapping.mapPoints (MappingHook.state hook))
     = length (SLAMProcessor.mapPoints (MappingHook.slamProcessorRef hook))
  /\ length (UseMapping.landmarks (MappingHook.state hook))
     = length (SLAMProcessor.landmarks (MappingHook.slamProcessorRef hook))
  /\ UseMapping.totalPoints (UseMapping.statistics_of (MappingHook.state hook))
     = length (SLAMProcessor.mapPoints (MappingHook.slamProcessorRef hook))
  /\ UseMapping.totalLandmarks (UseMapping.statistics_of (MappingHook.state hook))
     = length (SLAMProcessor.landmarks (MappingHook.slamProcessorRef hook)).
Proof.
  intros Hr. change (MappingHook.mirrors hook).
  induction Hr as [|hook w _ IH|hook _ IH|imageData depthPoints hook w _ IH|hook w _ IH
                   |hook _ IH|hook motion _ IH].
  - by vm_compute.
  - unfold MappingHook.startMapping. by destruct (negb _).
  - exact IH.
  - by apply hook_processFrame_mirrors.
  - by vm_compute.
  - destruct IH as (_ & Ht & Hp & Hl & _ & _).
    destruct (getCurrentMap_sizes (MappingHook.slamProcessorRef hook)) as [Hps Hls].
    unfold MappingHook.mirrors, MappingHook.optimizeMap. cbn. rewrite !length_map.
    repeat split; congruence.
  - exact IH.
Qed.

Lemma mapping_hook_mirrors_engine_witness :
  let started := fst (MappingHook.startMapping example_env MappingHook.initial world0) in
  let hook :=
    snd (fst (MappingHook.processFrame example_env example_frame
                [example_sample 0 0 0.5] started world0)) in
  UseMapping.totalPoints (UseMapping.statistics_of (MappingHook.state hook))
  = length (SLAMProcessor.mapPoints (MappingHook.slamProcessorRef hook)).
Proof.
  intros started hook.
  exact (proj1 (proj2 (proj2 (proj2 (proj2
           (mapping_hook_mirrors_engine example_env hook
              (MappingHook.reachable_processFrame example_env example_frame
                 [example_sample 0 0 0.5] started world0
                 (MappingHook.reachable_startMapping example_env MappingHook.initial world0
                    (MappingHook.reachable_initial example_env))))))))).
Defined.

(** X21: one frame through the mapping hook. While mapping is not active the
    call returns the stored map and changes nothing, reading no clock. While
    it is active the frame counter rises by one, the returned map is the
    stored one, every hook landmark repeats the identity, position, type and
    confidence of the map's landmark at its index, is described as
    "Landmark " followed by its type and carries 10 features, and every hook
    point repeats the coordinates and colour of the map's point at its
    index. *)
Theorem mapping_hook_processFrame env (imageData : ImageData.t)
    (depthPoints : list DepthPoint.t) (hook : MappingHook.t) (w : World) :
  let '(map, hook', w') := MappingHook.processFrame env imageData depthPoints hook w in
  if UseMapping.isActive (MappingHook.state hook) then
    UseMapping.currentMap (MappingHook.state hook') = map
    /\ UseMapping.frameCount (MappingHook.performanceRef hook')
       = S (UseMapping.frameCount (MappingHook.performanceRef hook))
    /\ UseMapping.isActive (MappingHook.state hook') = true
    /\ UseMapping.error (MappingHook.state hook') = None
    /\ (forall i l, SpatialMap.landmarks map !! i = Some l ->
          exists l', UseMapping.landmarks (MappingHook.state hook') !! i = Some l'
            /\ Landmark.id l' = SpatialMap.id l
            /\ Landmark.position l' = SpatialMap.position l
            /\ Landmark.type l' = SpatialMap.type l
            /\ Landmark.confidence l' = SpatialMap.confidence l
            /\ Landmark.description l' = ("Landmark " ++ SpatialMap.type l)%string
            /\ length (Landmark.features l') = 10%nat)
    /\ (forall i p, SpatialMap.points_of map !! i = Some p ->
          exists p', UseMapping.mapPoints (MappingHook.state hook') !! i = Some p'
            /\ MapPoint3D.x p' = SpatialMap.x p
            /\ MapPoint3D.y p' = SpatialMap.y p
            /\ MapPoint3D.z p' = SpatialMap.z p
            /\ MapPoint3D.color p' = SpatialMap.color p)
  else map = UseMapping.currentMap (MappingHook.state hook) /\ hook' = hook /\ w' = w.
Proof.
  unfold MappingHook.processFrame.
  destruct (UseMapping.isActive (MappingHook.state hook)) eqn:Hactive; cbn [negb]; [|done].
  destruct (SLAMProcessor.processFrame _ _ _ _ _ _) as [[map slam] w1].
  pose proof (map_world_lookup (MappingHook.describeLandmark env)
                (SpatialMap.landmarks map) w1) as Hl.
  destruct (map_world (MappingHook.describeLandmark env) _ w1) as [landmarks w2].
  pose proof (map_world_lookup (MappingHook.ratePoint env)
                (SpatialMap.points_of map) w2) as Hp.
  destruct (map_world (MappingHook.ratePoint env) _ w2) as [mapPoints w3].
  cbn [fst snd] in *. cbn. do 4 (split; [done|]). split.
  - intros i l Hi. destruct (Hl i l Hi) as [w0 Hw0]. eexists. split; [exact Hw0|].
    by repeat split.
  - intros i p Hi. destruct (Hp i p Hi) as [w0 Hw0]. eexists. split; [exact Hw0|].
    by repeat split.
Qed.

(** ** The mapping engine: the landmarks it keeps *)

Section Landmarks.
Context (env : Env).

Lemma euclideanDistance_sym (a b : Vec3) :
  SLAMProcessor.euclideanDistance env a b = SLAMProcessor.euclideanDistance env b a.
Proof.
  destruct a as [[a0 a1] a2], b as [[b0 b1] b2]. unfold SLAMProcessor.euclideanDistance.
  rewrite !Math_pow_2.
  by rewrite (square_sub_swap a0), (square_sub_swap a1), (square_sub_swap a2).
Qed.

Lemma ForallOrdPairs_snoc {A : Type} (R : A -> A -> Prop) (l : list A) (x : A) :
  ForallOrdPairs R l -> List.Forall (fun a => R a x) l -> ForallOrdPairs R (l ++ [x]).
Proof.
  induction 1 as [|a l Ha Hl IH]; intros Hx; cbn [app].
  - constructor; [constructor|constructor].
  - apply List.Forall_cons_iff in Hx as [Hax Hx]. constructor; [|by apply IH].
    apply List.Forall_app. split; [done|]. by constructor.
Qed.

Lemma ForallOrdPairs_Permutation {A : Type} (R : A -> A -> Prop) (l l' : list A) :
  (forall a b, R a b -> R b a) ->
  Permutation l l' -> ForallOrdPairs R l -> ForallOrdPairs R l'.
Proof.
  intros Hsym Hp. induction Hp as [|x l l' Hp IH|x y l|l l' l'' _ IH1 _ IH2]; intros H.
  - done.
  - inversion H as [|? ? Hx Hl]; subst. constructor; [|by apply IH].
    by rewrite <- Hp.
  - inversion H as [|? ? Hy Hl]; subst. inversion Hl as [|? ? Hx Hl']; subst.
    apply List.Forall_cons_iff in Hy as [Hyx Hy].
    constructor; [|by constructor]. constructor; [by apply Hsym|done].
  - by apply IH2, IH1.
Qed.

Lemma ForallOrdPairs_take {A : Type} (R : A -> A -> Prop) (n : nat) (l : list A) :
  ForallOrdPairs R l -> ForallOrdPairs R (firstn n l).
Proof.
  intros H. revert n. induction H as [|a l Ha Hl IH]; intros [|n]; cbn [firstn];
    try constructor; [|apply IH].
  by apply Forall_take.
Qed.

Lemma ForallOrdPairs_lookup {A : Type} (R : A -> A -> Prop) (l : list A) (i j : nat) (a b : A) :
  ForallOrdPairs R l -> (i < j)%nat -> l !! i = Some a -> l !! j = Some b -> R a b.
Proof.
  intros H. revert i j. induction H as [|x l Hx Hl IH]; intros i j Hij Hi Hj; [done|].
  destruct j as [|j]; [lia|]. destruct i as [|i].
  - injection Hi as <-. cbn in Hj. apply List.Forall_forall with (x := b) in Hx; [done|].
    apply list_elem_of_In. by eapply list_elem_of_lookup_2.
  - cbn in Hi, Hj. apply (IH i j); [lia|done..].
Qed.

Lemma extractLandmarkFeatures_length (cluster : list MapPoint3D.t) :
  length (SLAMProcessor.extractLandmarkFeatures cluster) = 10%nat.
Proof.
  unfold SLAMProcessor.extractLandmarkFeatures.
  destruct (SLAMProcessor.calculateCentroid cluster) as [[c0 c1] c2].
  by destruct (SLAMProcessor.calculateAverageColor cluster) as [[a0 a1] a2].
Qed.

(** What the landmark list of the engine satisfies at all times. *)
Lemma considerCluster_keeps (P := fun landmarks : list Landmark.t =>
    ForallOrdPairs
      (fun a b => (SLAMProcessor.euclideanDistance env (Landmark.position a)
                     (Landmark.position b) <? 0.2)%float = false) landmarks
    /\ List.Forall (fun l => length (Landmark.features l) = 10%nat) landmarks)
    (landmarks : list Landmark.t) (cluster : list MapPoint3D.t) (w : World) :
  P landmarks -> P (fst (SLAMProcessor.considerCluster env landmarks cluster w)).
Proof.
  intros [Hpairs Hfeat]. unfold SLAMProcessor.considerCluster.
  destruct (length cluster <? 10)%nat; [done|].
  destruct (SLAMProcessor.classifyLandmark env cluster w) as [landmarkType w1].
  destruct (List.find _ landmarks) as [found|] eqn:Hfind; [done|].
  cbn [fst read_clock draw_random]. split.
  - apply ForallOrdPairs_snoc; [done|]. apply List.Forall_forall. intros x Hx.
    cbn [Landmark.position]. by apply (find_none _ _ Hfind).
  - apply List.Forall_app. split; [done|]. constructor; [|constructor].
    cbn [Landmark.features]. apply extractLandmarkFeatures_length.
Qed.

Lemma detectLandmarks_keeps (points : list MapPoint3D.t) (this : SLAMProcessor.t) (w : World) :
  let P := fun landmarks : list Landmark.t =>
    ForallOrdPairs
      (fun a b => (SLAMProcessor.euclideanDistance env (Landmark.position a)
                     (Landmark.position b) <? 0.2)%float = false) landmarks
    /\ List.Forall (fun l => length (Landmark.features l) = 10%nat) landmarks in
  P (SLAMProcessor.landmarks this) ->
  P (SLAMProcessor.landmarks (fst (SLAMProcessor.detectLandmarks env points this w))).
Proof.
  intros P HP. unfold SLAMProcessor.detectLandmarks.
  assert (Hfold : P (fst (fold_left
            (fun '(landmarks, w) cluster => SLAMProcessor.considerCluster env landmarks cluster w)
            (SLAMProcessor.clusterPoints env points) (SLAMProcessor.landmarks this, w)))).
  { apply (fold_left_invariant (fun acc : list Landmark.t * World => P (fst acc))); [done|].
    intros [landmarks w0] cluster _ Hacc. by apply considerCluster_keeps. }
  destruct (fold_left _ _ _) as [found w']. cbn [fst SLAMProcessor.landmarks] in *.
  destruct Hfold as [Hpairs Hfeat]. split.
  - apply ForallOrdPairs_take.
    eapply ForallOrdPairs_Permutation; [|symmetry; apply sort_Permutation|done].
    intros a b. by rewrite euclideanDistance_sym.
  - apply List.Forall_forall. intros l Hl.
    apply list_elem_of_In, subseteq_take in Hl. rewrite sort_Permutation in Hl.
    apply List.Forall_forall with (x := l) in Hfeat; [done|by apply list_elem_of_In].
Qed.

Lemma processFrame_landmarks imageData depthPoints motionVector (this : SLAMProcessor.t) w :
  exists points inserted w0,
    SLAMProcessor.landmarks inserted = SLAMProcessor.landmarks this
    /\ SLAMProcessor.landmarks
         (snd (fst (SLAMProcessor.processFrame env imageData depthPoints motionVector this w)))
       = SLAMProcessor.landmarks (fst (SLAMProcessor.detectLandmarks env points inserted w0)).
Proof.
  rewrite processFrame_stages. cbv zeta. cbn [fst snd].
  set (mw := SLAMProcessor.estimateCameraMovement env motionVector w).
  destruct (updateTrajectory_spec env (fst mw) this (snd mw)) as (_ & Hl & _ & _).
  set (tw := SLAMProcessor.updateTrajectory env (fst mw) this (snd mw)) in *.
  set (pw := SLAMProcessor.convertDepthTo3D env depthPoints imageData (fst tw) (snd tw)).
  eexists (fst pw), _, (snd pw). split; [|by rewrite optimizeMap_spec].
  exact Hl.
Qed.

End Landmarks.

(** X22: in every state the engine can reach, no two landmarks lie within
    0.2 of each other (the distance of their positions is never below 0.2),
    and every landmark carries exactly 10 features. *)
Theorem reachable_landmarks_apart env (this : SLAMProcessor.t) :
  SLAMProcessor.reachable env this ->
  (forall i j a b, i <> j ->
     SLAMProcessor.landmarks this !! i = Some a ->
     SLAMProcessor.landmarks this !! j = Some b ->
     (SLAMProcessor.euclideanDistance env (Landmark.position a) (Landmark.position b)
      <? 0.2)%float = false)
  /\ (forall l, l ∈ SLAMProcessor.landmarks this -> length (Landmark.features l) = 10%nat).
Proof.
  intros Hr.
  assert (H : ForallOrdPairs
                (fun a b => (SLAMProcessor.euclideanDistance env (Landmark.position a)
                               (Landmark.position b) <? 0.2)%float = false)
                (SLAMProcessor.landmarks this)
              /\ List.Forall (fun l => length (Landmark.features l) = 10%nat)
                   (SLAMProcessor.landmarks this)).
  { induction Hr as [|imageData depthPoints motionVector this w _ IH|this _ _].
    - split; constructor.
    - destruct (processFrame_landmarks env imageData depthPoints motionVector this w)
        as (points & inserted & w0 & Hsame & ->).
      apply detectLandmarks_keeps. by rewrite Hsame.
    - split; constructor. }
  destruct H as [Hpairs Hfeat]. split.
  - intros i j a b Hne Hi Hj.
    destruct (Nat.lt_total i j) as [Hlt|[->|Hlt]]; [|done|].
    + by apply (ForallOrdPairs_lookup _ _ i j a b Hpairs).
    + rewrite euclideanDistance_sym. by apply (ForallOrdPairs_lookup _ _ j i b a Hpairs).
  - intros l Hl. apply List.Forall_forall with (x := l) in Hfeat; [done|].
    by apply list_elem_of_In.
Qed.

Lemma example_mapped_reachable : SLAMProcessor.reachable example_env_varied example_mapped.
Proof. apply SLAMProcessor.reachable_processFrame, SLAMProcessor.reachable_new. Qed.

Lemma reachable_landmarks_apart_witness :
  exists a b,
    SLAMProcessor.landmarks example_mapped = [a; b]
    /\ (SLAMProcessor.euclideanDistance example_env_varied (Landmark.position a)
          (Landmark.position b) <? 0.2)%float = false
    /\ length (Landmark.features a) = 10%nat /\ length (Landmark.features b) = 10%nat.
Proof.
  destruct (reachable_landmarks_apart example_env_varied example_mapped
              example_mapped_reachable) as [Hpairs Hfeat].
  eexists _, _. split; [vm_compute; reflexivity|]. split; [|split].
  - apply (Hpairs 0%nat 1%nat); [lia|vm_compute; reflexivity..].
  - apply Hfeat. apply list_elem_of_lookup. exists 0%nat. vm_compute. reflexivity.
  - apply Hfeat. apply list_elem_of_lookup. exists 1%nat. vm_compute. reflexivity.
Defined.

(** ** The mapping engine: the order of the landmarks *)

Section SignOfDifference.

Lemma binary_round_aux_pos s m e l :
  SFltb (S754_zero false) (binary_round_aux prec emax s m e l) = true -> s = false.
Proof.
  unfold binary_round_aux.
  destruct (shr_fexp prec emax m e l) as [mrs1 e1].
  destruct (shr_fexp prec emax _ e1 loc_Exact) as [mrs2 e2].
  destruct (shr_m mrs2); [done| |done].
  destruct (e2 <=? emax - prec)%Z; by destruct s.
Qed.

Lemma binary_normalize_pos v e :
  SFltb (S754_zero false) (binary_normalize prec emax v e false) = true -> (0 < v)%Z.
Proof.
  destruct v as [|p|p]; [done|lia|]. cbn [binary_normalize]. unfold binary_round.
  destruct (shl_align _ _ _) as [mz ez]. intros H. by apply binary_round_aux_pos in H.
Qed.

Lemma SFsub_pos_swap a b :
  SFltb (S754_zero false) (SFsub prec emax a b) = true ->
  SFltb (S754_zero false) (SFsub prec emax b a) = false.
Proof.
  destruct a as [sa|sa| |sa ma ea], b as [sb|sb| |sb mb eb];
    try (by destruct sa, sb); try done.
  cbn [SFsub]. rewrite (Z.min_comm eb ea). intros H. apply binary_normalize_pos in H.
  apply not_true_iff_false. intros H'. apply binary_normalize_pos in H'. lia.
Qed.

(** When [x - y] is positive, [y - x] is not. *)
Lemma sub_pos_swap (x y : float) :
  (0 <? x - y)%float = true -> (0 <? y - x)%float = false.
Proof.
  rewrite !ltb_spec, !sub_spec. change (Prim2SF 0) with (S754_zero false).
  apply SFsub_pos_swap.
Qed.

End SignOfDifference.

Section SortedArrays.
Context {A : Type} (cmp : A -> A -> float).
Hypothesis cmp_asym : forall a b, (0 <? cmp a b)%float = true -> (0 <? cmp b a)%float = false.

Lemma sort_insert_chain (x : A) (l : list A) :
  LandmarkFacts.chain (fun a b => (0 <? cmp a b)%float = false) l ->
  LandmarkFacts.chain (fun a b => (0 <? cmp a b)%float = false) (JS.sort_insert cmp x l).
Proof using cmp_asym.
  induction l as [|y rest IH]; [done|]. cbn [JS.sort_insert].
  destruct (0 <? cmp x y)%float eqn:E; [|by intros H; split].
  destruct rest as [|z r].
  - intros _. cbn. split; [by apply cmp_asym|done].
  - intros [Hyz Hrest]. specialize (IH Hrest). cbn [JS.sort_insert] in IH |- *.
    destruct (0 <? cmp x z)%float eqn:E2.
    + by split.
    + split; [by apply cmp_asym|]. by split.
Qed.

Lemma sort_chain (l : list A) :
  LandmarkFacts.chain (fun a b => (0 <? cmp a b)%float = false) (JS.sort cmp l).
Proof using cmp_asym.
  induction l as [|x l IH]; [done|]. cbn [JS.sort fold_right]. by apply sort_insert_chain.
Qed.

(** Sorting an array that is in order returns it. *)
Lemma sort_chain_id (l : list A) :
  LandmarkFacts.chain (fun a b => (0 <? cmp a b)%float = false) l -> JS.sort cmp l = l.
Proof.
  induction l as [|x l IH]; [done|]. intros H. cbn [JS.sort fold_right].
  change (fold_right (JS.sort_insert cmp) [] l) with (JS.sort cmp l).
  destruct l as [|y l]; [done|]. destruct H as [Hxy Hl]. rewrite (IH Hl).
  cbn [JS.sort_insert]. by rewrite Hxy.
Qed.

Lemma chain_take (R : A -> A -> Prop) (n : nat) (l : list A) :
  LandmarkFacts.chain R l -> LandmarkFacts.chain R (firstn n l).
Proof.
  revert n. induction l as [|a l IH]; intros n H; [by destruct n|].
  destruct n as [|n]; [done|]. cbn [firstn].
  destruct l as [|b l]; [by destruct n|]. destruct H as [Hab Hl].
  specialize (IH n Hl). destruct n as [|n]; [done|]. cbn [firstn] in IH |- *. by split.
Qed.

Lemma chain_lookup (R : A -> A -> Prop) (l : list A) (i : nat) (a b : A) :
  LandmarkFacts.chain R l -> l !! i = Some a -> l !! S i = Some b -> R a b.
Proof.
  revert i. induction l as [|x l IH]; intros i H Hi Hj; [done|].
  destruct l as [|y l]; [done|]. destruct H as [Hxy Hl].
  destruct i as [|i].
  - injection Hi as <-. by injection Hj as <-.
  - by apply (IH i).
Qed.

End SortedArrays.

Section LandmarkOrder.
Context (env : Env).

(** What the landmark list of the engine satisfies at all times. *)
Lemma reachable_landmarks_chain (this : SLAMProcessor.t) :
  SLAMProcessor.reachable env this ->
  (length (SLAMProcessor.landmarks this) <= 50)%nat
  /\ LandmarkFacts.chain
       (fun a b => (0 <? SLAMProcessor.by_confidence_desc a b)%float = false)
       (SLAMProcessor.landmarks this).
Proof.
  intros Hr.
  destruct Hr as [|imageData depthPoints motionVector this w _|this _];
    [by cbn; lia| |by cbn; lia].
  destruct (processFrame_landmarks env imageData depthPoints motionVector this w)
    as (points & inserted & w0 & _ & ->).
  split; [apply detectLandmarks_spec|].
  unfold SLAMProcessor.detectLandmarks. destruct (fold_left _ _ _) as [found w'].
  cbn [fst SLAMProcessor.landmarks]. apply chain_take, sort_chain.
  intros a b. apply sub_pos_swap.
Qed.

(** Sorting and cutting the landmarks of a reachable state returns them. *)
Lemma reachable_landmarks_sorted (this : SLAMProcessor.t) :
  SLAMProcessor.reachable env this ->
  firstn 50 (JS.sort SLAMProcessor.by_confidence_desc (SLAMProcessor.landmarks this))
  = SLAMProcessor.landmarks this.
Proof.
  intros Hr. destruct (reachable_landmarks_chain this Hr) as [Hlen Hchain].
  rewrite (sort_chain_id _ _ Hchain). by apply firstn_all2.
Qed.

End LandmarkOrder.

(** X23: in every state the engine can reach, the landmarks are at most 50
    and stand in order of confidence: no landmark is followed by one of
    higher confidence (the difference of the next one's confidence and its
    own is never positive). *)
Theorem reachable_landmarks_ordered env (this : SLAMProcessor.t) :
  SLAMProcessor.reachable env this ->
  (length (SLAMProcessor.landmarks this) <= 50)%nat
  /\ forall i a b,
       SLAMProcessor.landmarks this !! i = Some a ->
       SLAMProcessor.landmarks this !! S i = Some b ->
       (0 <? Landmark.confidence b - Landmark.confidence a)%float = false.
Proof.
  intros Hr. destruct (reachable_landmarks_chain env this Hr) as [Hlen Hchain].
  split; [done|]. intros i a b Hi Hj.
  exact (chain_lookup _ _ i a b Hchain Hi Hj).
Qed.

(** The two landmarks of [example_mapped]: the one created second is the
    more confident and stands first. *)
Lemma reachable_landmarks_ordered_witness :
  exists a b,
    SLAMProcessor.landmarks example_mapped = [a; b]
    /\ (0 <? Landmark.confidence b - Landmark.confidence a)%float = false
    /\ (Landmark.confidence b <? Landmark.confidence a)%float = true.
Proof.
  destruct (reachable_landmarks_ordered example_env_varied example_mapped
              example_mapped_reachable) as [_ Hord].
  eexists _, _. split; [vm_compute; reflexivity|]. split.
  - apply (Hord 0%nat); vm_compute; reflexivity.
  - vm_compute. reflexivity.
Defined.

(** ** The analysis hook: the morphology map *)

Section MorphologyMap.

Lemma morphologyMap_snoc (objects : list DetectedObject.t) (object : DetectedObject.t)
    (depthPoints : list DepthPoint.t) :
  Analysis3DHook.morphologyMap (objects ++ [object]) depthPoints
  = <[DetectedObject.id object := Analysis3D.analyzeMorphology object depthPoints]>
      (Analysis3DHook.morphologyMap objects depthPoints).
Proof. unfold Analysis3DHook.morphologyMap. by rewrite fold_left_app. Qed.

Lemma analyzeMorphology_objectId (object : DetectedObject.t) (depthPoints : list DepthPoint.t) :
  MorphologyAnalysis.objectId (Analysis3D.analyzeMorphology object depthPoints)
  = DetectedObject.id object.
Proof. unfold Analysis3D.analyzeMorphology. by destruct (length _ =? 0)%nat. Qed.

Lemma morphologyMap_lookup (objects : list DetectedObject.t) (depthPoints : list DepthPoint.t)
    (objectId : string) :
  Analysis3DHook.morphologyMap objects depthPoints !! objectId
  = (fun object => Analysis3D.analyzeMorphology object depthPoints)
      <$> last (List.filter (fun object => String.eqb (DetectedObject.id object) objectId)
                  objects).
Proof.
  induction objects as [|object objects IH] using rev_ind; [done|].
  rewrite morphologyMap_snoc, List.filter_app. cbn [List.filter].
  destruct (String.eqb_spec (DetectedObject.id object) objectId) as [<-|Hne].
  - by rewrite lookup_insert_eq, last_snoc.
  - by rewrite lookup_insert_ne, app_nil_r.
Qed.

End MorphologyMap.

(** X24: the morphology map the analysis hook builds holds, under every
    identity, the analysis of the LAST object of the list that carries this
    identity, and nothing under an identity no object carries; an analysis
    is always stored under its own [objectId], and the map has at most one
    entry per object. *)
Theorem analyzeMorphology_last_wins env (objects : list DetectedObject.t)
    (state : Analysis3DHook.Analysis3DState) (w : World) :
  let '(returned, state', _) := Analysis3DHook.analyzeMorphology env objects state w in
  Analysis3DHook.morphologyAnalysis state' = returned
  /\ (forall objectId,
        Analysis3DHook.getObjectMorphology state' objectId
        = (fun object =>
             Analysis3D.analyzeMorphology object (Analysis3DHook.depthPoints state))
            <$> last (List.filter
                        (fun object => String.eqb (DetectedObject.id object) objectId)
                        objects))
  /\ (forall objectId analysis,
        returned !! objectId = Some analysis ->
        MorphologyAnalysis.objectId analysis = objectId)
  /\ (size returned <= length objects)%nat.
Proof.
  unfold Analysis3DHook.analyzeMorphology, Analysis3DHook.getObjectMorphology.
  cbn [Analysis3DHook.morphologyAnalysis]. split; [done|].
  split; [intros objectId; apply morphologyMap_lookup|]. split.
  - intros objectId analysis. rewrite morphologyMap_lookup.
    destruct (last _) as [object|] eqn:Hlast; [|done]. intros [= <-].
    rewrite analyzeMorphology_objectId.
    apply last_Some_elem_of, list_elem_of_In, filter_In in Hlast as [_ Hid].
    by apply String.eqb_eq in Hid.
  - generalize (Analysis3DHook.depthPoints state). intros depthPoints.
    induction objects as [|object objects IH] using rev_ind.
    + unfold Analysis3DHook.morphologyMap. cbn [fold_left length]. by rewrite map_size_empty.
    + rewrite morphologyMap_snoc, length_app. cbn [length].
      pose proof (map_size_insert (DetectedObject.id object)
                    (Analysis3D.analyzeMorphology object depthPoints)
                    (Analysis3DHook.morphologyMap objects depthPoints)) as Hsize.
      destruct (Analysis3DHook.morphologyMap objects depthPoints !! _) in Hsize;
        unfold id in Hsize; lia.
Qed.

(** ** The mapping engine: the neighbour an insertion compares with *)

Section Retained.
Context (env : Env).
Implicit Types (mapPoints : list MapPoint3D.t) (point : MapPoint3D.t).

(** The entries of [imap pair l] carry increasing indices. *)
Lemma imap_pair_ordered {A : Type} (l : list A) (k : nat) :
  ForallOrdPairs (fun x y : nat * A => (fst x < fst y)%nat) (imap (fun i => pair (k + i)%nat) l).
Proof.
  revert k. induction l as [|a l IH]; intros k; [constructor|].
  rewrite imap_cons. constructor.
  - apply List.Forall_forall. intros [j y] Hy. apply list_elem_of_In in Hy.
    apply elem_of_lookup_imap in Hy as (i & z & Heq & _). cbn in Heq.
    injection Heq as -> ->. cbn. lia.
  - rewrite (imap_ext _ (fun i => pair (S k + i)%nat)); [apply IH|].
    intros i x _. cbn. f_equal. lia.
Qed.

Lemma ForallOrdPairs_filter {A : Type} (R : A -> A -> Prop) (f : A -> bool) (l : list A) :
  ForallOrdPairs R l -> ForallOrdPairs R (List.filter f l).
Proof.
  induction 1 as [|a l Ha Hl IH]; [constructor|]. cbn [List.filter].
  destruct (f a); [|done]. constructor; [|done].
  apply List.Forall_forall. intros x Hx. apply filter_In in Hx as [Hx _].
  by apply (proj1 (List.Forall_forall _ _) Ha).
Qed.

Lemma ForallOrdPairs_snoc_inv {A : Type} (R : A -> A -> Prop) (l : list A) (b : A) :
  ForallOrdPairs R (l ++ [b]) -> ForallOrdPairs R l /\ forall e, In e l -> R e b.
Proof.
  induction l as [|a l IH]; cbn [app]; intros H; [split; [constructor|intros e []]|].
  inversion H as [|? ? Ha Hl]; subst. destruct (IH Hl) as [IH1 IH2].
  apply List.Forall_app in Ha as [Ha Hab]. split; [by constructor|].
  intros e [<-|He]; [by inversion Hab|by apply IH2].
Qed.

Lemma nearbyPoints_ordered mapPoints point :
  ForallOrdPairs (fun x y : nat * MapPoint3D.t => (fst x < fst y)%nat)
    (SLAMProcessor.nearbyPoints env mapPoints point).
Proof.
  unfold SLAMProcessor.nearbyPoints. apply ForallOrdPairs_filter.
  rewrite (imap_ext _ (fun i => pair (0 + i)%nat)) by done. apply imap_pair_ordered.
Qed.

(** [reduce] leaves behind only entries less confident than the one it
    returns. *)
Lemma reduce1_later (others : list (nat * MapPoint3D.t)) (first : nat * MapPoint3D.t) :
  ForallOrdPairs (fun x y : nat * MapPoint3D.t => (fst x < fst y)%nat) (first :: others) ->
  forall e, In e (first :: others) ->
    (fst (JS.reduce1 SLAMProcessor.more_confident first others) < fst e)%nat ->
    (MapPoint3D.confidence (snd e)
     <? MapPoint3D.confidence (snd (JS.reduce1 SLAMProcessor.more_confident first others)))%float
    = true.
Proof.
  induction others as [|b l IH] using rev_ind; intros Hord e He Hlt.
  - destruct He as [<-|[]]. cbn in Hlt. lia.
  - change (first :: l ++ [b]) with ((first :: l) ++ [b]) in Hord.
    apply ForallOrdPairs_snoc_inv in Hord as [Hord Hb].
    unfold JS.reduce1 in *. rewrite fold_left_app in *. cbn [fold_left] in *.
    pose proof (reduce1_In first l) as Hin. unfold JS.reduce1 in Hin.
    set (r := fold_left SLAMProcessor.more_confident l first) in *.
    assert (He' : In e (first :: l) \/ e = b).
    { destruct He as [<-|He]; [left; by left|].
      apply in_app_or in He as [He|[<-|[]]]; [left; by right|by right]. }
    unfold SLAMProcessor.more_confident in *.
    destruct (MapPoint3D.confidence (snd b) <? MapPoint3D.confidence (snd r))%float eqn:Hc.
    + destruct He' as [He'| ->]; [by apply IH|done].
    + destruct He' as [He'| ->]; [|lia]. specialize (Hb e He'). lia.
Qed.

Lemma fold_more_confident_stays (others : list (nat * MapPoint3D.t)) (acc : nat * MapPoint3D.t) :
  (forall q, In q others ->
     (MapPoint3D.confidence (snd q) <? MapPoint3D.confidence (snd acc))%float = true) ->
  fold_left SLAMProcessor.more_confident others acc = acc.
Proof.
  induction others as [|b l IH]; intros H; [done|]. cbn [fold_left].
  unfold SLAMProcessor.more_confident at 2. rewrite H by (by left).
  apply IH. intros q Hq. apply H. by right.
Qed.

(** The neighbour [reduce] returns is the retained one. *)
Lemma reduce1_retained mapPoints point first others :
  SLAMProcessor.nearbyPoints env mapPoints point = first :: others ->
  MapFacts.retained env mapPoints point
    (fst (JS.reduce1 SLAMProcessor.more_confident first others))
    (snd (JS.reduce1 SLAMProcessor.more_confident first others)).
Proof.
  intros E. pose proof (reduce1_In first others) as Hin. rewrite <- E in Hin.
  pose proof (nearbyPoints_ordered mapPoints point) as Hord. rewrite E in Hord.
  destruct (JS.reduce1 SLAMProcessor.more_confident first others) as [i best] eqn:Hr.
  apply elem_of_nearbyPoints in Hin as [Hi Hnear]. cbn [fst snd].
  split; [done|]. split; [done|]. split.
  - intros j q Hij Hj Hq.
    assert (Hjq : In (j, q) (first :: others)).
    { rewrite <- E. by apply elem_of_nearbyPoints. }
    pose proof (reduce1_later others first Hord (j, q) Hjq) as Hlater.
    rewrite Hr in Hlater. by apply Hlater.
  - intros Hrated q Hq Hnq. apply list_elem_of_lookup in Hq as [j Hj].
    assert (Hjq : In (j, q) (first :: others)).
    { rewrite <- E. by apply elem_of_nearbyPoints. }
    pose proof (fold_more_confident_max others first []) as Hmax.
    unfold JS.reduce1 in Hr. rewrite Hr in Hmax. cbn [snd app] in Hmax.
    apply (Hmax) with (e := (j, q)); [|done|done].
    intros [k x] Hkx. cbn [snd]. rewrite <- E in Hkx.
    apply elem_of_nearbyPoints in Hkx as [Hk Hx].
    apply Hrated; [|done]. apply list_elem_of_lookup. by exists k.
Qed.

(** The three outcomes of one insertion. *)
Lemma addPoint_cases mapPoints point :
  let result := SLAMProcessor.addPoint env mapPoints point in
  ((forall q, q ∈ mapPoints -> MapFacts.near env point q = false)
   /\ result = mapPoints ++ [point])
  \/ (exists i best,
        MapFacts.retained env mapPoints point i best
        /\ (MapPoint3D.confidence best <? MapPoint3D.confidence point)%float = false
        /\ result = mapPoints)
  \/ (exists i best,
        MapFacts.retained env mapPoints point i best
        /\ (MapPoint3D.confidence best <? MapPoint3D.confidence point)%float = true
        /\ result = <[i := point]> mapPoints).
Proof.
  cbv zeta. unfold SLAMProcessor.addPoint.
  destruct (SLAMProcessor.nearbyPoints env mapPoints point) as [|first others] eqn:E.
  - left. split; [by apply nearbyPoints_nil|done].
  - pose proof (reduce1_retained mapPoints point first others E) as Hret.
    cbv zeta. destruct (JS.reduce1 _ _ _) as [i best]. cbn [fst snd] in *.
    destruct (_ <? _)%float eqn:Hc; [right; right|right; left]; by exists i, best.
Qed.

(** An overwrite keeps the map separated when the overwritten entry was
    the only neighbour. *)
Lemma separated_insert mapPoints point i best :
  MapFacts.separated env mapPoints ->
  mapPoints !! i = Some best ->
  (forall j q, j <> i -> mapPoints !! j = Some q -> MapFacts.near env point q = false) ->
  MapFacts.separated env (<[i := point]> mapPoints).
Proof.
  intros Hsep Hi Hfar j k a b Hjk Hj Hk.
  assert (Hlen : (i < length mapPoints)%nat) by by eapply lookup_lt_Some.
  destruct (decide (j = i)) as [->|Hji], (decide (k = i)) as [->|Hki]; [done|..].
  - rewrite list_lookup_insert_eq in Hj by done. injection Hj as <-.
    rewrite list_lookup_insert_ne in Hk by done. by apply (Hfar k).
  - rewrite list_lookup_insert_eq in Hk by done. injection Hk as <-.
    rewrite list_lookup_insert_ne in Hj by done. rewrite near_sym. by apply (Hfar j).
  - rewrite list_lookup_insert_ne in Hj, Hk by done. by apply (Hsep j k).
Qed.

Lemma addPoint_separated mapPoints point :
  MapFacts.separated env mapPoints ->
  MapFacts.at_most_one_neighbour env mapPoints point ->
  MapFacts.separated env (SLAMProcessor.addPoint env mapPoints point).
Proof.
  intros Hsep Hone.
  destruct (addPoint_cases mapPoints point)
    as [[Hfar ->]|[(i & best & _ & _ & ->)|(i & best & (Hi & Hnear & _) & _ & ->)]].
  - by apply separated_app.
  - done.
  - apply (separated_insert _ _ _ best); [done..|].
    intros j q Hji Hj. by apply (Hone i j best q).
Qed.

End Retained.

(** C1, as the code has it: the insertion of one point has three outcomes.
    With no map point within 0.05 of it, the point is appended. Otherwise
    the map keeps its size and the point meets the neighbour [reduce]
    retains (every neighbour further down the map is less confident than
    this one and, the confidences being numbers, none is more confident): the
    point is dropped when its confidence does not exceed that neighbour's,
    or it overwrites that one neighbour in place, every other entry of the
    map, the remaining neighbours included, being kept. A map with no two
    distinct points closer than 0.05 stays so through every insertion that
    finds at most one neighbour. *)
Theorem addPoint_dedup env (mapPoints : list MapPoint3D.t) (point : MapPoint3D.t) :
  let result := SLAMProcessor.addPoint env mapPoints point in
  (((forall q, q ∈ mapPoints -> MapFacts.near env point q = false)
    /\ result = mapPoints ++ [point]
    /\ (MapFacts.separated env mapPoints -> MapFacts.separated env result))
   \/ (exists i best,
         MapFacts.retained env mapPoints point i best
         /\ (MapPoint3D.confidence best <? MapPoint3D.confidence point)%float = false
         /\ result = mapPoints)
   \/ (exists i best,
         MapFacts.retained env mapPoints point i best
         /\ (MapPoint3D.confidence best <? MapPoint3D.confidence point)%float = true
         /\ result = <[i := point]> mapPoints
         /\ length result = length mapPoints
         /\ forall j q, j <> i -> mapPoints !! j = Some q -> result !! j = Some q))
  /\ (MapFacts.separated env mapPoints ->
      MapFacts.at_most_one_neighbour env mapPoints point ->
      MapFacts.separated env result).
Proof.
  intros result. subst result. split; [|apply addPoint_separated].
  destruct (addPoint_cases env mapPoints point)
    as [[Hfar E]|[(i & best & Hret & Hc & E)|(i & best & Hret & Hc & E)]].
  - left. split; [done|]. split; [done|]. rewrite E. intros Hsep. by apply separated_app.
  - right; left. by exists i, best.
  - right; right. exists i, best. rewrite E. do 3 (split; [done|]).
    split; [by rewrite length_insert|].
    intros j q Hj Hq. by rewrite list_lookup_insert_ne.
Qed.

(** The new point is compared with the most confident neighbour: between
    neighbours of confidence 0.9 and 0.1, a point of confidence 0.5 is
    dropped. *)
Example addPoint_meets_most_confident :
  let mapPoints := [example_point 0 0 0 0.9 0; example_point 0.01 0 0 0.1 0] in
  SLAMProcessor.addPoint example_env mapPoints (example_point 0.005 0 0 0.5 0) = mapPoints.
Proof. by vm_compute. Qed.
(** C1, as the claim words it, fails, already from the empty map: [a] and
    [b] are 0.08 apart and both are inserted; [c] lies 0.04 from each and is
    more confident, so it overwrites [b], the neighbour [reduce] retains, and
    the map ends with [a] and [c], 0.04 apart. *)
Lemma addPointsToMap_keeps_close_pair :
  let a := example_point 0 0 0 0.5 0 in
  let b := example_point 0.08 0 0 0.5 0 in
  let c := example_point 0.04 0 0 0.9 0 in
  SLAMProcessor.addPointsToMap example_env [a; b; c] [] = [a; c]
  /\ (SLAMProcessor.euclideanDistance3D example_env a c <? 0.05)%float = true
  /\ ~ MapFacts.separated example_env (SLAMProcessor.addPointsToMap example_env [a; b; c] []).
Proof.
  intros a b c. split; [by vm_compute|]. split; [by vm_compute|].
  intros Hsep. specialize (Hsep 0%nat 1%nat a c).
  assert (H : MapFacts.near example_env a c = false) by (apply Hsep; [lia|by vm_compute..]).
  by vm_compute in H.
Qed.

(** ** The mapping engine: inserting a point twice *)

Section Twice.
Context (env : Env).
Implicit Types (mapPoints : list MapPoint3D.t) (point : MapPoint3D.t).

(** The neighbours of [point] in a map, around one of its entries. *)
Lemma nearbyPoints_middle (l1 l2 : list MapPoint3D.t) (x : MapPoint3D.t) point :
  SLAMProcessor.nearbyPoints env (l1 ++ x :: l2) point
  = SLAMProcessor.nearbyPoints env l1 point
    ++ (if MapFacts.near env point x then [(length l1, x)] else [])
    ++ List.filter
         (fun existing =>
            (SLAMProcessor.euclideanDistance3D env point (snd existing) <? 0.05)%float)
         (imap (fun k => pair (S (length l1) + k)%nat) l2).
Proof.
  unfold SLAMProcessor.nearbyPoints. rewrite imap_app, List.filter_app, imap_cons.
  f_equal. cbn [List.filter snd]. unfold MapFacts.near. rewrite Nat.add_0_r.
  rewrite (imap_ext _ (fun k => pair (S (length l1) + k)%nat)) by (intros; cbn; f_equal; lia).
  by destruct (_ <? _)%float.
Qed.

Lemma addPoint_again_appended mapPoints point :
  MapFacts.finite_point point ->
  SLAMProcessor.nearbyPoints env mapPoints point = [] ->
  SLAMProcessor.addPoint env (mapPoints ++ [point]) point = mapPoints ++ [point].
Proof.
  intros Hfin Hnil. unfold SLAMProcessor.addPoint.
  rewrite nearbyPoints_middle, Hnil, (distance_self env point Hfin).
  cbn [imap List.filter app JS.reduce1 fold_left fst snd]. by rewrite ltb_irrefl.
Qed.

(** After a point has overwritten the retained neighbour, it is itself the
    retained one, or a map point more confident than it is. *)
Lemma addPoint_again_replaced mapPoints point i best :
  MapFacts.finite_point point ->
  MapFacts.retained env mapPoints point i best ->
  (MapPoint3D.confidence best <? MapPoint3D.confidence point)%float = true ->
  SLAMProcessor.addPoint env (<[i := point]> mapPoints) point = <[i := point]> mapPoints.
Proof.
  intros Hfin (Hi & Hnear & Hlater & _) Hc.
  assert (Hlen : (i < length mapPoints)%nat) by by eapply lookup_lt_Some.
  rewrite (insert_take_drop _ _ _ Hlen).
  set (l1 := take i mapPoints). set (l2 := drop (S i) mapPoints).
  assert (Hl1 : length l1 = i) by (subst l1; rewrite length_take; lia).
  unfold SLAMProcessor.addPoint. rewrite nearbyPoints_middle, (distance_self env point Hfin).
  set (B := List.filter _ (imap _ l2)).
  assert (HB : forall q, In q B ->
            (MapPoint3D.confidence (snd q) <? MapPoint3D.confidence point)%float = true).
  { intros [j q] Hq. subst B. apply filter_In in Hq as [Hq Hnq].
    apply list_elem_of_In, elem_of_lookup_imap in Hq as (k & y & [= -> ->] & Hk).
    cbn [snd] in *. subst l2. rewrite lookup_drop in Hk.
    apply (ltb_trans _ (MapPoint3D.confidence best)); [|done].
    apply (Hlater (S (length l1) + k)%nat); [lia| |done].
    by rewrite Hl1. }
  destruct (SLAMProcessor.nearbyPoints env l1 point) as [|a0 A] eqn:EA; cbn [app].
  - unfold JS.reduce1. rewrite (fold_more_confident_stays B (length l1, point)) by done.
    cbn [fst snd]. by rewrite ltb_irrefl.
  - unfold JS.reduce1. rewrite fold_left_app. cbn [fold_left].
    set (a := fold_left SLAMProcessor.more_confident A a0).
    destruct (MapPoint3D.confidence point <? MapPoint3D.confidence (snd a))%float eqn:Ha.
    + assert (Hm : SLAMProcessor.more_confident a (length l1, point) = a)
        by (unfold SLAMProcessor.more_confident; cbn [snd]; by rewrite Ha).
      rewrite Hm, (fold_more_confident_stays B a).
      * destruct (ltb_true_number _ _ Ha) as [Hp Hna].
        by rewrite (ltb_asym _ _ Hp Hna Ha).
      * intros q Hq. by apply (ltb_trans _ (MapPoint3D.confidence point)); [apply HB|].
    + assert (Hm : SLAMProcessor.more_confident a (length l1, point) = (length l1, point))
        by (unfold SLAMProcessor.more_confident; cbn [snd]; by rewrite Ha).
      rewrite Hm, (fold_more_confident_stays B (length l1, point)) by done.
      cbn [fst snd]. by rewrite ltb_irrefl.
Qed.

(** A second insertion of a point of finite coordinates changes nothing. *)
Lemma addPoint_again mapPoints point :
  MapFacts.finite_point point ->
  SLAMProcessor.addPoint env (SLAMProcessor.addPoint env mapPoints point) point
  = SLAMProcessor.addPoint env mapPoints point.
Proof.
  intros Hfin.
  destruct (addPoint_cases env mapPoints point)
    as [[Hfar E]|[(i & best & Hret & Hc & E)|(i & best & Hret & Hc & E)]].
  - rewrite E. apply addPoint_again_appended; [done|]. by apply nearbyPoints_nil.
  - rewrite E. exact E.
  - rewrite E. by apply (addPoint_again_replaced _ _ _ best).
Qed.

End Twice.

(** C7, for the points the insertion step can match with themselves: a
    point of finite coordinates inserted a second time, right after the
    first, leaves the map exactly as the first insertion left it. The second
    insertion finds a map point within the tolerance (the one the first
    insertion kept there), so it does not append, the number of map points
    stays, and it overwrites nothing either. *)
Theorem addPoint_twice_same_count env (mapPoints : list MapPoint3D.t) (point : MapPoint3D.t) :
  MapFacts.finite_point point ->
  length (SLAMProcessor.addPointsToMap env [point; point] mapPoints)
  = length (SLAMProcessor.addPointsToMap env [point] mapPoints)
  /\ (exists i q, SLAMProcessor.addPointsToMap env [point] mapPoints !! i = Some q
                  /\ MapFacts.near env point q = true)
  /\ SLAMProcessor.addPointsToMap env [point; point] mapPoints
     = SLAMProcessor.addPointsToMap env [point] mapPoints.
Proof.
  intros Hfin. cbn [SLAMProcessor.addPointsToMap fold_left].
  destruct (addPoint_leaves_neighbour env mapPoints point Hfin) as (i & q & Hi & Hnear).
  split; [by eapply addPoint_length_near|]. split; [by exists i, q|].
  by apply addPoint_again.
Qed.

Lemma addPoint_twice_same_count_witness :
  let point := example_point 0.04 0 0 0.9 0 in
  let mapPoints := [example_point 0 0 0 0.5 0; example_point 1 0 0 0.5 0] in
  length (SLAMProcessor.addPointsToMap example_env [point; point] mapPoints)
  = length (SLAMProcessor.addPointsToMap example_env [point] mapPoints)
  /\ SLAMProcessor.addPointsToMap example_env [point; point] mapPoints
     = [point; example_point 1 0 0 0.5 0].
Proof.
  intros point mapPoints.
  destruct (addPoint_twice_same_count example_env mapPoints point) as (Hlen & _ & Heq);
    [by vm_compute|].
  split; [exact Hlen|]. rewrite Heq. by vm_compute.
Defined.

(** C7, as the claim words it, fails for a point that is not within the
    tolerance of itself: with a coordinate that is not a number, the
    distance of the point to itself is NaN, the second insertion finds no
    neighbour and appends the point again. *)
Lemma addPoint_twice_nan_appends :
  is_nan (SLAMProcessor.euclideanDistance3D example_env example_point_nan example_point_nan)
  = true
  /\ length (SLAMProcessor.addPointsToMap example_env [example_point_nan] []) = 1%nat
  /\ length (SLAMProcessor.addPointsToMap example_env [example_point_nan; example_point_nan] [])
     = 2%nat.
Proof. by vm_compute. Qed.

(** ** The mapping engine: a frame without samples *)

Section NoSamples.
Context (env : Env).

Lemma processFrame_no_samples_stages imageData motionVector (this : SLAMProcessor.t) (w : World) :
  let now :=
    Date_now env (clock_reads w + match motionVector with Some _ => 1 | None => 2 end) in
  let result := SLAMProcessor.processFrame env imageData [] motionVector this w in
  SLAMProcessor.mapPoints (snd (fst result))
  = SLAMProcessor.pruned now (SLAMProcessor.mapPoints this)
  /\ SLAMProcessor.landmarks (snd (fst result))
     = firstn 50 (JS.sort SLAMProcessor.by_confidence_desc (SLAMProcessor.landmarks this))
  /\ fst (fst result) = SLAMProcessor.getCurrentMap (snd (fst result)).
Proof.
  cbv zeta. rewrite processFrame_stages. cbv zeta. cbn [fst snd].
  set (mw := SLAMProcessor.estimateCameraMovement env motionVector w).
  destruct (updateTrajectory_spec env (fst mw) this (snd mw)) as (Hm & Hl & _ & Hw).
  set (tw := SLAMProcessor.updateTrajectory env (fst mw) this (snd mw)) in *.
  cbn [SLAMProcessor.convertDepthTo3D fold_left fst snd SLAMProcessor.addPointsToMap].
  rewrite detectLandmarks_nil, optimizeMap_spec.
  cbn [fst snd SLAMProcessor.mapPoints SLAMProcessor.landmarks].
  rewrite Hm, Hl, Hw. cbn [clock_reads].
  assert (Hclock : clock_reads (snd mw)
                   = (clock_reads w + match motionVector with Some _ => 0 | None => 1 end)%nat).
  { subst mw. destruct motionVector as [[[mx my] mz]|]; simpl; lia. }
  rewrite Hclock.
  replace (S (clock_reads w + match motionVector with Some _ => 0 | None => 1 end))%nat
    with (clock_reads w + match motionVector with Some _ => 1 | None => 2 end)%nat
    by (destruct motionVector; lia).
  done.
Qed.

End NoSamples.

(** C3, as the code has it: in every state the engine can reach, a
    [processFrame] call with no depth sample raises no error, inserts no
    point, creates no landmark and leaves the landmark list exactly as it
    was, in the state and in the snapshot; but it still prunes the points.
    The points left are the earlier points that pruning keeps when the clock
    reads [now] (those younger than 30 seconds and of confidence above 0.3,
    cut to the 10,000 most confident); the snapshot is the one of the
    resulting state. The point list, in the state and in the snapshot, is
    unchanged when pruning has nothing to remove. *)
Theorem processFrame_no_samples env imageData motionVector (this : SLAMProcessor.t) (w : World) :
  SLAMProcessor.reachable env this ->
  let now :=
    Date_now env (clock_reads w + match motionVector with Some _ => 1 | None => 2 end) in
  let result := SLAMProcessor.processFrame env imageData [] motionVector this w in
  let snapshot := fst (fst result) in
  let after := snd (fst result) in
  SLAMProcessor.mapPoints after = SLAMProcessor.pruned now (SLAMProcessor.mapPoints this)
  /\ (forall p, p ∈ SLAMProcessor.mapPoints after -> p ∈ SLAMProcessor.mapPoints this)
  /\ SLAMProcessor.landmarks after = SLAMProcessor.landmarks this
  /\ SpatialMap.landmarks snapshot
     = SpatialMap.landmarks (SLAMProcessor.getCurrentMap this)
  /\ snapshot = SLAMProcessor.getCurrentMap after
  /\ ((forall p, p ∈ SLAMProcessor.mapPoints this ->
                 SLAMProcessor.fresh_and_confident now p = true) ->
      (length (SLAMProcessor.mapPoints this) <= 10000)%nat ->
      SLAMProcessor.mapPoints after = SLAMProcessor.mapPoints this
      /\ SpatialMap.points_of snapshot
         = SpatialMap.points_of (SLAMProcessor.getCurrentMap this)).
Proof.
  intros Hreach now result snapshot after.
  destruct (processFrame_no_samples_stages env imageData motionVector this w)
    as (Hp & Hl & Hs).
  fold now result in Hp, Hl, Hs. fold after in Hp, Hl, Hs. fold snapshot in Hs.
  rewrite (reachable_landmarks_sorted env this Hreach) in Hl.
  split; [done|]. split.
  { intros p. rewrite Hp. apply pruned_subset. }
  split; [done|]. split.
  { rewrite Hs. unfold SLAMProcessor.getCurrentMap. cbn [SpatialMap.landmarks].
    by rewrite Hl. }
  split; [done|].
  intros Hall Hlen.
  assert (Hsame : SLAMProcessor.mapPoints after = SLAMProcessor.mapPoints this)
    by (rewrite Hp; by apply pruned_id).
  split; [done|]. rewrite Hs. unfold SLAMProcessor.getCurrentMap.
  cbn [SpatialMap.points_of]. by rewrite Hsame.
Qed.

(** A frame without samples 32 seconds after the one that built
    [example_mapped]: the two landmarks stay, the two points are pruned. *)
Lemma processFrame_no_samples_witness :
  let after :=
    snd (fst (SLAMProcessor.processFrame example_env_varied example_frame [] None
                example_mapped world_later)) in
  length (SLAMProcessor.landmarks example_mapped) = 2%nat
  /\ SLAMProcessor.landmarks after = SLAMProcessor.landmarks example_mapped
  /\ length (SLAMProcessor.mapPoints example_mapped) = 2%nat
  /\ SLAMProcessor.mapPoints after = [].
Proof.
  intros after.
  destruct (processFrame_no_samples example_env_varied example_frame None example_mapped
              world_later example_mapped_reachable) as (Hp & _ & Hl & _).
  split; [by vm_compute|]. split; [exact Hl|]. split; [by vm_compute|].
  unfold after. rewrite Hp. by vm_compute.
Defined.

(** C3, as the claim words it, fails: a point inserted by one frame is
    removed by a later [processFrame] call that carries no depth sample, once
    32 seconds have passed; the point list and the snapshot both change. *)
Lemma processFrame_no_samples_prunes :
  let before :=
    snd (fst (SLAMProcessor.processFrame example_env example_frame
                [example_sample 0 0 0.5] (Some (0, 0, 0)%float) SLAMProcessor.initial world0)) in
  let result :=
    SLAMProcessor.processFrame example_env example_frame [] (Some (0, 0, 0)%float)
      before world_later in
  length (SLAMProcessor.mapPoints before) = 1%nat
  /\ SLAMProcessor.mapPoints (snd (fst result)) = []
  /\ length (SpatialMap.points_of (SLAMProcessor.getCurrentMap before)) = 1%nat
  /\ SpatialMap.points_of (fst (fst result)) = [].
Proof. by vm_compute. Qed.

(** A call without samples right after the frame that inserted a point
    leaves the point in place. *)
Example processFrame_no_samples_keeps_fresh :
  let first :=
    SLAMProcessor.processFrame example_env example_frame
      [example_sample 0 0 0.5] (Some (0, 0, 0)%float) SLAMProcessor.initial world0 in
  let second :=
    SLAMProcessor.processFrame example_env example_frame [] (Some (0, 0, 0)%float)
      (snd (fst first)) (snd first) in
  SLAMProcessor.mapPoints (snd (fst second)) = SLAMProcessor.mapPoints (snd (fst first))
  /\ length (SLAMProcessor.mapPoints (snd (fst second))) = 1%nat.
Proof. by vm_compute. Qed.

